(** * Collaborative browser: session store, signaling relay, browser engine

    A shallow embedding of the TypeScript sources

    - [server/src/room/RoomManager.ts]      (session store),
    - [server/src/signaling/SignalingHandler.ts] (signaling relay),
    - [browser-service] class [BrowserService] (automation engine),

    followed by the properties of the specification that concern them.

    Conventions.  A JavaScript [Map] iterates in insertion order, and the
    store relies on it ([Array.from(room.users.values())[0]], the sweep of
    [cleanup]), so [rooms] and [users] are insertion-ordered association
    lists.  The reverse index [userToRoom] is only ever read by key, so it
    is a [gmap].  [new Date()] reads a clock that the caller passes in as
    milliseconds, [uuidv4()] is an argument, and [setTimeout] returns the
    timer it would register. *)

From stdpp Require Import gmap strings list fin_maps sorting.
From Stdlib Require Import ZArith Lia Ascii.

Local Open Scope string_scope.
Local Open Scope Z_scope.

(** ** Insertion-ordered maps with string keys (JavaScript [Map]) *)

Module JsMap.
Section Ops.
Context {V : Type}.

Definition t := list (string * V).

Definition empty : t := [].

Fixpoint get (k : string) (m : t) : option V :=
  match m with
  | [] => None
  | (k', v) :: m' => if String.eqb k k' then Some v else get k m'
  end.

Definition has (k : string) (m : t) : bool :=
  match get k m with Some _ => true | None => false end.

(** [set] on a present key overwrites in place (the position is kept); on
    an absent key it appends. *)
Fixpoint set (k : string) (v : V) (m : t) : t :=
  match m with
  | [] => [(k, v)]
  | (k', v') :: m' =>
      if String.eqb k k' then (k, v) :: m' else (k', v') :: set k v m'
  end.

Fixpoint delete (k : string) (m : t) : t :=
  match m with
  | [] => []
  | (k', v') :: m' =>
      if String.eqb k k' then delete k m' else (k', v') :: delete k m'
  end.

Definition size (m : t) : Z := Z.of_nat (length m).

Definition keys (m : t) : list string := map fst m.

Definition values (m : t) : list V := map snd m.
End Ops.
Arguments t : clear implicits.
End JsMap.

(** ** Data model ([types.ts]) *)

Module User.
Record t := mk {
  id : string;
  name : string;
  isHost : bool;
  joinedAt : Z;
  lastActivity : Z
}.

Definition with_isHost (b : bool) (u : t) : t :=
  mk (id u) (name u) b (joinedAt u) (lastActivity u).

Definition with_lastActivity (now : Z) (u : t) : t :=
  mk (id u) (name u) (isHost u) (joinedAt u) now.
End User.

Module Room.
Record t := mk {
  id : string;
  name : string;
  password : option string;
  users : JsMap.t User.t;
  currentUrl : string;
  createdAt : Z;
  lastActivity : Z;
  maxUsers : Z
}.

Definition with_users (us : JsMap.t User.t) (r : t) : t :=
  mk (id r) (name r) (password r) us (currentUrl r) (createdAt r)
     (lastActivity r) (maxUsers r).

Definition with_currentUrl (url : string) (r : t) : t :=
  mk (id r) (name r) (password r) (users r) url (createdAt r)
     (lastActivity r) (maxUsers r).

Definition with_lastActivity (now : Z) (r : t) : t :=
  mk (id r) (name r) (password r) (users r) (currentUrl r) (createdAt r)
     now (maxUsers r).
End Room.

(** ** JavaScript truthiness and strict equality on optional strings *)

(** [if (s)] for [s : string | undefined]: false on [undefined] and on the
    empty string. *)
Definition truthy (s : option string) : bool :=
  match s with
  | Some x => negb (String.eqb x "")
  | None => false
  end.

(** [a !== b] for [a, b : string | undefined]. *)
Definition strict_neq (a b : option string) : bool :=
  match a, b with
  | Some x, Some y => negb (String.eqb x y)
  | None, None => false
  | _, _ => true
  end.

(** ** The session store ([RoomManager.ts]) *)

Module RoomManager.

Record t := mk {
  rooms : JsMap.t Room.t;
  userToRoom : gmap string string
}.

Definition init : t := mk JsMap.empty ∅.

(** The result object of [joinRoom]: [{ success, room?, error? }]. *)
Record JoinResult := mkJoin {
  success : bool;
  room : option Room.t;
  error : option string
}.

Definition join_error (msg : string) : JoinResult :=
  mkJoin false None (Some msg).

Definition DEFAULT_URL : string := "https://www.google.com".
Definition DEFAULT_MAX_USERS : Z := 10.
(** [300000] in [leaveRoom]: five minutes. *)
Definition GRACE_PERIOD : Z := 300000.
(** [30 * 60 * 1000] in [cleanup]: thirty minutes. *)
Definition INACTIVITY_TIMEOUT : Z := 30 * 60 * 1000.

(** [createRoom(name, password?, maxUsers = 10)]; [uuid] is the value of
    [uuidv4()], [now] the value of [new Date()]. *)
Definition createRoom (uuid : string) (now : Z) (name : string)
    (password : option string) (maxUsers : option Z) (m : t) : Room.t * t :=
  let room :=
    Room.mk uuid name password JsMap.empty DEFAULT_URL now now
            (default DEFAULT_MAX_USERS maxUsers) in
  (room, mk (JsMap.set uuid room (rooms m)) (userToRoom m)).

(** [joinRoom(roomId, userId, userName, password?)]. *)
Definition joinRoom (now : Z) (roomId userId userName : string)
    (password : option string) (m : t) : JoinResult * t :=
  match JsMap.get roomId (rooms m) with
  | None => (join_error "Room not found", m)
  | Some room =>
      if truthy (Room.password room)
         && strict_neq (Room.password room) password
      then (join_error "Invalid password", m)
      else if Room.maxUsers room <=? JsMap.size (Room.users room)
      then (join_error "Room is full", m)
      else if JsMap.has userId (Room.users room)
      then (join_error "User already in room", m)
      else
        let user :=
          User.mk userId userName
                  (JsMap.size (Room.users room) =? 0) now now in
        let room' :=
          Room.with_lastActivity now
            (Room.with_users (JsMap.set userId user (Room.users room))
               room) in
        (mkJoin true (Some room') None,
         mk (JsMap.set roomId room' (rooms m))
            (<[userId := roomId]> (userToRoom m)))
  end.

(** [users[0].isHost = true]: the user objects are shared with the map,
    so the first entry of the map is the one that changes. *)
Definition promote_first (us : JsMap.t User.t) : JsMap.t User.t :=
  match us with
  | [] => []
  | (k, u) :: rest => (k, User.with_isHost true u) :: rest
  end.

(** The [else] branch of [leaveRoom]: "Update host if necessary". *)
Definition update_host (us : JsMap.t User.t) : JsMap.t User.t :=
  let users := JsMap.values us in
  if (0 <? Z.of_nat (length users)) && negb (existsb User.isHost users)
  then promote_first us
  else us.

(** [leaveRoom(userId)].  The third component is the room id handed to
    [setTimeout(..., 300000)], when a timer is registered. *)
Definition leaveRoom (userId : string) (m : t) : bool * t * option string :=
  match userToRoom m !! userId with
  | None => (false, m, None)
  | Some roomId =>
      if String.eqb roomId "" then (false, m, None)
      else
        match JsMap.get roomId (rooms m) with
        | None => (false, m, None)
        | Some room =>
            let us := JsMap.delete userId (Room.users room) in
            let index := delete userId (userToRoom m) in
            if JsMap.size us =? 0
            then (true,
                  mk (JsMap.set roomId (Room.with_users us room) (rooms m))
                     index,
                  Some roomId)
            else (true,
                  mk (JsMap.set roomId
                        (Room.with_users (update_host us) room) (rooms m))
                     index,
                  None)
        end
  end.

(** The callback that [leaveRoom] passes to [setTimeout]. *)
Definition delete_if_empty (roomId : string) (m : t) : t :=
  match JsMap.get roomId (rooms m) with
  | Some room =>
      if JsMap.size (Room.users room) =? 0
      then mk (JsMap.delete roomId (rooms m)) (userToRoom m)
      else m
  | None => m
  end.

Definition getRoom (roomId : string) (m : t) : option Room.t :=
  JsMap.get roomId (rooms m).

Definition getUserRoom (userId : string) (m : t) : option Room.t :=
  match userToRoom m !! userId with
  | Some roomId =>
      if String.eqb roomId "" then None else JsMap.get roomId (rooms m)
  | None => None
  end.

Definition getRoomUsers (roomId : string) (m : t) : list User.t :=
  match JsMap.get roomId (rooms m) with
  | Some room => JsMap.values (Room.users room)
  | None => []
  end.

Definition updateRoomUrl (now : Z) (roomId url : string) (m : t) : bool * t :=
  match JsMap.get roomId (rooms m) with
  | None => (false, m)
  | Some room =>
      (true,
       mk (JsMap.set roomId
             (Room.with_lastActivity now (Room.with_currentUrl url room))
             (rooms m))
          (userToRoom m))
  end.

Definition updateUserActivity (now : Z) (userId : string) (m : t) : t :=
  match userToRoom m !! userId with
  | None => m
  | Some roomId =>
      if String.eqb roomId "" then m
      else
        match JsMap.get roomId (rooms m) with
        | None => m
        | Some room =>
            let us :=
              match JsMap.get userId (Room.users room) with
              | Some user =>
                  JsMap.set userId (User.with_lastActivity now user)
                            (Room.users room)
              | None => Room.users room
              end in
            mk (JsMap.set roomId
                  (Room.with_lastActivity now (Room.with_users us room))
                  (rooms m))
               (userToRoom m)
        end
  end.

Definition getActiveRooms (m : t) : list Room.t :=
  filter (fun room => 0 < JsMap.size (Room.users room))
         (JsMap.values (rooms m)).

(** [now.getTime() - t.getTime() > timeout]. *)
Definition stale (now t : Z) : bool := INACTIVITY_TIMEOUT <? now - t.

(** The inner loop of [cleanup] over [room.users.entries()]: every stale
    user is deleted from the room and from the reverse index. *)
Definition sweep_users (now : Z) (us : JsMap.t User.t)
    (index : gmap string string) : JsMap.t User.t * gmap string string :=
  fold_left
    (fun acc entry =>
       if stale now (User.lastActivity (snd entry))
       then (JsMap.delete (fst entry) (fst acc), delete (fst entry) (snd acc))
       else acc)
    us (us, index).

(** One iteration of the outer loop of [cleanup]. *)
Definition sweep_room (now : Z) (m : t) (entry : string * Room.t) : t :=
  let roomId := fst entry in
  match JsMap.get roomId (rooms m) with
  | None => m
  | Some room =>
      let swept := sweep_users now (Room.users room) (userToRoom m) in
      let room' := Room.with_users (fst swept) room in
      if (JsMap.size (Room.users room') =? 0)
         && stale now (Room.lastActivity room')
      then mk (JsMap.delete roomId (rooms m)) (snd swept)
      else mk (JsMap.set roomId room' (rooms m)) (snd swept)
  end.

(** [cleanup()], at clock [now]. *)
Definition cleanup (now : Z) (m : t) : t :=
  fold_left (sweep_room now) (rooms m) m.

End RoomManager.

(** ** The store inside the JavaScript runtime: clock and pending timers *)

Module Store.

(** A pending [setTimeout] of [leaveRoom]: the instant it is due and the
    room id its callback closes over. *)
Definition Timer : Type := Z * string.

Record t := mk {
  mgr : RoomManager.t;
  clock : Z;
  timers : list Timer
}.

Definition init : t := mk RoomManager.init 0 [].

(** The public methods of the store, and the passing of time. *)
Inductive Call :=
| CreateRoom (uuid name : string) (password : option string)
             (maxUsers : option Z)
| JoinRoom (roomId userId userName : string) (password : option string)
| LeaveRoom (userId : string)
| UpdateRoomUrl (roomId url : string)
| UpdateUserActivity (userId : string)
| Cleanup
| Elapse (ms : Z).

Definition createRoom (uuid name : string) (password : option string)
    (maxUsers : option Z) (s : t) : Room.t * t :=
  let r := RoomManager.createRoom uuid (clock s) name password maxUsers
             (mgr s) in
  (fst r, mk (snd r) (clock s) (timers s)).

Definition joinRoom (roomId userId userName : string)
    (password : option string) (s : t) : RoomManager.JoinResult * t :=
  let r := RoomManager.joinRoom (clock s) roomId userId userName password
             (mgr s) in
  (fst r, mk (snd r) (clock s) (timers s)).

(** [leaveRoom]: the timer, when one is requested, is due five minutes
    after the call. *)
Definition leaveRoom (userId : string) (s : t) : bool * t :=
  match RoomManager.leaveRoom userId (mgr s) with
  | (ok, m, Some roomId) =>
      (ok,
       mk m (clock s)
          ((timers s ++ [(clock s + RoomManager.GRACE_PERIOD, roomId)])%list))
  | (ok, m, None) => (ok, mk m (clock s) (timers s))
  end.

Definition updateRoomUrl (roomId url : string) (s : t) : bool * t :=
  let r := RoomManager.updateRoomUrl (clock s) roomId url (mgr s) in
  (fst r, mk (snd r) (clock s) (timers s)).

Definition updateUserActivity (userId : string) (s : t) : t :=
  mk (RoomManager.updateUserActivity (clock s) userId (mgr s))
     (clock s) (timers s).

Definition cleanup (s : t) : t :=
  mk (RoomManager.cleanup (clock s) (mgr s)) (clock s) (timers s).

Definition due (now : Z) (tm : Timer) : bool := fst tm <=? now.

(** The clock moves forward by [ms]; the timers that are due by then run,
    in the order they were registered, and are discarded. *)
Definition elapse (ms : Z) (s : t) : t :=
  let now := clock s + Z.max 0 ms in
  let fired := List.filter (due now) (timers s) in
  let pending := List.filter (fun tm => negb (due now tm)) (timers s) in
  mk (fold_left (fun m tm => RoomManager.delete_if_empty (snd tm) m)
                fired (mgr s))
     now pending.

Definition call (c : Call) (s : t) : t :=
  match c with
  | CreateRoom uuid name password maxUsers =>
      snd (createRoom uuid name password maxUsers s)
  | JoinRoom roomId userId userName password =>
      snd (joinRoom roomId userId userName password s)
  | LeaveRoom userId => snd (leaveRoom userId s)
  | UpdateRoomUrl roomId url => snd (updateRoomUrl roomId url s)
  | UpdateUserActivity userId => updateUserActivity userId s
  | Cleanup => cleanup s
  | Elapse ms => elapse ms s
  end.

Definition run (cs : list Call) (s : t) : t :=
  fold_left (fun s c => call c s) cs s.

(** The states the store can be in: those a sequence of calls produces
    from the empty store. *)
Definition reachable (s : t) : Prop := exists cs, s = run cs init.

Definition getRoom (roomId : string) (s : t) : option Room.t :=
  RoomManager.getRoom roomId (mgr s).

End Store.

(** ** Predicates on rooms used by the specification *)

(** The number of users of a room whose [isHost] flag is set. *)
Definition host_count (r : Room.t) : nat :=
  length (List.filter User.isHost (JsMap.values (Room.users r))).

(** "Exactly one host when non-empty". *)
Definition single_host (r : Room.t) : Prop :=
  Room.users r <> [] -> host_count r = 1%nat.

(** "users.size <= maxUsers". *)
Definition within_capacity (r : Room.t) : Prop :=
  JsMap.size (Room.users r) <= Room.maxUsers r.

(** ** The signaling relay ([SignalingHandler.ts]), room-scoped commands *)

Module Relay.

(** Server-to-client events of the room protocol, with the payloads the
    handlers build. *)
Inductive Event :=
| room_created (roomId name currentUrl : string) (userCount maxUsers : Z)
| room_joined (roomId name currentUrl : string) (users : list User.t)
              (maxUsers : Z) (user : option User.t)
| join_error (message : option string)
| user_joined (userId : string) (user : option User.t) (users : list User.t)
| user_left (userId : string) (users : list User.t)
| user_disconnected (userId : string) (users : list User.t)
| url_changed (url changedBy : string)
| control (message : string).

(** One [emit]: the sockets it is delivered to and the event. *)
Record Emit := mkEmit {
  recipients : gset string;
  event : Event
}.

(** [connectedSockets] is the handler's own map (insertion-ordered, keyed
    by socket id); [channels] is the socket.io adapter: for each channel
    name, the sockets that called [socket.join] on it and have neither
    left nor disconnected; [outbox] collects the emits, oldest first. *)
Record t := mk {
  store : Store.t;
  connectedSockets : list string;
  channels : gmap string (gset string);
  outbox : list Emit
}.

Definition init : t := mk Store.init [] ∅ [].

Definition channel (name : string) (st : t) : gset string :=
  default ∅ (channels st !! name).

(** [socket.join(name)] and [socket.leave(name)]. *)
Definition socket_join (sock name : string) (st : t) : t :=
  mk (store st) (connectedSockets st)
     (<[name := channel name st ∪ {[sock]}]> (channels st)) (outbox st).

Definition socket_leave (sock name : string) (st : t) : t :=
  mk (store st) (connectedSockets st)
     (<[name := channel name st ∖ {[sock]}]> (channels st)) (outbox st).

(** [socket.emit(ev)], [socket.to(name).emit(ev)] (every socket of the
    channel but the sender) and [io.to(name).emit(ev)] (every socket of
    the channel). *)
Definition emit (to : gset string) (ev : Event) (st : t) : t :=
  mk (store st) (connectedSockets st) (channels st)
     ((outbox st ++ [mkEmit to ev])%list).

Definition socket_emit (sock : string) (ev : Event) (st : t) : t :=
  emit {[sock]} ev st.

Definition socket_to_emit (sock name : string) (ev : Event) (st : t) : t :=
  emit (channel name st ∖ {[sock]}) ev st.

Definition io_to_emit (name : string) (ev : Event) (st : t) : t :=
  emit (channel name st) ev st.

Definition with_store (s : Store.t) (st : t) : t :=
  mk s (connectedSockets st) (channels st) (outbox st).

Definition getUserRoom (sock : string) (st : t) : option Room.t :=
  RoomManager.getUserRoom sock (Store.mgr (store st)).

Definition getRoomUsers (roomId : string) (st : t) : list User.t :=
  RoomManager.getRoomUsers roomId (Store.mgr (store st)).

Definition on_connection (sock : string) (st : t) : t :=
  mk (store st) ((connectedSockets st ++ [sock])%list) (channels st)
     (outbox st).

Definition handleCreateRoom (sock uuid name : string)
    (password : option string) (maxUsers : option Z) (st : t) : t :=
  let r := Store.createRoom uuid name password maxUsers (store st) in
  let room := fst r in
  let st1 := socket_join sock (Room.id room) (with_store (snd r) st) in
  socket_emit sock
    (room_created (Room.id room) (Room.name room) (Room.currentUrl room)
       (JsMap.size (Room.users room)) (Room.maxUsers room))
    st1.

Definition handleJoinRoom (sock roomId userName : string)
    (password : option string) (st : t) : t :=
  let r := Store.joinRoom roomId sock userName password (store st) in
  let result := fst r in
  let st1 := with_store (snd r) st in
  match RoomManager.success result, RoomManager.room result with
  | true, Some room =>
      let st2 := socket_join sock (Room.id room) st1 in
      let user := JsMap.get sock (Room.users room) in
      let users := getRoomUsers (Room.id room) st2 in
      let st3 :=
        socket_emit sock
          (room_joined (Room.id room) (Room.name room)
             (Room.currentUrl room) users (Room.maxUsers room) user)
          st2 in
      socket_to_emit sock (Room.id room) (user_joined sock user users) st3
  | _, _ => socket_emit sock (join_error (RoomManager.error result)) st1
  end.

Definition handleLeaveRoom (sock : string) (st : t) : t :=
  match getUserRoom sock st with
  | Some room =>
      let st1 := with_store (snd (Store.leaveRoom sock (store st))) st in
      let st2 := socket_leave sock (Room.id room) st1 in
      socket_to_emit sock (Room.id room)
        (user_left sock (getRoomUsers (Room.id room) st2)) st2
  | None => st
  end.

Definition handleControlMessage (sock message : string) (st : t) : t :=
  match getUserRoom sock st with
  | Some room => socket_to_emit sock (Room.id room) (control message) st
  | None => st
  end.

Definition handleUrlChange (sock url : string) (st : t) : t :=
  match getUserRoom sock st with
  | Some room =>
      let st1 :=
        with_store (snd (Store.updateRoomUrl (Room.id room) url (store st)))
          st in
      io_to_emit (Room.id room) (url_changed url sock) st1
  | None => st
  end.

Definition handleDisconnect (sock : string) (st : t) : t :=
  let st1 := with_store (snd (Store.leaveRoom sock (store st))) st in
  match getUserRoom sock st1 with
  | Some room =>
      socket_to_emit sock (Room.id room)
        (user_disconnected sock (getRoomUsers (Room.id room) st1)) st1
  | None => st1
  end.

(** A closing socket has left every channel by the time socket.io raises
    ['disconnect']; the listener then runs [handleDisconnect] and
    [connectedSockets.delete]. *)
Definition on_disconnect (sock : string) (st : t) : t :=
  let st1 :=
    mk (store st) (connectedSockets st)
       ((fun members => members ∖ {[sock]}) <$> channels st) (outbox st) in
  let st2 := handleDisconnect sock st1 in
  mk (store st2)
     (List.filter (fun s => negb (String.eqb s sock)) (connectedSockets st2))
     (channels st2) (outbox st2).

(** One tick of [startHeartbeat]. *)
Definition heartbeat (st : t) : t :=
  let s1 :=
    fold_left (fun s sock => Store.updateUserActivity sock s)
              (connectedSockets st) (store st) in
  with_store (Store.cleanup s1) st.

(** What the relay reacts to: client events, its own interval, and the
    passing of time (which runs the store's due timers). *)
Inductive Msg :=
| connection (sock : string)
| create_room (sock uuid name : string) (password : option string)
              (maxUsers : option Z)
| join_room (sock roomId userName : string) (password : option string)
| leave_room (sock : string)
| control_msg (sock message : string)
| url_change (sock url : string)
| disconnect (sock : string)
| heartbeat_tick
| elapse (ms : Z).

Definition handle (msg : Msg) (st : t) : t :=
  match msg with
  | connection sock => on_connection sock st
  | create_room sock uuid name password maxUsers =>
      handleCreateRoom sock uuid name password maxUsers st
  | join_room sock roomId userName password =>
      handleJoinRoom sock roomId userName password st
  | leave_room sock => handleLeaveRoom sock st
  | control_msg sock message => handleControlMessage sock message st
  | url_change sock url => handleUrlChange sock url st
  | disconnect sock => on_disconnect sock st
  | heartbeat_tick => heartbeat st
  | elapse ms => with_store (Store.elapse ms (store st)) st
  end.

Definition run (msgs : list Msg) (st : t) : t :=
  fold_left (fun st msg => handle msg st) msgs st.

(** [sock] is a user of some room of the store. *)
Definition member_somewhere (sock : string) (st : t) : Prop :=
  exists roomId room,
    JsMap.get roomId (RoomManager.rooms (Store.mgr (store st))) = Some room
    /\ sock ∈ JsMap.keys (Room.users room).

(** What the environment guarantees: socket ids are never reused, a
    client event comes from a connected socket, and [uuidv4()] does not
    return the id of an existing room. *)
Definition admissible (msg : Msg) (st : t) : Prop :=
  match msg with
  | connection sock =>
      (sock ∉ connectedSockets st) /\ ~ member_somewhere sock st
  | create_room sock uuid _ _ _ =>
      sock ∈ connectedSockets st
      /\ JsMap.get uuid (RoomManager.rooms (Store.mgr (store st))) = None
  | join_room sock _ _ _ | leave_room sock | control_msg sock _
  | url_change sock _ | disconnect sock => sock ∈ connectedSockets st
  | heartbeat_tick | elapse _ => True
  end.

Inductive reachable : t -> Prop :=
| reachable_init : reachable init
| reachable_step st msg :
    reachable st -> admissible msg st -> reachable (handle msg st).

(** [sock] is delivered [ev] by an emit that [after] has and [before]
    does not have. *)
Definition receives (sock : string) (ev : Event) (before after : t) : Prop :=
  exists e, outbox after = (outbox before ++ [e])%list
            /\ event e = ev /\ sock ∈ recipients e.

End Relay.

(** ** The browser automation engine ([BrowserService]) *)

Module Engine.

(** [browserType]; the field is assigned ['http'] by [initializeBrowser]
    although its declared type omits it. *)
Inductive BrowserType := playwright | puppeteer | http | mock.

Definition is_mock (b : BrowserType) : bool :=
  match b with mock => true | _ => false end.

(** Which of the module-level variables [playwright]/[chromium],
    [puppeteer] and [axios] are non-null. *)
Record Modules := mkModules {
  has_playwright : bool;
  has_puppeteer : bool;
  has_axios : bool
}.

(** The nested [try { require(...) } catch] at the top of the file: each
    library is only required when the previous [require] threw. *)
Definition load_modules (playwright_installed puppeteer_installed
                         axios_installed : bool) : Modules :=
  if playwright_installed then mkModules true false false
  else if puppeteer_installed then mkModules false true false
  else if axios_installed then mkModules false false true
  else mkModules false false false.

Record Frame := mkFrame {
  imageData : string;
  timestamp : Z
}.

(** [browser] and [page] record whether the fields are non-null;
    [streamingClients] holds the ids that map to a peer connection (the
    loop never reads the connection itself); [intervals] are the live
    [setInterval] loops of [startStreaming], each with the [clientId] its
    callback closes over; [sockets] are the ids in [io.sockets.sockets];
    [frames] are the ['browser-frame'] emits so far, oldest first, with
    the socket each went to. *)
Record t := mk {
  browser : bool;
  page : bool;
  browserType : BrowserType;
  currentUrl : string;
  isInitialized : bool;
  streamingClients : gset string;
  streamingInterval : option nat;
  intervals : list (nat * string);
  next_handle : nat;
  sockets : list string;
  frames : list (string * Frame)
}.

Definition init : t :=
  mk false false mock "https://www.google.com" false ∅ None [] 0 [] [].

Definition with_driver (b p : bool) (ty : BrowserType) (ini : bool)
    (st : t) : t :=
  mk b p ty (currentUrl st) ini (streamingClients st)
     (streamingInterval st) (intervals st) (next_handle st) (sockets st)
     (frames st).

(** *** Driver initialization *)

(** How far one launch attempt gets before it throws. *)
Inductive Launch :=
| launch_throws     (* [launch] rejects: nothing assigned *)
| newPage_throws    (* [this.browser] assigned, [newPage] rejects *)
| setup_throws      (* [this.page] assigned, viewport or [goto] rejects *)
| launch_ok.

(** What the drivers do during one [initializeBrowser], and how long each
    awaited step takes (milliseconds). *)
Record InitRun := mkInitRun {
  close_ms : Z;
  playwright_run : Launch;
  playwright_ms : Z;
  puppeteer_run : Launch;
  puppeteer_ms : Z
}.

(** One launch block: the state it leaves behind, and whether it
    returned from [initializeBrowser]. *)
Definition attempt (ty : BrowserType) (l : Launch) (st : t) : t * bool :=
  match l with
  | launch_throws => (st, false)
  | newPage_throws =>
      (with_driver true (page st) (browserType st) (isInitialized st) st,
       false)
  | setup_throws =>
      (with_driver true true (browserType st) (isInitialized st) st, false)
  | launch_ok => (with_driver true true ty true st, true)
  end.

(** [initializeBrowser()], with the time it took. *)
Definition initializeBrowser (mods : Modules) (run : InitRun) (st : t)
    : t * Z :=
  if isInitialized st && browser st && page st then (st, 0)
  else
    let closed :=
      if browser st
      then (with_driver false false (browserType st) (isInitialized st) st,
            close_ms run)
      else (st, 0) in
    let after_playwright :=
      if has_playwright mods
      then (attempt playwright (playwright_run run) (fst closed),
            snd closed + playwright_ms run)
      else ((fst closed, false), snd closed) in
    if snd (fst after_playwright)
    then (fst (fst after_playwright), snd after_playwright)
    else
      let after_puppeteer :=
        if has_puppeteer mods
        then (attempt puppeteer (puppeteer_run run)
                (fst (fst after_playwright)),
              snd after_playwright + puppeteer_ms run)
        else ((fst (fst after_playwright), false), snd after_playwright) in
      if snd (fst after_puppeteer)
      then (fst (fst after_puppeteer), snd after_puppeteer)
      else
        let st' := fst (fst after_puppeteer) in
        if has_axios mods
        then (with_driver (browser st') (page st') http true st',
              snd after_puppeteer)
        else (with_driver (browser st') (page st') mock false st',
              snd after_puppeteer).

(** *** [GET /screenshot] *)

Inductive Response :=
| png (image : string)
| svg (content : string)
| json_error (status : Z) (error : string).

(** One [page.screenshot(...)]: the image it resolves with ([None] when
    it rejects) and the time it takes. *)
Record Capture := mkCapture {
  capture_result : option string;
  capture_ms : Z
}.

(** [Promise.race([page.screenshot(...), <reject after limit>])]. *)
Definition race (limit : Z) (c : Capture) : option string * Z :=
  if capture_ms c <? limit then (capture_result c, capture_ms c)
  else (None, limit).

Definition quote : string := String (ascii_of_nat 34) EmptyString.
Definition newline : string := String (ascii_of_nat 10) EmptyString.

Definition attr (key value : string) : string :=
  String.concat "" [" "; key; "="; quote; value; quote].

Definition text_open (y size fill : string) : string :=
  String.concat ""
    ["                <text"; attr "x" "50%"; attr "y" y;
     attr "font-family" "Arial"; attr "font-size" size; attr "fill" fill;
     attr "text-anchor" "middle"; ">"].

(** The part of the template literal before [${this.currentUrl}]. *)
Definition svg_prefix : string :=
  String.concat newline
    ["";
     String.concat ""
       ["              <svg"; attr "width" "1280"; attr "height" "720";
        attr "xmlns" "http://www.w3.org/2000/svg"; ">"];
     String.concat ""
       ["                <rect"; attr "width" "100%"; attr "height" "100%";
        attr "fill" "#f8f9fa"; "/>"];
     text_open "30%" "36" "#6b7280";
     "                  🔄 Initializing Browser...";
     "                </text>";
     text_open "50%" "24" "#9ca3af";
     "                  "].

(** The part after it. *)
Definition svg_suffix : string :=
  String.concat newline
    ["";
     "                </text>";
     text_open "70%" "18" "#d1d5db";
     "                  Real browser content loading...";
     "                </text>";
     "              </svg>";
     "            "].

(** [svgContent], the "SVG mock" of the route. *)
Definition placeholder (url : string) : string :=
  String.append svg_prefix (String.append url svg_suffix).

(** The route's own [setTimeout(..., 10000)], and the limits of its two
    races. *)
Definition WATCHDOG : Z := 10000.
Definition FIRST_CAPTURE_LIMIT : Z := 8000.
Definition RETRY_CAPTURE_LIMIT : Z := 5000.

(** What the caller receives when the handler produces [r] after
    [elapsed] milliseconds: the watchdog has answered 504 if it ran
    first, and the later [res.setHeader] of the handler then throws
    into a [catch] that finds [res.headersSent]. *)
Definition respond (elapsed : Z) (r : Response) : Response :=
  if WATCHDOG <=? elapsed then json_error 504 "Screenshot timeout" else r.

(** The driver is usable: [this.page && this.isInitialized &&
    this.browserType !== 'mock']. *)
Definition ready (st : t) : bool :=
  page st && isInitialized st && negb (is_mock (browserType st)).

Definition screenshot_route (mods : Modules) (run : InitRun) (c : Capture)
    (st : t) : Response * t :=
  if ready st then
    match race FIRST_CAPTURE_LIMIT c with
    | (Some image, elapsed) => (respond elapsed (png image), st)
    | (None, elapsed) =>
        (respond elapsed (json_error 500 "Failed to create screenshot"), st)
    end
  else
    let r := initializeBrowser mods run st in
    let st1 := fst r in
    if ready st1 then
      match race RETRY_CAPTURE_LIMIT c with
      | (Some image, elapsed) => (respond (snd r + elapsed) (png image), st1)
      | (None, elapsed) =>
          (respond (snd r + elapsed) (svg (placeholder (currentUrl st1))),
           st1)
      end
    else (respond (snd r) (svg (placeholder (currentUrl st1))), st1).

(** The time the [else] branch of the route takes before it answers: the
    re-initialization, then the retried capture if the driver came up. *)
Definition retry_elapsed (mods : Modules) (run : InitRun) (c : Capture)
    (st : t) : Z :=
  let r := initializeBrowser mods run st in
  if ready (fst r) then snd r + snd (race RETRY_CAPTURE_LIMIT c) else snd r.

(** [needle] occurs in [text]. *)
Definition includes (text needle : string) : Prop :=
  exists before after,
    text = String.append before (String.append needle after).

(** *** Streaming *)

(** How the [try] block of the ['webrtc-offer'] listener ends.  The file
    neither imports nor defines [RTCPeerConnection], and Node has no
    global of that name: run by Node, [new RTCPeerConnection] throws a
    [ReferenceError], and the block always ends the first way.  The other
    two are what the listener does where the name is bound. *)
Inductive Negotiation :=
| constructor_throws   (* [new RTCPeerConnection] throws *)
| description_throws   (* an awaited SDP step rejects *)
| negotiated.

Definition with_streaming (clients : gset string) (handle : option nat)
    (loops : list (nat * string)) (next : nat) (st : t) : t :=
  mk (browser st) (page st) (browserType st) (currentUrl st)
     (isInitialized st) clients handle loops next (sockets st) (frames st).

Definition with_sockets (socks : list string) (st : t) : t :=
  mk (browser st) (page st) (browserType st) (currentUrl st)
     (isInitialized st) (streamingClients st) (streamingInterval st)
     (intervals st) (next_handle st) socks (frames st).

Definition startStreaming (clientId : string) (st : t) : t :=
  if negb (page st) || negb (isInitialized st) then st
  else if negb (bool_decide (clientId ∈ streamingClients st)) then st
  else
    with_streaming (streamingClients st) (Some (next_handle st))
      ((intervals st ++ [(next_handle st, clientId)])%list)
      (S (next_handle st)) st.

(** The ['webrtc-offer'] listener. *)
Definition on_webrtc_offer (clientId : string) (n : Negotiation) (st : t)
    : t :=
  match n with
  | constructor_throws => st
  | description_throws =>
      with_streaming (streamingClients st ∪ {[clientId]})
        (streamingInterval st) (intervals st) (next_handle st) st
  | negotiated =>
      startStreaming clientId
        (with_streaming (streamingClients st ∪ {[clientId]})
           (streamingInterval st) (intervals st) (next_handle st) st)
  end.

(** [Buffer.prototype.toString('base64')]: the standard alphabet, three
    bytes to four digits, padded with [=]. *)
Definition base64_digit (n : N) : ascii :=
  if (n <? 26)%N then ascii_of_N (65 + n)
  else if (n <? 52)%N then ascii_of_N (97 + (n - 26))
  else if (n <? 62)%N then ascii_of_N (48 + (n - 52))
  else if (n =? 62)%N then "+"%char
  else "/"%char.

Fixpoint base64 (bytes : string) : string :=
  match bytes with
  | EmptyString => EmptyString
  | String a EmptyString =>
      let x := N_of_ascii a in
      String (base64_digit (x / 4))
        (String (base64_digit ((x mod 4) * 16)) "==")
  | String a (String b EmptyString) =>
      let x := N_of_ascii a in
      let y := N_of_ascii b in
      String (base64_digit (x / 4))
        (String (base64_digit ((x mod 4) * 16 + y / 16))
           (String (base64_digit ((y mod 16) * 4)) "="))
  | String a (String b (String c rest)) =>
      let x := N_of_ascii a in
      let y := N_of_ascii b in
      let z := N_of_ascii c in
      String (base64_digit (x / 4))
        (String (base64_digit ((x mod 4) * 16 + y / 16))
           (String (base64_digit ((y mod 16) * 4 + z / 64))
              (String (base64_digit (z mod 64)) (base64 rest))))
  end.

(** The callback of the [setInterval] of [startStreaming], for the loop
    whose closure holds [clientId]; [shot] holds the bytes that
    [page.screenshot] resolves with ([None]: it rejects), [now] is
    [Date.now()]. *)
Definition capture_and_send (clientId : string) (shot : option string)
    (now : Z) (st : t) : t :=
  if negb (page st) || negb (isInitialized st) then st
  else
    match shot with
    | None => st
    | Some image =>
        if bool_decide (clientId ∈ sockets st)
        then mk (browser st) (page st) (browserType st) (currentUrl st)
                (isInitialized st) (streamingClients st)
                (streamingInterval st) (intervals st) (next_handle st)
                (sockets st)
                ((frames st ++ [(clientId, mkFrame (base64 image) now)])%list)
        else st
    end.

(** The ['client-disconnected'] listener. *)
Definition on_client_disconnected (clientId : string) (st : t) : t :=
  if bool_decide (clientId ∈ streamingClients st)
  then with_streaming (streamingClients st ∖ {[clientId]})
         (streamingInterval st) (intervals st) (next_handle st) st
  else st.

(** The ['disconnect'] listener of a socket of the engine. *)
Definition on_socket_disconnect (sock : string) (st : t) : t :=
  with_sockets
    (List.filter (fun s => negb (String.eqb s sock)) (sockets st))
    (with_streaming ∅ (streamingInterval st) (intervals st)
       (next_handle st) st).

(** [stop()], when the page and the browser close without throwing: the
    only [clearInterval], on the handle stored last. *)
Definition stop (st : t) : t :=
  let loops :=
    match streamingInterval st with
    | Some h => List.filter (fun l => negb (Nat.eqb (fst l) h)) (intervals st)
    | None => intervals st
    end in
  with_driver false false mock false
    (with_streaming ∅ None loops (next_handle st) st).

(** What happens to the engine's streaming state over time. *)
Inductive Step :=
| socket_connects (sock : string)
| webrtc_offer (clientId : string) (n : Negotiation)
| interval_fires (handle : nat) (shot : option string) (now : Z)
| client_disconnected (clientId : string)
| socket_disconnects (sock : string)
| service_stops.

Definition loop_client (handle : nat) (st : t) : option string :=
  snd <$> List.find (fun l => Nat.eqb (fst l) handle) (intervals st).

Definition step (e : Step) (st : t) : t :=
  match e with
  | socket_connects sock => with_sockets ((sockets st ++ [sock])%list) st
  | webrtc_offer clientId n => on_webrtc_offer clientId n st
  | interval_fires handle shot now =>
      match loop_client handle st with
      | Some clientId => capture_and_send clientId shot now st
      | None => st
      end
  | client_disconnected clientId => on_client_disconnected clientId st
  | socket_disconnects sock => on_socket_disconnect sock st
  | service_stops => stop st
  end.

Definition run (es : list Step) (st : t) : t :=
  fold_left (fun st e => step e st) es st.



End Engine.

(** ** The validation order of [joinRoom], in the words of the specification *)

Module JoinSpec.

Inductive JoinError := NotFound | InvalidPassword | Full | AlreadyJoined.

(** The message the store reports for each error. *)
Definition error_text (e : JoinError) : string :=
  match e with
  | NotFound => "Room not found"
  | InvalidPassword => "Invalid password"
  | Full => "Room is full"
  | AlreadyJoined => "User already in room"
  end.

(** "existence, password match (if room has one), capacity, and
    non-duplication, in that order". *)
Definition validation_order : list JoinError :=
  [NotFound; InvalidPassword; Full; AlreadyJoined].

(** A room has a password when the field is a non-empty string. *)
Definition has_password (r : Room.t) : bool := truthy (Room.password r).

(** Whether one check rejects the call; the checks after existence are
    about the room that was found. *)
Definition check_fails (room : option Room.t) (userId : string)
    (password : option string) (e : JoinError) : bool :=
  match room, e with
  | None, NotFound => true
  | None, _ => false
  | Some _, NotFound => false
  | Some r, InvalidPassword =>
      has_password r && strict_neq (Room.password r) password
  | Some r, Full => Room.maxUsers r <=? JsMap.size (Room.users r)
  | Some r, AlreadyJoined => JsMap.has userId (Room.users r)
  end.

Definition first_failing_check (room : option Room.t) (userId : string)
    (password : option string) : option JoinError :=
  List.find (check_fails room userId password) validation_order.

End JoinSpec.

(** ** Concrete runs *)

Module Scenario.

Definition minute : Z := 60000.

(** A host that stays idle for thirty-one minutes next to a guest who
    joined two minutes before the sweep. *)
Definition idle_host : list Store.Call :=
  [Store.CreateRoom "R" "room" None None;
   Store.JoinRoom "R" "alice" "Alice" None;
   Store.Elapse (29 * minute);
   Store.JoinRoom "R" "bob" "Bob" None;
   Store.Elapse (2 * minute);
   Store.Cleanup].

(** The same through the relay: socket [h] joins room [A] and then room
    [B], socket [g] joins [A]; the heartbeat then ticks every thirty
    seconds for thirty and a half minutes. *)
Definition heartbeats (n : nat) : list Relay.Msg :=
  concat (replicate n [Relay.elapse 30000; Relay.heartbeat_tick]).

Definition two_rooms : list Relay.Msg :=
  [Relay.connection "h"; Relay.connection "g";
   Relay.create_room "h" "A" "first" None None;
   Relay.create_room "h" "B" "second" None None;
   Relay.join_room "h" "A" "Host" None;
   Relay.join_room "h" "B" "Host" None;
   Relay.join_room "g" "A" "Guest" None].

Definition after_half_hour : Relay.t :=
  Relay.run (two_rooms ++ heartbeats 61)%list Relay.init.

(** A room with a negative capacity. *)
Definition negative_capacity : Store.t :=
  Store.run [Store.CreateRoom "R" "room" None (Some (-1))] Store.init.

(** A password-protected room for one user, already full. *)
Definition full_locked_room : Store.t :=
  Store.run [Store.CreateRoom "R" "room" (Some "secret") (Some 1);
             Store.JoinRoom "R" "alice" "Alice" (Some "secret")]
            Store.init.

(** The last user leaves, comes back after one minute and leaves again
    four and a half minutes after the first departure. *)
Definition quick_return : list Store.Call :=
  [Store.CreateRoom "R" "room" None None;
   Store.JoinRoom "R" "alice" "Alice" None;
   Store.LeaveRoom "alice";
   Store.Elapse (1 * minute);
   Store.JoinRoom "R" "alice" "Alice" None;
   Store.Elapse 210000;
   Store.LeaveRoom "alice"].

(** Two sockets in one room. *)
Definition pair_in_room : Relay.t :=
  Relay.run
    [Relay.connection "a"; Relay.connection "b";
     Relay.create_room "a" "R" "room" None None;
     Relay.join_room "a" "R" "Alice" None;
     Relay.join_room "b" "R" "Bob" None]
    Relay.init.

(** Three users join one after the other. *)
Definition three_users : Store.t :=
  Store.run
    [Store.CreateRoom "R" "room" None None;
     Store.JoinRoom "R" "alice" "Alice" None;
     Store.Elapse 1000;
     Store.JoinRoom "R" "bob" "Bob" None;
     Store.Elapse 1000;
     Store.JoinRoom "R" "carol" "Carol" None]
    Store.init.



(** Playwright is installed and launches, but [page.goto] runs into its
    thirty-second limit. *)
Definition slow_failure : Engine.InitRun :=
  Engine.mkInitRun 0 Engine.setup_throws 30500 Engine.launch_throws 0.

Definition instant_failure : Engine.InitRun :=
  Engine.mkInitRun 0 Engine.launch_throws 50 Engine.launch_throws 0.

Definition no_capture : Engine.Capture := Engine.mkCapture None 0.

End Scenario.

(** ** Invariants of the store and of the relay *)

(** Every room of the store, looked up by its key, satisfies [P]. *)
Definition rooms_satisfy (P : string -> Room.t -> Prop) (m : RoomManager.t)
    : Prop :=
  forall k r, JsMap.get k (RoomManager.rooms m) = Some r -> P k r.

(** The users of a room are listed in the order of their [joinedAt], and
    none joined after [now]. *)
Definition join_times (us : JsMap.t User.t) : list Z :=
  User.joinedAt <$> JsMap.values us.

Definition joined_in_order (now : Z) (r : Room.t) : Prop :=
  StronglySorted Z.le (join_times (Room.users r))
  /\ Forall (fun t => t <= now) (join_times (Room.users r)).

(** An entry of the reverse index names an existing room that lists the
    user. *)
Definition index_sound (m : RoomManager.t) : Prop :=
  forall userId roomId,
    RoomManager.userToRoom m !! userId = Some roomId ->
    exists r, JsMap.get roomId (RoomManager.rooms m) = Some r
              /\ userId ∈ JsMap.keys (Room.users r).

(** The connected users of a room are in the channel named after its key. *)
Definition channel_covers (st : Relay.t) (k : string) (r : Room.t) : Prop :=
  forall u, u ∈ JsMap.keys (Room.users r) ->
            u ∈ Relay.connectedSockets st -> u ∈ Relay.channel k st.

(** The invariant of the relay: a room is stored under its own id, its
    connected users are in its channel, and the reverse index is sound. *)
Definition relay_inv (st : Relay.t) : Prop :=
  rooms_satisfy (fun k r => Room.id r = k) (Store.mgr (Relay.store st))
  /\ rooms_satisfy (channel_covers st) (Store.mgr (Relay.store st))
  /\ index_sound (Store.mgr (Relay.store st)).

(** [Relay.admissible], as a test. *)
Definition member_somewhereb (sock : string) (st : Relay.t) : bool :=
  existsb
    (fun e => bool_decide (sock ∈ JsMap.keys (Room.users (snd e))))
    (RoomManager.rooms (Store.mgr (Relay.store st))).

Definition admissibleb (msg : Relay.Msg) (st : Relay.t) : bool :=
  match msg with
  | Relay.connection sock =>
      negb (bool_decide (sock ∈ Relay.connectedSockets st))
      && negb (member_somewhereb sock st)
  | Relay.create_room sock uuid _ _ _ =>
      bool_decide (sock ∈ Relay.connectedSockets st)
      && negb (JsMap.has uuid (RoomManager.rooms (Store.mgr (Relay.store st))))
  | Relay.join_room sock _ _ _ | Relay.leave_room sock
  | Relay.control_msg sock _ | Relay.url_change sock _
  | Relay.disconnect sock => bool_decide (sock ∈ Relay.connectedSockets st)
  | Relay.heartbeat_tick | Relay.elapse _ => true
  end.

(** Every message of [msgs] is admissible in the state it arrives in. *)
Fixpoint admissible_run (msgs : list Relay.Msg) (st : Relay.t) : bool :=
  match msgs with
  | [] => true
  | msg :: msgs' =>
      admissibleb msg st && admissible_run msgs' (Relay.handle msg st)
  end.

(** ** Further predicates on the store *)

(** The users of a room are stored under their own ids, each id once. *)
Definition users_keyed (r : Room.t) : Prop :=
  NoDup (JsMap.keys (Room.users r))
  /\ Forall (fun e => User.id (snd e) = fst e) (Room.users r).

(** No user of the room is stale at [now], and the room is not both empty
    and stale: what a sweep at [now] leaves behind. *)
Definition swept (now : Z) (r : Room.t) : Prop :=
  Forall (fun u => RoomManager.stale now (User.lastActivity u) = false)
         (JsMap.values (Room.users r))
  /\ ~ (Room.users r = []
        /\ RoomManager.stale now (Room.lastActivity r) = true).

(** ** The signaling relay, WebRTC negotiation between clients *)

Module Signaling.

(** [SignalingMessage] of [types.ts]; [data] is opaque to the relay. *)
Record SignalingMessage := mkSignal {
  type : string;
  from : string;
  to : option string;
  data : string;
  timestamp : Z
}.

Inductive Kind := webrtc_offer | webrtc_answer | webrtc_ice_candidate.

(** One [targetSocket.emit(kind, message)]. *)
Record Delivery := mkDelivery {
  target : string;
  kind : Kind;
  message : SignalingMessage
}.

(** The body the three handlers share: look [message.to] up in
    [connectedSockets] and emit to the socket found there. *)
Definition to_target (k : Kind) (m : SignalingMessage) (st : Relay.t)
    : list Delivery :=
  match to m with
  | Some t =>
      if bool_decide (t ∈ Relay.connectedSockets st)
      then [mkDelivery t k m]
      else []
  | None => []
  end.

Definition handleWebRTCOffer (sock : string) (m : SignalingMessage)
    (st : Relay.t) : list Delivery :=
  to_target webrtc_offer m st.

Definition handleWebRTCAnswer (sock : string) (m : SignalingMessage)
    (st : Relay.t) : list Delivery :=
  to_target webrtc_answer m st.

Definition handleICECandidate (sock : string) (m : SignalingMessage)
    (st : Relay.t) : list Delivery :=
  to_target webrtc_ice_candidate m st.

(** The listener that [setupSocketHandlers] registers for each kind. *)
Definition on_signal (k : Kind) : string -> SignalingMessage -> Relay.t
                                  -> list Delivery :=
  match k with
  | webrtc_offer => handleWebRTCOffer
  | webrtc_answer => handleWebRTCAnswer
  | webrtc_ice_candidate => handleICECandidate
  end.

End Signaling.

(** ** The signaling relay, the [/browser-webrtc] namespace *)

Module Viewer.

(** What the relay emits on [browserSocket], its link to the engine. *)
Inductive ToEngine :=
| engine_offer (offer clientId : string)
| engine_ice_candidate (candidate clientId : string)
| engine_navigate (url : string)
| engine_refresh
| engine_back
| engine_forward
| engine_client_disconnected (clientId : string).

(** What the relay emits to a viewer's socket. *)
Inductive ToViewer :=
| viewer_answer (response : string)
| viewer_error (message : string).

(** [connected] is [this.browserSocket && this.browserSocket.connected];
    [waiting] lists, in the order of registration, the viewers whose
    [browserSocket.once('webrtc-answer', ...)] listener has not run yet;
    [to_engine] and [to_viewer] collect the emits, oldest first. *)
Record t := mk {
  connected : bool;
  waiting : list string;
  to_engine : list ToEngine;
  to_viewer : list (string * ToViewer)
}.

Definition forward (m : ToEngine) (st : t) : t :=
  mk (connected st) (waiting st) ((to_engine st ++ [m])%list) (to_viewer st).

Definition reply (viewer : string) (m : ToViewer) (st : t) : t :=
  mk (connected st) (waiting st) (to_engine st)
     ((to_viewer st ++ [(viewer, m)])%list).

Definition unavailable : ToViewer :=
  viewer_error "Browser service not available".

(** The listeners of a viewer's socket. *)
Definition on_webrtc_offer (viewer offer : string) (st : t) : t :=
  if negb (connected st) then reply viewer unavailable st
  else
    let st1 := forward (engine_offer offer viewer) st in
    mk (connected st1) ((waiting st1 ++ [viewer])%list) (to_engine st1)
       (to_viewer st1).

Definition on_ice_candidate (viewer candidate : string) (st : t) : t :=
  if connected st then forward (engine_ice_candidate candidate viewer) st
  else st.

Definition on_navigate (viewer url : string) (st : t) : t :=
  if connected st then forward (engine_navigate url) st
  else reply viewer unavailable st.

Definition on_refresh (viewer : string) (st : t) : t :=
  if connected st then forward engine_refresh st else st.

Definition on_back (viewer : string) (st : t) : t :=
  if connected st then forward engine_back st else st.

Definition on_forward (viewer : string) (st : t) : t :=
  if connected st then forward engine_forward st else st.

Definition on_disconnect (viewer : string) (st : t) : t :=
  if connected st then forward (engine_client_disconnected viewer) st
  else st.

(** ['webrtc-answer'] arrives on [browserSocket]: every [once] listener
    registered so far runs, in order, and is removed. *)
Definition on_engine_answer (response : string) (st : t) : t :=
  mk (connected st) [] (to_engine st)
     ((to_viewer st
       ++ map (fun viewer => (viewer, viewer_answer response)) (waiting st)
      )%list).

(** What a viewer can send. *)
Inductive Request :=
| webrtc_offer (offer : string)
| webrtc_ice_candidate (candidate : string)
| navigate (url : string)
| refresh
| back
| forward_
| disconnect.

Definition on_request (viewer : string) (r : Request) (st : t) : t :=
  match r with
  | webrtc_offer offer => on_webrtc_offer viewer offer st
  | webrtc_ice_candidate candidate => on_ice_candidate viewer candidate st
  | navigate url => on_navigate viewer url st
  | refresh => on_refresh viewer st
  | back => on_back viewer st
  | forward_ => on_forward viewer st
  | disconnect => on_disconnect viewer st
  end.

(** Whether the handler of a request reports a missing link. *)
Definition reports_unavailable (r : Request) : bool :=
  match r with
  | webrtc_offer _ | navigate _ => true
  | _ => false
  end.

(** A sequence of offers, each by a viewer. *)
Definition offers (os : list (string * string)) (st : t) : t :=
  fold_left (fun st o => on_webrtc_offer (fst o) (snd o) st) os st.

End Viewer.

(** ** The engine, reading the title of a fetched document *)

Module Title.

(** Strings are sequences of UTF-8 bytes.  The delimiters of the pattern
    are ASCII, so what it captures is the same text whether the document
    is read by byte or by UTF-16 code unit. *)

(** The [i] flag: without the [u] flag a character outside ASCII never
    folds to an ASCII one, so only [A]-[Z] and [a]-[z] are identified. *)
Definition fold_case (c : ascii) : ascii :=
  let n := N_of_ascii c in
  if ((65 <=? n) && (n <=? 90))%N then ascii_of_N (n + 32) else c.

Definition ci_eqb (a b : ascii) : bool :=
  Ascii.eqb (fold_case a) (fold_case b).

(** [s] without its prefix [p], compared without regard to case. *)
Fixpoint strip_prefix_ci (p s : string) : option string :=
  match p with
  | EmptyString => Some s
  | String a p' =>
      match s with
      | String b s' => if ci_eqb a b then strip_prefix_ci p' s' else None
      | EmptyString => None
      end
  end.

(** The longest prefix of [s] without the character [stop], and the rest:
    what a greedy [[^stop]*] consumes. *)
Fixpoint span (stop : ascii) (s : string) : string * string :=
  match s with
  | EmptyString => (EmptyString, EmptyString)
  | String c s' =>
      if Ascii.eqb c stop then (EmptyString, s)
      else let r := span stop s' in (String c (fst r), snd r)
  end.

(** [/<title[^>]*>([^<]+)<\/title>/i] anchored at the start of [s]: the
    captured group.  Backtracking finds nothing more, since a shorter run
    of either class is followed by a character of the class and not by the
    delimiter. *)
Definition match_here (s : string) : option string :=
  match strip_prefix_ci "<title" s with
  | None => None
  | Some rest1 =>
      match snd (span ">" rest1) with
      | EmptyString => None
      | String _ rest3 =>
          let text := fst (span "<" rest3) in
          match text with
          | EmptyString => None
          | String _ _ =>
              match strip_prefix_ci "</title>" (snd (span "<" rest3)) with
              | Some _ => Some text
              | None => None
              end
          end
      end
  end.

(** [html.match(...)]: the leftmost match; [titleMatch[1]]. *)
Fixpoint title_match (html : string) : option string :=
  match match_here html with
  | Some text => Some text
  | None =>
      match html with
      | EmptyString => None
      | String _ rest => title_match rest
      end
  end.

(** The white space and line terminators that [trim] removes, in UTF-8:
    one byte (U+0009 to U+000D, U+0020), two (U+00A0) or three (U+1680,
    U+2000 to U+200A, U+2028, U+2029, U+202F, U+205F, U+3000, U+FEFF). *)
Definition space1 (a : ascii) : bool :=
  let n := N_of_ascii a in
  (((9 <=? n) && (n <=? 13)) || (n =? 32))%N.

Definition space2 (a b : ascii) : bool :=
  ((N_of_ascii a =? 194) && (N_of_ascii b =? 160))%N.

Definition space3 (a b c : ascii) : bool :=
  let x := N_of_ascii a in
  let y := N_of_ascii b in
  let z := N_of_ascii c in
  (((x =? 225) && (y =? 154) && (z =? 128))
   || ((x =? 226) && (y =? 128)
       && (((128 <=? z) && (z <=? 138)) || (z =? 168) || (z =? 169)
           || (z =? 175)))
   || ((x =? 226) && (y =? 129) && (z =? 159))
   || ((x =? 227) && (y =? 128) && (z =? 128))
   || ((x =? 239) && (y =? 187) && (z =? 191)))%N.

(** Drop the white space at the front; with [backwards] the bytes of each
    character come last byte first. *)
Fixpoint strip (backwards : bool) (s : list ascii) : list ascii :=
  match s with
  | [] => []
  | a :: s1 =>
      if space1 a then strip backwards s1
      else
        match s1 with
        | [] => s
        | b :: s2 =>
            if (if backwards then space2 b a else space2 a b)
            then strip backwards s2
            else
              match s2 with
              | [] => s
              | c :: s3 =>
                  if (if backwards then space3 c b a else space3 a b c)
                  then strip backwards s3
                  else s
              end
        end
  end.

(** [s] is [p] up to the case of its letters. *)
Definition ci_equal (p s : string) : Prop := strip_prefix_ci p s = Some "".

(** The character [c] occurs in [s]. *)
Definition occurs (c : ascii) (s : string) : Prop :=
  In c (String.list_ascii_of_string s).

(** [String.prototype.trim]. *)
Definition trim (s : string) : string :=
  String.string_of_list_ascii
    (rev (strip true (rev (strip false (String.list_ascii_of_string s))))).

(** [titleMatch ? titleMatch[1].trim() : 'Web Page']. *)
Definition extract_title (html : string) : string :=
  match title_match html with
  | Some text => trim text
  | None => "Web Page"
  end.

(** [text.includes(needle)] for an ASCII [needle]. *)
Fixpoint contains (text needle : string) : bool :=
  String.prefix needle text
  || match text with
     | EmptyString => false
     | String _ rest => contains rest needle
     end.

(** The title made up from the address when nothing could be fetched. *)
Definition mock_title (url : string) : string :=
  if contains url "google" then "Google"
  else if contains url "youtube" then "YouTube"
  else "Web Page".

(** [p] occurs in [text], compared without regard to case. *)
Fixpoint contains_ci (text p : string) : bool :=
  match strip_prefix_ci p text with
  | Some _ => true
  | None =>
      match text with
      | EmptyString => false
      | String _ rest => contains_ci rest p
      end
  end.

End Title.

(** ** The engine, [POST /navigate] and the ['navigate'] listener *)

Module Navigate.

Inductive Response :=
| success (url title : string)
| failure (status : Z) (error : string).

(** What [axios.get] resolves with: a text body, or a body that is not a
    string (on which [.match] is not a function), unless it rejects. *)
Inductive Fetch :=
| fetch_fails
| fetch_text (html : string)
| fetch_other.

(** What the page and the network do during one request, and how long
    each awaited step takes (milliseconds); [None] for a call that
    throws.  [reinit] is what the drivers do if the browser is
    initialized again. *)
Record Run := mkRun {
  goto_ok : bool;
  goto_ms : Z;
  page_url : option string;
  page_title : option string;
  title_ms : Z;
  fetch : Fetch;
  fetch_ms : Z;
  reinit : Engine.InitRun
}.

(** The route's own [setTimeout(..., 35000)]. *)
Definition WATCHDOG : Z := 35000.

(** What the caller receives when the handler calls [res.json(r)] after
    [elapsed] milliseconds: the watchdog has answered 504 if it ran first,
    and every later [res.json] of the handler throws, up to the outermost
    [catch], which finds [res.headersSent]. *)
Definition answer (elapsed : Z) (r : Response) : Response :=
  if WATCHDOG <=? elapsed then failure 504 "Navigation timeout" else r.

(** An awaited step that is cut off at [limit]. *)
Definition race (limit : Z) (ok : bool) (ms : Z) : bool * Z :=
  if ms <? limit then (ok, ms) else (false, limit).

Definition with_url (url : string) (st : Engine.t) : Engine.t :=
  Engine.mk (Engine.browser st) (Engine.page st) (Engine.browserType st) url
    (Engine.isInitialized st) (Engine.streamingClients st)
    (Engine.streamingInterval st) (Engine.intervals st)
    (Engine.next_handle st) (Engine.sockets st) (Engine.frames st).

Definition usable (st : Engine.t) : bool :=
  Engine.page st && Engine.isInitialized st.

Definition is_http (b : Engine.BrowserType) : bool :=
  match b with Engine.http => true | _ => false end.

(** The first branch after a successful [goto], from [start] on. *)
Definition page_info (url : string) (run : Run) (start : Z) (st : Engine.t)
    : Response * Engine.t :=
  match page_url run with
  | None => (answer start (success url "Page Loaded"), st)
  | Some u =>
      let st1 := with_url u st in
      let finish := start + title_ms run in
      match page_title run with
      | Some title => (answer finish (success u title), st1)
      | None => (answer finish (success url "Page Loaded"), st1)
      end
  end.

(** The outermost [catch], reached with the headers unsent. *)
Definition recover (url : string) (mods : Engine.Modules) (run : Run)
    (st : Engine.t) : Response * Engine.t :=
  let st0 :=
    Engine.with_driver (Engine.browser st) (Engine.page st)
      (Engine.browserType st) false st in
  let st1 := fst (Engine.initializeBrowser mods (reinit run) st0) in
  if usable st1 then (success url "Page Loaded (Recovered)", st1)
  else (failure 500 "Browser unavailable", st1).

Definition with_page (url : string) (mods : Engine.Modules) (run : Run)
    (st : Engine.t) : Response * Engine.t :=
  let g := race 30000 (goto_ok run) (goto_ms run) in
  if fst g then page_info url run (snd g + 1000) st
  else recover url mods run st.

(** [axios.get(url, { timeout: 15000 })]. *)
Definition fetched (run : Run) : Fetch * Z :=
  if fetch_ms run <? 15000 then (fetch run, fetch_ms run)
  else (fetch_fails, 15000).

(** The second branch. *)
Definition via_http (url : string) (run : Run) (st : Engine.t)
    : Response * Engine.t :=
  match fst (fetched run) with
  | fetch_text html => (success url (Title.extract_title html), with_url url st)
  | _ => (success url (Title.mock_title url), with_url url st)
  end.

(** [catch (initError)] of the third branch, entered at [elapsed]. *)
Definition fallback (url : string) (elapsed : Z) (st : Engine.t)
    : Response * Engine.t :=
  (answer elapsed (success url (Title.mock_title url)), with_url url st).

(** A [res.json(r)] inside the [try] of the third branch: when it throws,
    the [catch] runs. *)
Definition send_or_fallback (url : string) (elapsed : Z) (r : Response)
    (st : Engine.t) : Response * Engine.t :=
  if elapsed <? WATCHDOG then (r, st) else fallback url elapsed st.

(** The third branch. *)
Definition after_reinit (url : string) (mods : Engine.Modules) (run : Run)
    (st : Engine.t) : Response * Engine.t :=
  let r := Engine.initializeBrowser mods (reinit run) st in
  let st1 := fst r in
  let t0 := snd r in
  if usable st1 then
    let g := race 20000 (goto_ok run) (goto_ms run) in
    if fst g then
      match page_url run with
      | None => fallback url (t0 + snd g) st1
      | Some u =>
          let finish := t0 + snd g + title_ms run in
          match page_title run with
          | Some title =>
              send_or_fallback url finish (success u title) (with_url u st1)
          | None => fallback url finish (with_url u st1)
          end
      end
    else fallback url (t0 + snd g) st1
  else if is_http (Engine.browserType st1) && Engine.has_axios mods then
    let f := fetched run in
    match fst f with
    | fetch_text html =>
        send_or_fallback url (t0 + snd f)
          (success url (Title.extract_title html)) (with_url url st1)
    | fetch_other => fallback url (t0 + snd f) (with_url url st1)
    | fetch_fails => fallback url (t0 + snd f) st1
    end
  else fallback url t0 st1.

(** [POST /navigate]; [url] is [None] when the body has no string there. *)
Definition navigate_route (url : option string) (mods : Engine.Modules)
    (run : Run) (st : Engine.t) : Response * Engine.t :=
  match url with
  | None => (failure 400 "URL is required", st)
  | Some url =>
      if String.eqb url "" then (failure 400 "URL is required", st)
      else if usable st then with_page url mods run st
      else if is_http (Engine.browserType st) && Engine.has_axios mods
      then via_http url run st
      else after_reinit url mods run st
  end.

(** The ['navigate'] listener of the engine's socket. *)
Definition on_navigate (url : string) (run : Run) (st : Engine.t)
    : Engine.t :=
  if usable st then
    if fst (race 30000 (goto_ok run) (goto_ms run)) then
      match page_url run with
      | Some u => with_url u st
      | None => st
      end
    else st
  else st.

End Navigate.

(** * Properties *)

(** ** Facts about insertion-ordered maps *)

Section JsMapFacts.
Context {V : Type}.
Implicit Types (m : JsMap.t V) (k : string) (v : V).

Lemma get_set_eq k v m : JsMap.get k (JsMap.set k v m) = Some v.
Proof.
  induction m as [|[k' v'] m IH]; simpl.
  - by rewrite String.eqb_refl.
  - destruct (String.eqb k k') eqn:E; simpl; rewrite ?String.eqb_refl, ?E; auto.
Qed.

Lemma get_set_ne k k' v m :
  k <> k' -> JsMap.get k' (JsMap.set k v m) = JsMap.get k' m.
Proof.
  intros Hne. induction m as [|[k0 v0] m IH]; simpl.
  - destruct (String.eqb_spec k' k); congruence.
  - destruct (String.eqb_spec k k0) as [->|Hk]; simpl.
    + destruct (String.eqb_spec k' k0); congruence.
    + destruct (String.eqb_spec k' k0); auto.
Qed.

Lemma get_delete_eq k m : JsMap.get k (JsMap.delete k m) = None.
Proof.
  induction m as [|[k' v'] m IH]; simpl; auto.
  destruct (String.eqb k k') eqn:E; simpl; rewrite ?E; auto.
Qed.

Lemma get_delete_ne k k' m :
  k <> k' -> JsMap.get k' (JsMap.delete k m) = JsMap.get k' m.
Proof.
  intros Hne. induction m as [|[k0 v0] m IH]; simpl; auto.
  destruct (String.eqb_spec k k0) as [->|Hk]; simpl.
  - destruct (String.eqb_spec k' k0); congruence.
  - destruct (String.eqb_spec k' k0); auto.
Qed.

Lemma delete_sublist k m : JsMap.delete k m `sublist_of` m.
Proof.
  induction m as [|[k' v'] m IH]; simpl; [constructor|].
  destruct (String.eqb k k'); by constructor.
Qed.

Lemma get_Some_elem k v m : JsMap.get k m = Some v -> (k, v) ∈ m.
Proof.
  induction m as [|[k' v'] m IH]; simpl; [done|].
  destruct (String.eqb_spec k k') as [->|Hk]; intros H.
  - injection H as ->. left.
  - right. auto.
Qed.

Lemma get_Some_key k v m : JsMap.get k m = Some v -> k ∈ JsMap.keys m.
Proof.
  intros H. apply get_Some_elem in H.
  unfold JsMap.keys. apply list_elem_of_fmap. by exists (k, v).
Qed.

Lemma key_get_Some k m : k ∈ JsMap.keys m -> exists v, JsMap.get k m = Some v.
Proof.
  induction m as [|[k' v'] m IH]; simpl.
  - intros H. by apply elem_of_nil in H.
  - intros H. destruct (String.eqb_spec k k') as [->|Hk]; [eauto|].
    apply elem_of_cons in H as [H|H]; [done|auto].
Qed.

Lemma get_None_key k m : JsMap.get k m = None <-> k ∉ JsMap.keys m.
Proof.
  split.
  - intros H Hk. apply key_get_Some in Hk as [v Hv]. congruence.
  - intros H. destruct (JsMap.get k m) eqn:E; [|done].
    apply get_Some_key in E. done.
Qed.

(** On an absent key, [set] appends. *)
Lemma set_absent k v m :
  JsMap.get k m = None -> JsMap.set k v m = (m ++ [(k, v)])%list.
Proof.
  induction m as [|[k' v'] m IH]; simpl; [done|].
  destruct (String.eqb k k'); [done|]. intros H. by rewrite IH.
Qed.

(** On a present key, [set] keeps the keys as they are. *)
Lemma keys_set_present k v v0 m :
  JsMap.get k m = Some v0 -> JsMap.keys (JsMap.set k v m) = JsMap.keys m.
Proof.
  induction m as [|[k' v'] m IH]; simpl; [done|].
  destruct (String.eqb_spec k k') as [->|Hk]; simpl; [done|].
  intros H. f_equal. auto.
Qed.

Lemma keys_delete k k' m :
  k' ∈ JsMap.keys (JsMap.delete k m) <-> k' <> k /\ k' ∈ JsMap.keys m.
Proof.
  induction m as [|[k0 v0] m IH]; simpl.
  - split; [intros H; by apply elem_of_nil in H|intros [_ H]; done].
  - destruct (String.eqb_spec k k0) as [->|Hk]; simpl.
    + rewrite IH, elem_of_cons. intuition congruence.
    + rewrite !elem_of_cons, IH. intuition congruence.
Qed.

Lemma sublist_keys (m1 m2 : JsMap.t V) k :
  m1 `sublist_of` m2 -> k ∈ JsMap.keys m1 -> k ∈ JsMap.keys m2.
Proof.
  intros Hs. unfold JsMap.keys.
  intros H. eapply elem_of_sublist; [exact H|]. by apply fmap_sublist.
Qed.

Lemma size_nonneg m : 0 <= JsMap.size m.
Proof. unfold JsMap.size. lia. Qed.

Lemma size_zero m : JsMap.size m = 0 <-> m = [].
Proof.
  unfold JsMap.size. destruct m; simpl; split; intros; try done; lia.
Qed.

Lemma has_true k m : JsMap.has k m = true <-> k ∈ JsMap.keys m.
Proof.
  unfold JsMap.has. split.
  - destruct (JsMap.get k m) eqn:E; [|done]. intros _. by eapply get_Some_key.
  - intros H. apply key_get_Some in H as [v ->]. done.
Qed.

Lemma has_false k m : JsMap.has k m = false <-> JsMap.get k m = None.
Proof. unfold JsMap.has. destruct (JsMap.get k m); intuition congruence. Qed.
End JsMapFacts.

(** ** Validation in [joinRoom] *)

(** C3. [joinRoom] rejects a call with the error of the first check that
    fails, the checks being taken in the order existence, password (only
    for a room that has one), capacity, duplicate membership; a rejected
    call returns the store as it was: rooms, users, time stamps, reverse
    index and pending timers.  When no check fails the call succeeds. *)
Theorem joinRoom_first_failing_check
    (roomId userId userName : string) (password : option string)
    (s : Store.t) :
  match JoinSpec.first_failing_check (Store.getRoom roomId s) userId password
  with
  | Some e =>
      Store.joinRoom roomId userId userName password s
      = (RoomManager.join_error (JoinSpec.error_text e), s)
  | None =>
      RoomManager.success
        (fst (Store.joinRoom roomId userId userName password s)) = true
  end.
Proof.
  destruct s as [m c ts].
  unfold JoinSpec.first_failing_check, Store.getRoom, RoomManager.getRoom,
    Store.joinRoom, RoomManager.joinRoom, JoinSpec.has_password; simpl.
  destruct (JsMap.get roomId (RoomManager.rooms m)) as [room|]; simpl; [|done].
  unfold JoinSpec.has_password.
  destruct (truthy (Room.password room)
            && strict_neq (Room.password room) password); simpl; [done|].
  destruct (Room.maxUsers room <=? JsMap.size (Room.users room)); simpl;
    [done|].
  destruct (JsMap.has userId (Room.users room)); simpl; done.
Qed.

(** ** [leaveRoom] of an unknown user *)

(** C10. [leaveRoom(userId)] for a user without an entry in the reverse
    index, or whose entry names a room that no longer exists, returns
    [false] and leaves the whole store as it was. *)
Theorem leaveRoom_unknown_user (userId : string) (s : Store.t) :
  (RoomManager.userToRoom (Store.mgr s) !! userId = None
   \/ exists roomId,
        RoomManager.userToRoom (Store.mgr s) !! userId = Some roomId
        /\ Store.getRoom roomId s = None) ->
  Store.leaveRoom userId s = (false, s).
Proof.
  destruct s as [m c ts].
  unfold Store.leaveRoom, RoomManager.leaveRoom, Store.getRoom,
    RoomManager.getRoom; simpl.
  intros [H|(roomId & H & Hroom)]; rewrite H; [done|].
  destruct (String.eqb roomId ""); [done|]. by rewrite Hroom.
Qed.

Lemma leaveRoom_unknown_user_witness :
  (RoomManager.userToRoom (Store.mgr Store.init) !! "nobody" = None
   \/ exists roomId,
        RoomManager.userToRoom (Store.mgr Store.init) !! "nobody"
        = Some roomId
        /\ Store.getRoom roomId Store.init = None)
  /\ Store.leaveRoom "nobody" Store.init = (false, Store.init).
Proof.
  assert (H : RoomManager.userToRoom (Store.mgr Store.init) !! "nobody"
              = None) by reflexivity.
  split; [by left|].
  apply (leaveRoom_unknown_user "nobody" Store.init). by left.
Defined.

(** ** Room properties that every store operation preserves *)

Lemma sweep_users_sublist now (us : JsMap.t User.t) index :
  fst (RoomManager.sweep_users now us index) `sublist_of` us.
Proof.
  unfold RoomManager.sweep_users.
  generalize us at 1 as l. intros l.
  change us with (fst (us, index)) at 2.
  generalize (us, index) as acc.
  induction l as [|e l IH]; intros acc; simpl; [done|].
  etrans; [apply IH|].
  destruct (RoomManager.stale now (User.lastActivity e.2)); simpl; [|done].
  apply delete_sublist.
Qed.

Section Hereditary.
Variable P : Z -> string -> Room.t -> Prop.

Hypothesis P_mono : forall c c' k r, c <= c' -> P c k r -> P c' k r.
Hypothesis P_shrink : forall c k r us,
  P c k r -> us `sublist_of` Room.users r -> P c k (Room.with_users us r).
Hypothesis P_promote : forall c k r,
  P c k r ->
  P c k (Room.with_users (RoomManager.promote_first (Room.users r)) r).
Hypothesis P_url : forall c k r url,
  P c k r -> P c k (Room.with_currentUrl url r).
Hypothesis P_activity : forall c k r t,
  P c k r -> P c k (Room.with_lastActivity t r).
Hypothesis P_touch : forall c k r uid u t,
  P c k r -> JsMap.get uid (Room.users r) = Some u ->
  P c k (Room.with_users
           (JsMap.set uid (User.with_lastActivity t u) (Room.users r)) r).
Hypothesis P_create : forall c uuid name password maxUsers,
  P c uuid
    (Room.mk uuid name password JsMap.empty RoomManager.DEFAULT_URL c c
             maxUsers).
Hypothesis P_join : forall c k r uid uname,
  P c k r ->
  JsMap.size (Room.users r) < Room.maxUsers r ->
  JsMap.get uid (Room.users r) = None ->
  P c k
    (Room.with_lastActivity c
       (Room.with_users
          (Room.users r
           ++ [(uid, User.mk uid uname (JsMap.size (Room.users r) =? 0)
                             c c)])%list
          r)).

Lemma satisfy_set c k r rooms index index' :
  rooms_satisfy (P c) (RoomManager.mk rooms index) -> P c k r ->
  rooms_satisfy (P c) (RoomManager.mk (JsMap.set k r rooms) index').
Proof.
  intros Hm Hr k' r'. simpl.
  destruct (decide (k = k')) as [<-|Hne].
  - rewrite get_set_eq. by intros [= <-].
  - rewrite get_set_ne by done. apply Hm.
Qed.

Lemma satisfy_delete c k rooms index index' :
  rooms_satisfy (P c) (RoomManager.mk rooms index) ->
  rooms_satisfy (P c) (RoomManager.mk (JsMap.delete k rooms) index').
Proof.
  intros Hm k' r'. simpl.
  destruct (decide (k = k')) as [<-|Hne].
  - by rewrite get_delete_eq.
  - rewrite get_delete_ne by done. apply Hm.
Qed.

Lemma satisfy_index c rooms index index' :
  rooms_satisfy (P c) (RoomManager.mk rooms index) ->
  rooms_satisfy (P c) (RoomManager.mk rooms index').
Proof. intros Hm k r. apply Hm. Qed.

Lemma update_host_satisfy c k r us :
  P c k r -> us `sublist_of` Room.users r ->
  P c k (Room.with_users (RoomManager.update_host us) r).
Proof.
  intros Hr Hs. unfold RoomManager.update_host.
  destruct (_ && _); [|by apply P_shrink].
  apply (P_promote c k (Room.with_users us r)). by apply P_shrink.
Qed.

Lemma leaveRoom_satisfy c userId m :
  rooms_satisfy (P c) m ->
  rooms_satisfy (P c) (snd (fst (RoomManager.leaveRoom userId m))).
Proof.
  intros Hm. destruct m as [rooms index].
  unfold RoomManager.leaveRoom; simpl.
  destruct (index !! userId) as [roomId|]; [|done].
  destruct (String.eqb roomId ""); [done|].
  destruct (JsMap.get roomId rooms) as [room|] eqn:Hroom; [|done].
  destruct (_ =? 0); simpl.
  - eapply satisfy_set; [done|].
    apply P_shrink; [by apply (Hm roomId)|apply delete_sublist].
  - eapply satisfy_set; [done|].
    apply update_host_satisfy; [by apply (Hm roomId)|apply delete_sublist].
Qed.

Lemma delete_if_empty_satisfy c roomId m :
  rooms_satisfy (P c) m ->
  rooms_satisfy (P c) (RoomManager.delete_if_empty roomId m).
Proof.
  intros Hm. destruct m as [rooms index].
  unfold RoomManager.delete_if_empty; simpl.
  destruct (JsMap.get roomId rooms); [|done].
  destruct (_ =? 0); [|done]. by eapply satisfy_delete.
Qed.

Lemma updateRoomUrl_satisfy c now roomId url m :
  rooms_satisfy (P c) m ->
  rooms_satisfy (P c) (snd (RoomManager.updateRoomUrl now roomId url m)).
Proof.
  intros Hm. destruct m as [rooms index].
  unfold RoomManager.updateRoomUrl; simpl.
  destruct (JsMap.get roomId rooms) as [room|] eqn:Hroom; [|done]. simpl.
  eapply satisfy_set; [done|].
  apply P_activity, P_url. by apply (Hm roomId).
Qed.

Lemma updateUserActivity_satisfy c now userId m :
  rooms_satisfy (P c) m ->
  rooms_satisfy (P c) (RoomManager.updateUserActivity now userId m).
Proof.
  intros Hm. destruct m as [rooms index].
  unfold RoomManager.updateUserActivity; simpl.
  destruct (index !! userId) as [roomId|]; [|done].
  destruct (String.eqb roomId ""); [done|].
  destruct (JsMap.get roomId rooms) as [room|] eqn:Hroom; [|done].
  eapply satisfy_set; [done|].
  apply P_activity.
  destruct (JsMap.get userId (Room.users room)) as [user|] eqn:Huser.
  - apply P_touch; [by apply (Hm roomId)|done].
  - apply P_shrink; [by apply (Hm roomId)|done].
Qed.

Lemma sweep_room_satisfy c now m entry :
  rooms_satisfy (P c) m ->
  rooms_satisfy (P c) (RoomManager.sweep_room now m entry).
Proof.
  intros Hm. destruct m as [rooms index].
  unfold RoomManager.sweep_room; simpl.
  destruct (JsMap.get entry.1 rooms) as [room|] eqn:Hroom; [|done].
  destruct (_ && _).
  - by eapply satisfy_delete.
  - eapply satisfy_set; [done|].
    apply P_shrink; [by apply (Hm entry.1)|apply sweep_users_sublist].
Qed.

Lemma cleanup_satisfy c now m :
  rooms_satisfy (P c) m -> rooms_satisfy (P c) (RoomManager.cleanup now m).
Proof.
  unfold RoomManager.cleanup. generalize (RoomManager.rooms m) as l.
  intros l. revert m.
  induction l as [|e l IH]; intros m Hm; simpl; [done|].
  apply IH. by apply sweep_room_satisfy.
Qed.

Lemma createRoom_satisfy c uuid name password maxUsers m :
  rooms_satisfy (P c) m ->
  rooms_satisfy (P c)
    (snd (RoomManager.createRoom uuid c name password maxUsers m)).
Proof.
  intros Hm. destruct m as [rooms index]. simpl.
  eapply satisfy_set; [done|]. apply P_create.
Qed.

Lemma joinRoom_satisfy c roomId userId userName password m :
  rooms_satisfy (P c) m ->
  rooms_satisfy (P c)
    (snd (RoomManager.joinRoom c roomId userId userName password m)).
Proof.
  intros Hm. destruct m as [rooms index].
  unfold RoomManager.joinRoom; simpl.
  destruct (JsMap.get roomId rooms) as [room|] eqn:Hroom; [|done].
  destruct (_ && _); [done|].
  destruct (Z.leb_spec (Room.maxUsers room) (JsMap.size (Room.users room)));
    [done|].
  destruct (JsMap.has userId (Room.users room)) eqn:Hhas; [done|].
  apply has_false in Hhas. simpl.
  eapply satisfy_set; [done|].
  rewrite (set_absent _ _ _ Hhas).
  apply P_join; [by apply (Hm roomId)|done|done].
Qed.

Lemma elapse_satisfy ms s :
  rooms_satisfy (P (Store.clock s)) (Store.mgr s) ->
  rooms_satisfy (P (Store.clock (Store.elapse ms s)))
                (Store.mgr (Store.elapse ms s)).
Proof.
  intros Hm. unfold Store.elapse; simpl.
  assert (H0 : rooms_satisfy (P (Store.clock s + Z.max 0 ms)) (Store.mgr s)).
  { intros k r Hr. eapply P_mono; [|by apply Hm]. lia. }
  revert H0. generalize (Store.mgr s) as m.
  generalize (List.filter (Store.due (Store.clock s + Z.max 0 ms))
                          (Store.timers s)) as fired.
  induction fired as [|tm fired IH]; intros m Hm'; simpl; [done|].
  apply IH. by apply delete_if_empty_satisfy.
Qed.

Lemma call_satisfy c s :
  rooms_satisfy (P (Store.clock s)) (Store.mgr s) ->
  rooms_satisfy (P (Store.clock (Store.call c s)))
                (Store.mgr (Store.call c s)).
Proof.
  intros Hm. destruct c; simpl.
  - by apply createRoom_satisfy.
  - by apply joinRoom_satisfy.
  - unfold Store.leaveRoom.
    pose proof (leaveRoom_satisfy (Store.clock s) userId _ Hm) as H.
    destruct (RoomManager.leaveRoom userId (Store.mgr s)) as [[ok m] [t|]];
      exact H.
  - by apply updateRoomUrl_satisfy.
  - by apply updateUserActivity_satisfy.
  - by apply cleanup_satisfy.
  - by apply elapse_satisfy.
Qed.

Lemma run_satisfy cs s :
  rooms_satisfy (P (Store.clock s)) (Store.mgr s) ->
  rooms_satisfy (P (Store.clock (Store.run cs s)))
                (Store.mgr (Store.run cs s)).
Proof.
  revert s. induction cs as [|c cs IH]; intros s Hm; simpl; [done|].
  apply IH. by apply call_satisfy.
Qed.

Lemma reachable_satisfy s :
  Store.reachable s -> rooms_satisfy (P (Store.clock s)) (Store.mgr s).
Proof.
  intros [cs ->]. apply run_satisfy. intros k r H. done.
Qed.
End Hereditary.

(** ** Capacity *)

Lemma length_set_present {V} k (v v0 : V) m :
  JsMap.get k m = Some v0 -> length (JsMap.set k v m) = length m.
Proof.
  revert v0. induction m as [|[k' v'] m IH]; simpl; [done|].
  intros v0. destruct (String.eqb k k'); simpl; [done|].
  intros H. f_equal. eauto.
Qed.

Lemma length_promote_first us :
  length (RoomManager.promote_first us) = length us.
Proof. by destruct us as [|[k u] us]. Qed.

(** Rooms of non-negative capacity never exceed it. *)
Lemma reachable_within_capacity s :
  Store.reachable s ->
  rooms_satisfy (fun _ r => 0 <= Room.maxUsers r -> within_capacity r)
                (Store.mgr s).
Proof.
  apply (reachable_satisfy
           (fun _ _ r => 0 <= Room.maxUsers r -> within_capacity r));
    unfold within_capacity, JsMap.size; simpl; try done.
  - intros c k r us Hr Hs Hmax. apply sublist_length in Hs.
    specialize (Hr Hmax). lia.
  - intros c k r Hr Hmax. rewrite length_promote_first. auto.
  - intros c k r uid u t Hr Hu Hmax.
    rewrite (length_set_present _ _ _ _ Hu). auto.
  - intros c k r uid uname _ Hlt _ _. rewrite length_app. simpl. lia.
Qed.

(** A room that has reached its capacity turns every call away, with the
    error of the password check or of the capacity check. *)
Lemma joinRoom_on_full_room roomId userId userName password s room :
  Store.getRoom roomId s = Some room ->
  Room.maxUsers room <= JsMap.size (Room.users room) ->
  Store.joinRoom roomId userId userName password s
  = (RoomManager.join_error
       (if truthy (Room.password room)
           && strict_neq (Room.password room) password
        then "Invalid password" else "Room is full"),
     s).
Proof.
  destruct s as [m c ts].
  unfold Store.getRoom, RoomManager.getRoom, Store.joinRoom,
    RoomManager.joinRoom. simpl.
  intros -> Hfull%Z.leb_le.
  destruct (truthy (Room.password room)
            && strict_neq (Room.password room) password); [done|].
  by rewrite Hfull.
Qed.

(** C4, as the store has it.  In every reachable state a room whose
    [maxUsers] is not negative has at most [maxUsers] users; and
    [joinRoom] on a room that has reached [maxUsers] fails and leaves the
    store as it was, the error being "Room is full" whenever the password
    check, which comes first, lets the call through. *)
Theorem capacity_respected (s : Store.t) (roomId : string) (room : Room.t) :
  Store.reachable s ->
  Store.getRoom roomId s = Some room ->
  (0 <= Room.maxUsers room -> within_capacity room)
  /\ (Room.maxUsers room <= JsMap.size (Room.users room) ->
      forall userId userName password,
        let result := Store.joinRoom roomId userId userName password s in
        snd result = s
        /\ RoomManager.success (fst result) = false
        /\ (JoinSpec.check_fails (Some room) userId password
              JoinSpec.InvalidPassword = false ->
            RoomManager.error (fst result)
            = Some (JoinSpec.error_text JoinSpec.Full))).
Proof.
  intros Hreach Hroom. split.
  - by apply (reachable_within_capacity s Hreach roomId).
  - intros Hfull userId userName password.
    rewrite (joinRoom_on_full_room roomId userId userName password s room
               Hroom Hfull).
    cbn [fst snd]. split; [done|].
    unfold JoinSpec.check_fails, JoinSpec.has_password.
    destruct (truthy (Room.password room)
              && strict_neq (Room.password room) password); [by split|].
    by split.
Qed.

Lemma capacity_respected_witness :
  exists room,
    Store.getRoom "R" Scenario.full_locked_room = Some room
    /\ within_capacity room
    /\ RoomManager.error
         (fst (Store.joinRoom "R" "bob" "Bob" (Some "secret")
                 Scenario.full_locked_room))
       = Some "Room is full".
Proof.
  eexists. split; [reflexivity|].
  destruct (capacity_respected Scenario.full_locked_room "R" _
              (ex_intro _ _ eq_refl) eq_refl) as [Hcap Hfull].
  split.
  - apply Hcap. simpl. lia.
  - apply (Hfull ltac:(vm_compute; discriminate) "bob" "Bob" (Some "secret")).
    reflexivity.
Defined.

(** C4 as stated fails in two ways: [createRoom] accepts a negative
    [maxUsers], and the room then has more users (none) than it allows;
    and a full room that has a password answers a wrong password with
    "Invalid password", not with "Room is full". *)
Lemma capacity_counterexample :
  (Store.reachable Scenario.negative_capacity
   /\ exists room,
        Store.getRoom "R" Scenario.negative_capacity = Some room
        /\ ~ within_capacity room)
  /\ (Store.reachable Scenario.full_locked_room
      /\ exists room,
           Store.getRoom "R" Scenario.full_locked_room = Some room
           /\ JsMap.size (Room.users room) = Room.maxUsers room
           /\ RoomManager.error
                (fst (Store.joinRoom "R" "bob" "Bob" (Some "wrong")
                        Scenario.full_locked_room))
              = Some "Invalid password").
Proof.
  split; (split; [by eexists|]); eexists; (split; [reflexivity|]).
  - unfold within_capacity. vm_compute. intros H. by apply H.
  - split; reflexivity.
Qed.

(** ** Host succession *)

Lemma Forall_sublist' {A} (Q : A -> Prop) (l1 l2 : list A) :
  l1 `sublist_of` l2 -> Forall Q l2 -> Forall Q l1.
Proof.
  intros Hs. rewrite !Forall_forall. intros H x Hx.
  apply H. by eapply elem_of_sublist.
Qed.

Lemma StronglySorted_sublist {A} (R : relation A) (l1 l2 : list A) :
  l1 `sublist_of` l2 -> StronglySorted R l2 -> StronglySorted R l1.
Proof.
  induction 1 as [|x l1 l2 Hs IH|x l1 l2 Hs IH]; intros Hl; [done| |].
  - apply StronglySorted_cons in Hl as [Hx Hl].
    apply StronglySorted_cons. split; [|auto].
    by eapply Forall_sublist'.
  - apply StronglySorted_cons in Hl as [_ Hl]. auto.
Qed.

Lemma join_times_sublist (us1 us2 : JsMap.t User.t) :
  us1 `sublist_of` us2 -> join_times us1 `sublist_of` join_times us2.
Proof.
  intros Hs. unfold join_times, JsMap.values. by do 2 apply fmap_sublist.
Qed.

Lemma join_times_promote_first us :
  join_times (RoomManager.promote_first us) = join_times us.
Proof. by destruct us as [|[k u] us]. Qed.

Lemma join_times_touch k t u us :
  JsMap.get k us = Some u ->
  join_times (JsMap.set k (User.with_lastActivity t u) us) = join_times us.
Proof.
  unfold join_times, JsMap.values.
  induction us as [|[k' u'] us IH]; simpl; [done|].
  destruct (String.eqb k k'); simpl.
  - by intros [= ->].
  - intros H. f_equal. auto.
Qed.

(** In every reachable state the users of a room are listed in the order
    in which they joined. *)
Lemma reachable_joined_in_order s :
  Store.reachable s ->
  rooms_satisfy (fun _ r => joined_in_order (Store.clock s) r) (Store.mgr s).
Proof.
  apply (reachable_satisfy (fun c _ r => joined_in_order c r));
    unfold joined_in_order; simpl.
  - intros c c' k r Hc [Hs Hf]. split; [done|].
    eapply Forall_impl; [done|]. simpl. lia.
  - intros c k r us [Hs Hf] Hsub. apply join_times_sublist in Hsub.
    split; [by eapply StronglySorted_sublist|by eapply Forall_sublist'].
  - intros c k r. by rewrite join_times_promote_first.
  - done.
  - done.
  - intros c k r uid u t H Hu. by rewrite (join_times_touch _ _ _ _ Hu).
  - intros. split; constructor.
  - intros c k r uid uname [Hs Hf] _ _.
    unfold join_times, JsMap.values. rewrite !fmap_app. simpl.
    fold (JsMap.values (Room.users r)). fold (join_times (Room.users r)).
    split.
    + apply StronglySorted_app. split_and!; [|done|repeat constructor].
      intros x1 x2 Hx1 Hx2. apply list_elem_of_singleton in Hx2 as ->.
      rewrite Forall_forall in Hf. auto.
    + apply Forall_app. split; [done|]. repeat constructor. lia.
Qed.

Lemma host_count_promoted k u rest :
  Forall (fun v => User.isHost v = false) (JsMap.values rest) ->
  length (List.filter User.isHost
            (JsMap.values ((k, User.with_isHost true u) :: rest))) = 1%nat.
Proof.
  intros H. simpl. f_equal.
  induction H as [|v vs Hv _ IH]; simpl; [done|]. by rewrite Hv.
Qed.

Lemma no_host_existsb (vs : list User.t) :
  Forall (fun v => User.isHost v = false) vs ->
  existsb User.isHost vs = false.
Proof. induction 1 as [|v vs Hv _ IH]; simpl; [done|]. by rewrite Hv. Qed.

(** C9. When [leaveRoom] removes a user from a room in which members
    remain and none of them is host, exactly one of them is promoted: the
    first in the insertion order of the room's [users] map, who is also a
    member that joined no later than any other.  ([roomId] is a uuid, which
    is never the empty string.) *)
Theorem leaveRoom_promotes_earliest
    (s : Store.t) (userId roomId : string) (room : Room.t)
    (first : string * User.t) (rest : JsMap.t User.t) :
  Store.reachable s ->
  RoomManager.userToRoom (Store.mgr s) !! userId = Some roomId ->
  roomId <> "" ->
  Store.getRoom roomId s = Some room ->
  JsMap.delete userId (Room.users room) = first :: rest ->
  Forall (fun u => User.isHost u = false) (JsMap.values (first :: rest)) ->
  exists s' room',
    Store.leaveRoom userId s = (true, s')
    /\ Store.getRoom roomId s' = Some room'
    /\ Room.users room'
       = ((first.1, User.with_isHost true first.2) :: rest)
    /\ host_count room' = 1%nat
    /\ Forall (fun u => User.joinedAt first.2 <= User.joinedAt u)
              (JsMap.values rest).
Proof.
  intros Hreach Hindex Hne Hroom Hrest Hnohost.
  pose proof (reachable_joined_in_order s Hreach roomId room Hroom)
    as [Hsorted _].
  pose proof (no_host_existsb _ Hnohost) as Hex.
  assert (Hsize : (JsMap.size (first :: rest) =? 0) = false).
  { apply Z.eqb_neq. unfold JsMap.size. simpl. lia. }
  assert (Hlen : (0 <? Z.of_nat (length (JsMap.values (first :: rest))))
                 = true).
  { apply Z.ltb_lt. simpl. lia. }
  destruct s as [[rooms index] c ts].
  unfold Store.getRoom, RoomManager.getRoom in Hroom. simpl in Hroom, Hindex.
  unfold Store.leaveRoom, RoomManager.leaveRoom.
  cbn [Store.mgr RoomManager.userToRoom RoomManager.rooms].
  rewrite Hindex. apply String.eqb_neq in Hne. rewrite Hne, Hroom, Hrest.
  rewrite Hsize.
  unfold RoomManager.update_host. cbv zeta. rewrite Hlen, Hex.
  destruct first as [k u].
  cbn [andb negb RoomManager.promote_first fst snd].
  do 2 eexists. split; [reflexivity|].
  unfold Store.getRoom, RoomManager.getRoom.
  cbn [Store.mgr RoomManager.rooms]. rewrite get_set_eq.
  split; [reflexivity|]. split; [reflexivity|]. split.
  - unfold host_count. cbn [Room.users Room.with_users].
    apply host_count_promoted. by inversion Hnohost.
  - assert (Hsub : join_times ((k, u) :: rest)
                   `sublist_of` join_times (Room.users room)).
    { rewrite <- Hrest. apply join_times_sublist, delete_sublist. }
    apply (StronglySorted_sublist _ _ _ Hsub) in Hsorted.
    change (join_times ((k, u) :: rest))
      with (User.joinedAt u :: join_times rest) in Hsorted.
    apply StronglySorted_cons in Hsorted as [Hle _].
    unfold join_times in Hle. rewrite Forall_fmap in Hle. exact Hle.
Qed.

Lemma leaveRoom_promotes_earliest_witness :
  exists s' room',
    Store.leaveRoom "alice" Scenario.three_users = (true, s')
    /\ Store.getRoom "R" s' = Some room'
    /\ Room.users room'
       = [("bob", User.mk "bob" "Bob" true 1000 1000);
          ("carol", User.mk "carol" "Carol" false 2000 2000)]
    /\ host_count room' = 1%nat
    /\ Forall (fun u => 1000 <= User.joinedAt u)
              [User.mk "carol" "Carol" false 2000 2000].
Proof.
  apply (leaveRoom_promotes_earliest Scenario.three_users "alice" "R"
           (Room.mk "R" "room" None
              [("alice", User.mk "alice" "Alice" true 0 0);
               ("bob", User.mk "bob" "Bob" false 1000 1000);
               ("carol", User.mk "carol" "Carol" false 2000 2000)]
              "https://www.google.com" 0 2000 10)
           ("bob", User.mk "bob" "Bob" false 1000 1000)
           [("carol", User.mk "carol" "Carol" false 2000 2000)]).
  - by eexists.
  - reflexivity.
  - discriminate.
  - reflexivity.
  - reflexivity.
  - repeat constructor.
Defined.

(** ** Exactly one host *)

Lemma host_count_app r us :
  length (List.filter User.isHost (JsMap.values (Room.users r ++ us)%list))
  = (host_count r + length (List.filter User.isHost (JsMap.values us)))%nat.
Proof.
  unfold host_count, JsMap.values.
  by rewrite fmap_app, List.filter_app, length_app.
Qed.

(** [joinRoom] keeps "exactly one host when non-empty" in every room. *)
Lemma joinRoom_keeps_single_host now roomId userId userName password m :
  rooms_satisfy (fun _ r => single_host r) m ->
  rooms_satisfy (fun _ r => single_host r)
    (snd (RoomManager.joinRoom now roomId userId userName password m)).
Proof.
  intros Hm. destruct m as [rooms index].
  unfold RoomManager.joinRoom; simpl.
  destruct (JsMap.get roomId rooms) as [room|] eqn:Hroom; [|done].
  destruct (_ && _); [done|].
  destruct (_ <=? _); [done|].
  destruct (JsMap.has userId (Room.users room)) eqn:Hhas; [done|].
  apply has_false in Hhas. simpl.
  intros k r. simpl. destruct (decide (roomId = k)) as [<-|Hne].
  - rewrite get_set_eq. intros [= <-] _.
    rewrite (set_absent _ _ _ Hhas). unfold host_count at 1.
    cbn [Room.users Room.with_users Room.with_lastActivity].
    rewrite host_count_app. simpl.
    specialize (Hm roomId room Hroom). unfold single_host in Hm.
    destruct (Room.users room) as [|e us] eqn:Hus.
    + unfold host_count. rewrite Hus. reflexivity.
    + rewrite Hm by done.
      assert (H0 : (JsMap.size (e :: us) =? 0) = false).
      { apply Z.eqb_neq. unfold JsMap.size. simpl. lia. }
      by rewrite H0.
  - rewrite get_set_ne by done. apply Hm.
Qed.

Lemma host_count_sublist (us1 us2 : JsMap.t User.t) :
  us1 `sublist_of` us2 ->
  (length (List.filter User.isHost (JsMap.values us1))
   <= length (List.filter User.isHost (JsMap.values us2)))%nat.
Proof.
  induction 1 as [|[k u] l1 l2 Hs IH|[k u] l1 l2 Hs IH]; simpl; [done| |].
  - destruct (User.isHost u); simpl; lia.
  - destruct (User.isHost u); simpl; lia.
Qed.

Lemma existsb_host_count (vs : list User.t) :
  existsb User.isHost vs = true ->
  (1 <= length (List.filter User.isHost vs))%nat.
Proof.
  induction vs as [|v vs IH]; simpl; [done|].
  destruct (User.isHost v); simpl; [lia|auto].
Qed.

Lemma existsb_false_no_host (vs : list User.t) :
  existsb User.isHost vs = false ->
  Forall (fun v => User.isHost v = false) vs.
Proof.
  induction vs as [|v vs IH]; simpl; [constructor|].
  destruct (User.isHost v) eqn:Hv; [done|]. intros H. constructor; auto.
Qed.

(** [leaveRoom] keeps it as well: this is what its "Update host if
    necessary" branch is for. *)
Lemma leaveRoom_keeps_single_host userId m :
  rooms_satisfy (fun _ r => single_host r) m ->
  rooms_satisfy (fun _ r => single_host r)
    (snd (fst (RoomManager.leaveRoom userId m))).
Proof.
  intros Hm. destruct m as [rooms index].
  unfold RoomManager.leaveRoom; simpl.
  destruct (index !! userId) as [roomId|]; [|done].
  destruct (String.eqb roomId ""); [done|].
  destruct (JsMap.get roomId rooms) as [room|] eqn:Hroom; [|done].
  pose proof (delete_sublist userId (Room.users room)) as Hsub.
  destruct (JsMap.size (JsMap.delete userId (Room.users room)) =? 0)
    eqn:Hsize; simpl; intros k r; simpl;
    (destruct (decide (roomId = k)) as [<-|Hne];
     [rewrite get_set_eq; intros [= <-]
     |rewrite get_set_ne by done; apply Hm]).
  - apply Z.eqb_eq, size_zero in Hsize. intros H. by destruct H.
  - intros _. unfold host_count. cbn [Room.users Room.with_users].
    apply Z.eqb_neq in Hsize.
    assert (Hne : Room.users room <> []).
    { intros E. rewrite E in Hsize. by apply Hsize. }
    pose proof (Hm roomId room Hroom Hne) as Hone. unfold host_count in Hone.
    pose proof (host_count_sublist _ _ Hsub) as Hle.
    unfold RoomManager.update_host.
    destruct (JsMap.delete userId (Room.users room)) as [|[k u] rest] eqn:Hdel.
    { by destruct Hsize. }
    destruct (existsb User.isHost (JsMap.values ((k, u) :: rest))) eqn:Hex.
    + rewrite andb_false_r. apply existsb_host_count in Hex. lia.
    + simpl negb. rewrite andb_true_r.
      assert (Hlen : (0 <? Z.of_nat (length (JsMap.values ((k, u) :: rest))))
                     = true) by (apply Z.ltb_lt; simpl; lia).
      rewrite Hlen. apply existsb_false_no_host in Hex.
      apply host_count_promoted. by inversion Hex.
Qed.

(** C1 fails at [cleanup].  The host has been idle for thirty-one minutes,
    a guest joined two minutes ago: the sweep removes the host and, unlike
    [leaveRoom], promotes nobody, so the room is left with one user and no
    host. *)
Theorem cleanup_leaves_room_without_host :
  let before := Store.run (take 5 Scenario.idle_host) Store.init in
  let after := Store.cleanup before in
  after = Store.run Scenario.idle_host Store.init
  /\ (exists room,
        Store.getRoom "R" before = Some room
        /\ JsMap.keys (Room.users room) = ["alice"; "bob"]
        /\ host_count room = 1%nat)
  /\ (exists room,
        Store.getRoom "R" after = Some room
        /\ JsMap.keys (Room.users room) = ["bob"]
        /\ host_count room = 0%nat
        /\ ~ single_host room).
Proof.
  split; [reflexivity|]. split.
  - eexists. split; [reflexivity|]. split; reflexivity.
  - eexists. split; [reflexivity|]. split; [reflexivity|].
    split; [reflexivity|]. intros H. by specialize (H ltac:(done)).
Qed.

(** ** The grace period of an empty room *)

(** The timer never deletes a room that has users when it runs. *)
Lemma timer_spares_occupied_room roomId m room :
  RoomManager.getRoom roomId m = Some room ->
  Room.users room <> [] ->
  RoomManager.delete_if_empty roomId m = m.
Proof.
  unfold RoomManager.getRoom, RoomManager.delete_if_empty. intros -> Hne.
  destruct (JsMap.size (Room.users room) =? 0) eqn:E; [|done].
  apply Z.eqb_eq, size_zero in E. done.
Qed.

(** C5 fails on a quick return.  The room empties at 0:00, its user comes
    back at 1:00 and leaves again at 4:30.  The timer of the first
    departure was never cancelled: it runs at 5:00, finds the room empty
    and deletes it, thirty seconds into the second grace period. *)
Theorem stale_timer_deletes_room_early :
  let emptied := Store.run Scenario.quick_return Store.init in
  let later := Store.elapse 30000 emptied in
  Store.clock emptied = 270000
  /\ (exists room,
        Store.getRoom "R" emptied = Some room /\ Room.users room = [])
  /\ Store.timers emptied = [(300000, "R"); (570000, "R")]
  /\ Store.getRoom "R" later = None
  /\ Store.clock later - Store.clock emptied < RoomManager.GRACE_PERIOD.
Proof.
  split; [reflexivity|]. split; [eexists; split; reflexivity|].
  split; [reflexivity|]. split; [reflexivity|]. by vm_compute.
Qed.

(** ** Notification of the remaining members *)

Lemma getUserRoom_after_leaveRoom userId m :
  RoomManager.getUserRoom userId (snd (fst (RoomManager.leaveRoom userId m)))
  = None.
Proof.
  unfold RoomManager.leaveRoom, RoomManager.getUserRoom.
  destruct (RoomManager.userToRoom m !! userId) as [roomId|] eqn:Hindex;
    simpl; [|by rewrite Hindex].
  destruct (String.eqb roomId "") eqn:Hempty; simpl;
    [by rewrite Hindex, Hempty|].
  destruct (JsMap.get roomId (RoomManager.rooms m)) as [room|] eqn:Hroom;
    simpl; [|by rewrite Hindex, Hempty, Hroom].
  destruct (_ =? 0); simpl; by rewrite lookup_delete_eq.
Qed.

Lemma mgr_after_leaveRoom userId s :
  Store.mgr (snd (Store.leaveRoom userId s))
  = snd (fst (RoomManager.leaveRoom userId (Store.mgr s))).
Proof.
  unfold Store.leaveRoom.
  by destruct (RoomManager.leaveRoom userId (Store.mgr s)) as [[ok m] [t|]].
Qed.

(** [handleDisconnect] calls [leaveRoom] before it asks for the user's
    room, so it never finds one and never emits. *)
Lemma handleDisconnect_emits_nothing sock st :
  Relay.outbox (Relay.handleDisconnect sock st) = Relay.outbox st.
Proof.
  unfold Relay.handleDisconnect, Relay.getUserRoom. simpl.
  by rewrite mgr_after_leaveRoom, getUserRoom_after_leaveRoom.
Qed.

Lemma on_disconnect_emits_nothing sock st :
  Relay.outbox (Relay.on_disconnect sock st) = Relay.outbox st.
Proof.
  unfold Relay.on_disconnect. simpl.
  by rewrite handleDisconnect_emits_nothing.
Qed.

(** C2 fails for a closing connection.  With Alice and Bob in one room,
    Bob's ['leave-room'] sends Alice ['user-left'] with the list that is
    left, but the closing of Bob's connection removes him from the room
    and sends Alice nothing. *)
Theorem disconnect_sends_no_notification :
  let alice := User.mk "a" "Alice" true 0 0 in
  let st := Scenario.pair_in_room in
  let left := Relay.handle (Relay.leave_room "b") st in
  let closed := Relay.handle (Relay.disconnect "b") st in
  (exists e,
     Relay.outbox left = (Relay.outbox st ++ [e])%list
     /\ Relay.event e = Relay.user_left "b" [alice]
     /\ "a" ∈ Relay.recipients e)
  /\ Relay.getRoomUsers "R" closed = [alice]
  /\ Relay.outbox closed = Relay.outbox st.
Proof.
  split; [|split; reflexivity].
  eexists. split; [reflexivity|]. split; [reflexivity|].
  apply (bool_decide_unpack _). by vm_compute.
Qed.

(** ** The streaming loop *)

(** ['client-disconnected'] forgets the peer connection and nothing else:
    the loops, the sockets and the driver are as before. *)
Lemma on_client_disconnected_keeps_loops clientId st :
  let st' := Engine.on_client_disconnected clientId st in
  Engine.intervals st' = Engine.intervals st
  /\ Engine.sockets st' = Engine.sockets st
  /\ Engine.page st' = Engine.page st
  /\ Engine.isInitialized st' = Engine.isInitialized st
  /\ Engine.frames st' = Engine.frames st.
Proof.
  unfold Engine.on_client_disconnected.
  by destruct (bool_decide _).
Qed.

(** So a loop, where one is running, keeps sending to its socket
    afterwards. *)
Lemma loop_outlives_client_disconnected clientId handle image now st :
  Engine.loop_client handle st = Some clientId ->
  Engine.page st = true -> Engine.isInitialized st = true ->
  clientId ∈ Engine.sockets st ->
  Engine.frames
    (Engine.step (Engine.interval_fires handle (Some image) now)
       (Engine.step (Engine.client_disconnected clientId) st))
  = (Engine.frames st
     ++ [(clientId, Engine.mkFrame (Engine.base64 image) now)])%list.
Proof.
  intros Hloop Hpage Hinit Hsock.
  destruct (on_client_disconnected_keeps_loops clientId st)
    as (Hi & Hs & Hp & Hini & Hf).
  simpl. unfold Engine.loop_client. rewrite Hi.
  unfold Engine.loop_client in Hloop. rewrite Hloop.
  unfold Engine.capture_and_send. rewrite Hp, Hini, Hs, Hf, Hpage, Hinit.
  simpl. by rewrite bool_decide_eq_true_2.
Qed.

(** A loop whose socket is gone captures but sends nothing. *)
Lemma no_frame_without_socket clientId shot now st :
  clientId ∉ Engine.sockets st ->
  Engine.frames (Engine.capture_and_send clientId shot now st)
  = Engine.frames st.
Proof.
  intros Hsock. unfold Engine.capture_and_send.
  destruct (_ || _); [done|]. destruct shot; [|done].
  by rewrite bool_decide_eq_false_2.
Qed.





(** ** The placeholder of [GET /screenshot] *)

Lemma initializeBrowser_keeps_url mods run st :
  Engine.currentUrl (fst (Engine.initializeBrowser mods run st))
  = Engine.currentUrl st.
Proof.
  unfold Engine.initializeBrowser.
  destruct (_ && _ && _); [done|].
  destruct (Engine.browser st), (Engine.has_playwright mods),
    (Engine.playwright_run run), (Engine.has_puppeteer mods),
    (Engine.puppeteer_run run), (Engine.has_axios mods); reflexivity.
Qed.

Lemma placeholder_includes_url url :
  Engine.includes (Engine.placeholder url) url.
Proof. by exists Engine.svg_prefix, Engine.svg_suffix. Qed.

Lemma respond_in_time elapsed r :
  elapsed < Engine.WATCHDOG -> Engine.respond elapsed r = r.
Proof.
  intros H. unfold Engine.respond.
  by destruct (Z.leb_spec Engine.WATCHDOG elapsed); [lia|].
Qed.

(** C8, as the route has it.  When the request finds no usable driver
    (no page, not initialized, or the mock tier) and the re-initialization
    attempt yields no frame either, the route answers with the generated
    SVG, whose text includes the current URL, provided it gets there
    before its own ten-second watchdog. *)
Theorem screenshot_placeholder
    (mods : Engine.Modules) (run : Engine.InitRun) (c : Engine.Capture)
    (st : Engine.t) :
  Engine.ready st = false ->
  (Engine.ready (fst (Engine.initializeBrowser mods run st)) = false
   \/ fst (Engine.race Engine.RETRY_CAPTURE_LIMIT c) = None) ->
  Engine.retry_elapsed mods run c st < Engine.WATCHDOG ->
  fst (Engine.screenshot_route mods run c st)
  = Engine.svg (Engine.placeholder (Engine.currentUrl st))
  /\ Engine.includes (Engine.placeholder (Engine.currentUrl st))
                     (Engine.currentUrl st).
Proof.
  intros Hready Hfail Htime. split; [|apply placeholder_includes_url].
  unfold Engine.screenshot_route. rewrite Hready.
  unfold Engine.retry_elapsed in Htime. cbv zeta in *.
  rewrite initializeBrowser_keeps_url.
  destruct (Engine.ready (fst (Engine.initializeBrowser mods run st)))
    eqn:Hready1.
  - destruct Hfail as [|Hnone]; [done|].
    destruct (Engine.race Engine.RETRY_CAPTURE_LIMIT c) as [shot elapsed].
    simpl in Hnone, Htime. subst shot. simpl.
    by rewrite respond_in_time.
  - simpl. by rewrite respond_in_time.
Qed.

Lemma screenshot_placeholder_witness :
  fst (Engine.screenshot_route (Engine.load_modules true false false)
         Scenario.instant_failure Scenario.no_capture Engine.init)
  = Engine.svg (Engine.placeholder "https://www.google.com")
  /\ Engine.includes (Engine.placeholder "https://www.google.com")
                     "https://www.google.com".
Proof.
  apply (screenshot_placeholder (Engine.load_modules true false false)
           Scenario.instant_failure Scenario.no_capture Engine.init).
  - reflexivity.
  - left. reflexivity.
  - vm_compute. reflexivity.
Defined.

(** Without a browser library nothing ever assigns [this.page]. *)
Lemma no_library_no_page axios_installed run st :
  Engine.browser st = false -> Engine.page st = false ->
  let st' :=
    fst (Engine.initializeBrowser
           (Engine.load_modules false false axios_installed) run st) in
  Engine.browser st' = false /\ Engine.page st' = false.
Proof.
  intros Hb Hp. unfold Engine.initializeBrowser.
  rewrite Hb, Hp, !andb_false_r. by destruct axios_installed.
Qed.

(** The HTTP tier ([axios] is only loaded when neither browser library
    is) and the mock tier without any library always get the placeholder:
    nothing is launched, so no time passes. *)
Lemma screenshot_http_tier run c st :
  Engine.browserType st = Engine.http ->
  Engine.browser st = false -> Engine.page st = false ->
  fst (Engine.screenshot_route (Engine.load_modules false false true) run c st)
  = Engine.svg (Engine.placeholder (Engine.currentUrl st)).
Proof.
  intros Hty Hb Hp.
  unfold Engine.screenshot_route, Engine.initializeBrowser, Engine.ready.
  rewrite ?Hb, ?Hp, ?andb_false_r. simpl.
  rewrite ?Hp, ?andb_false_r. simpl. done.
Qed.

Lemma screenshot_mock_tier run c st :
  Engine.browserType st = Engine.mock ->
  Engine.browser st = false -> Engine.page st = false ->
  fst (Engine.screenshot_route (Engine.load_modules false false false) run c
         st)
  = Engine.svg (Engine.placeholder (Engine.currentUrl st)).
Proof.
  intros Hty Hb Hp.
  unfold Engine.screenshot_route, Engine.initializeBrowser, Engine.ready.
  rewrite ?Hb, ?Hp, ?andb_false_r. simpl.
  rewrite ?Hp, ?andb_false_r. simpl. done.
Qed.

(** A driver that is marked ready and fails to capture is answered with
    500: the first branch of the route has no fallback. *)
Lemma screenshot_ready_capture_fails mods run c st :
  Engine.ready st = true ->
  fst (Engine.race Engine.FIRST_CAPTURE_LIMIT c) = None ->
  fst (Engine.screenshot_route mods run c st)
  = Engine.json_error 500 "Failed to create screenshot".
Proof.
  intros Hready Hnone. unfold Engine.screenshot_route. rewrite Hready.
  unfold Engine.race in *.
  destruct (Z.ltb_spec (Engine.capture_ms c) Engine.FIRST_CAPTURE_LIMIT);
    simpl in *.
  - rewrite Hnone. simpl. apply respond_in_time.
    unfold Engine.FIRST_CAPTURE_LIMIT, Engine.WATCHDOG in *. lia.
  - by apply respond_in_time.
Qed.

(** C8 as stated fails when the re-initialization is slow.  In the mock
    tier, with Playwright installed and [page.goto] timing out during the
    re-initialization, the watchdog has answered 504 long before the
    handler would send the placeholder. *)
Lemma screenshot_watchdog_counterexample :
  let mods := Engine.load_modules true false false in
  Engine.browserType Engine.init = Engine.mock
  /\ Engine.ready
       (fst (Engine.initializeBrowser mods Scenario.slow_failure Engine.init))
     = false
  /\ fst (Engine.screenshot_route mods Scenario.slow_failure
            Scenario.no_capture Engine.init)
     = Engine.json_error 504 "Screenshot timeout".
Proof. split; [|split]; reflexivity. Qed.

(** ** Reachable states of the relay *)

Lemma member_somewhereb_sound sock st :
  member_somewhereb sock st = false -> ~ Relay.member_somewhere sock st.
Proof.
  intros Hb (roomId & room & Hroom & Hin).
  apply get_Some_elem in Hroom.
  assert (Hex : member_somewhereb sock st = true); [|congruence].
  unfold member_somewhereb. apply existsb_exists.
  exists (roomId, room). split; [by apply list_elem_of_In|].
  simpl. by apply bool_decide_eq_true_2.
Qed.

Lemma admissibleb_sound msg st :
  admissibleb msg st = true -> Relay.admissible msg st.
Proof.
  destruct msg; simpl; try done;
    try (intros H; by apply bool_decide_eq_true_1 in H).
  - intros [H1 H2]%andb_true_iff. split.
    + apply negb_true_iff in H1. by apply bool_decide_eq_false_1 in H1.
    + apply member_somewhereb_sound. by apply negb_true_iff.
  - intros [H1 H2]%andb_true_iff. split.
    + by apply bool_decide_eq_true_1 in H1.
    + apply has_false. by apply negb_true_iff.
Qed.

Lemma admissible_run_reachable msgs st :
  Relay.reachable st -> admissible_run msgs st = true ->
  Relay.reachable (Relay.run msgs st).
Proof.
  revert st. induction msgs as [|msg msgs IH]; intros st Hst; simpl; [done|].
  intros [H1 H2]%andb_true_iff. apply IH; [|done].
  constructor; [done|by apply admissibleb_sound].
Qed.

Lemma run_app cs1 cs2 s :
  Store.run (cs1 ++ cs2) s = Store.run cs2 (Store.run cs1 s).
Proof. unfold Store.run. by rewrite fold_left_app. Qed.

Lemma store_reachable_step cs s :
  Store.reachable s -> Store.reachable (Store.run cs s).
Proof. intros [cs0 ->]. exists (cs0 ++ cs)%list. by rewrite run_app. Qed.

(** The store of a reachable relay is a reachable store. *)
Lemma relay_store_reachable st :
  Relay.reachable st -> Store.reachable (Relay.store st).
Proof.
  induction 1 as [|st msg Hst IH Hadm].
  - by exists [].
  - destruct msg; simpl.
    + done.
    + by apply (store_reachable_step
                  [Store.CreateRoom uuid name password maxUsers]).
    + unfold Relay.handleJoinRoom.
      assert (Hs : Store.reachable
                     (snd (Store.joinRoom roomId sock userName password
                             (Relay.store st))))
        by apply (store_reachable_step
                    [Store.JoinRoom roomId sock userName password]), IH.
      cbv zeta. repeat case_match; exact Hs.
    + unfold Relay.handleLeaveRoom.
      destruct (Relay.getUserRoom sock st); [|done].
      by apply (store_reachable_step [Store.LeaveRoom sock]).
    + unfold Relay.handleControlMessage.
      by destruct (Relay.getUserRoom sock st).
    + unfold Relay.handleUrlChange.
      destruct (Relay.getUserRoom sock st) as [room|]; [|done].
      by apply (store_reachable_step [Store.UpdateRoomUrl (Room.id room) url]).
    + unfold Relay.handleDisconnect.
      assert (Hs : Store.reachable
                     (snd (Store.leaveRoom sock (Relay.store st))))
        by apply (store_reachable_step [Store.LeaveRoom sock]), IH.
      cbv zeta. repeat case_match; exact Hs.
    + apply (store_reachable_step [Store.Cleanup]).
      generalize (Relay.connectedSockets st) as socks.
      revert IH. generalize (Relay.store st) as s.
      intros s Hs socks. revert s Hs.
      induction socks as [|sock socks IHs]; intros s Hs; simpl; [done|].
      apply IHs.
      by apply (store_reachable_step [Store.UpdateUserActivity sock]).
    + by apply (store_reachable_step [Store.Elapse ms]).
Qed.

Lemma reachable_room_ids s :
  Store.reachable s ->
  rooms_satisfy (fun k r => Room.id r = k) (Store.mgr s).
Proof.
  by apply (reachable_satisfy (fun _ k r => Room.id r = k)).
Qed.

(** ** The reverse index stays sound *)

Lemma keys_promote_first us :
  JsMap.keys (RoomManager.promote_first us) = JsMap.keys us.
Proof. by destruct us as [|[k u] us]. Qed.

Lemma keys_update_host us :
  JsMap.keys (RoomManager.update_host us) = JsMap.keys us.
Proof.
  unfold RoomManager.update_host.
  destruct (_ && _); [apply keys_promote_first|done].
Qed.

Lemma keys_app {V} (m1 m2 : JsMap.t V) :
  JsMap.keys (m1 ++ m2)%list = (JsMap.keys m1 ++ JsMap.keys m2)%list.
Proof. unfold JsMap.keys. apply fmap_app. Qed.

Lemma createRoom_index_sound uuid now name password maxUsers m :
  JsMap.get uuid (RoomManager.rooms m) = None ->
  index_sound m ->
  index_sound (snd (RoomManager.createRoom uuid now name password maxUsers m)).
Proof.
  intros Hfresh Hm userId roomId Hindex. simpl in *.
  destruct (Hm userId roomId Hindex) as (r & Hr & Hin).
  exists r. split; [|done].
  rewrite get_set_ne; [done|]. intros ->. congruence.
Qed.

Lemma joinRoom_index_sound now roomId userId userName password m :
  index_sound m ->
  index_sound
    (snd (RoomManager.joinRoom now roomId userId userName password m)).
Proof.
  intros Hm. unfold RoomManager.joinRoom.
  destruct (JsMap.get roomId (RoomManager.rooms m)) as [room|] eqn:Hroom;
    [|done].
  destruct (_ && _); [done|].
  destruct (_ <=? _); [done|].
  destruct (JsMap.has userId (Room.users room)) eqn:Hhas; [done|].
  apply has_false in Hhas. simpl.
  intros u rid. simpl. rewrite (set_absent _ _ _ Hhas).
  destruct (decide (userId = u)) as [<-|Hne].
  - rewrite lookup_insert_eq. intros [= <-].
    rewrite get_set_eq. eexists. split; [done|]. simpl.
    rewrite keys_app. apply elem_of_app. right. simpl. left.
  - rewrite lookup_insert_ne by done. intros Hindex.
    destruct (Hm u rid Hindex) as (r & Hr & Hin).
    destruct (decide (roomId = rid)) as [<-|Hrid].
    + rewrite get_set_eq. eexists. split; [done|]. simpl.
      rewrite keys_app. apply elem_of_app. left. congruence.
    + rewrite get_set_ne by done. eauto.
Qed.

Lemma leaveRoom_index_sound userId m :
  index_sound m ->
  index_sound (snd (fst (RoomManager.leaveRoom userId m))).
Proof.
  intros Hm. unfold RoomManager.leaveRoom.
  destruct (RoomManager.userToRoom m !! userId) as [roomId|]; [|done].
  destruct (String.eqb roomId ""); [done|].
  destruct (JsMap.get roomId (RoomManager.rooms m)) as [room|] eqn:Hroom;
    [|done].
  assert (Hgen : forall us,
    JsMap.keys us = JsMap.keys (JsMap.delete userId (Room.users room)) ->
    index_sound
      (RoomManager.mk
         (JsMap.set roomId (Room.with_users us room) (RoomManager.rooms m))
         (delete userId (RoomManager.userToRoom m)))).
  { intros us Hkeys u rid. simpl.
    intros [Hne Hindex]%lookup_delete_Some.
    destruct (Hm u rid Hindex) as (r & Hr & Hin).
    destruct (decide (roomId = rid)) as [<-|Hrid].
    - rewrite get_set_eq. eexists. split; [done|]. simpl.
      rewrite Hkeys. apply keys_delete. split; [done|congruence].
    - rewrite get_set_ne by done. eauto. }
  destruct (_ =? 0); simpl; apply Hgen; [done|apply keys_update_host].
Qed.

Lemma delete_if_empty_index_sound roomId m :
  index_sound m -> index_sound (RoomManager.delete_if_empty roomId m).
Proof.
  intros Hm. unfold RoomManager.delete_if_empty.
  destruct (JsMap.get roomId (RoomManager.rooms m)) as [room|] eqn:Hroom;
    [|done].
  destruct (_ =? 0) eqn:Hsize; [|done].
  apply Z.eqb_eq, size_zero in Hsize.
  intros u rid Hindex. simpl in *.
  destruct (Hm u rid Hindex) as (r & Hr & Hin).
  exists r. split; [|done].
  rewrite get_delete_ne; [done|]. intros ->.
  rewrite Hroom in Hr. injection Hr as <-. rewrite Hsize in Hin.
  by apply elem_of_nil in Hin.
Qed.

Lemma updateRoomUrl_index_sound now roomId url m :
  index_sound m ->
  index_sound (snd (RoomManager.updateRoomUrl now roomId url m)).
Proof.
  intros Hm. unfold RoomManager.updateRoomUrl.
  destruct (JsMap.get roomId (RoomManager.rooms m)) as [room|] eqn:Hroom;
    [|done].
  intros u rid Hindex. simpl in *.
  destruct (Hm u rid Hindex) as (r & Hr & Hin).
  destruct (decide (roomId = rid)) as [<-|Hrid].
  - rewrite get_set_eq. eexists. split; [done|]. simpl. congruence.
  - rewrite get_set_ne by done. eauto.
Qed.

Lemma updateUserActivity_index_sound now userId m :
  index_sound m ->
  index_sound (RoomManager.updateUserActivity now userId m).
Proof.
  intros Hm. unfold RoomManager.updateUserActivity.
  destruct (RoomManager.userToRoom m !! userId) as [roomId|]; [|done].
  destruct (String.eqb roomId ""); [done|].
  destruct (JsMap.get roomId (RoomManager.rooms m)) as [room|] eqn:Hroom;
    [|done].
  intros u rid Hindex. simpl in *.
  destruct (Hm u rid Hindex) as (r & Hr & Hin).
  destruct (decide (roomId = rid)) as [<-|Hrid].
  - rewrite get_set_eq. eexists. split; [done|]. simpl.
    assert (r = room) as -> by congruence.
    destruct (JsMap.get userId (Room.users room)) as [user|] eqn:Huser;
      [|done].
    by rewrite (keys_set_present _ _ _ _ Huser).
  - rewrite get_set_ne by done. eauto.
Qed.

Lemma sweep_fold_index now (l : JsMap.t User.t)
    (acc : JsMap.t User.t * gmap string string) u rid :
  let swept :=
    fold_left
      (fun acc entry =>
         if RoomManager.stale now (User.lastActivity (snd entry))
         then (JsMap.delete (fst entry) (fst acc), delete (fst entry) (snd acc))
         else acc)
      l acc in
  snd swept !! u = Some rid ->
  snd acc !! u = Some rid
  /\ (u ∈ JsMap.keys (fst acc) -> u ∈ JsMap.keys (fst swept)).
Proof.
  revert acc. induction l as [|e l IH]; intros acc; simpl; [done|].
  intros H. apply IH in H as [Hindex Hkeys].
  destruct (RoomManager.stale now (User.lastActivity e.2)); [|done].
  simpl in *. apply lookup_delete_Some in Hindex as [Hne Hindex].
  split; [done|]. intros Hin. apply Hkeys, keys_delete. done.
Qed.

(** A user that the sweep removes from the room loses its index entry. *)
Lemma sweep_users_index now us index u rid :
  snd (RoomManager.sweep_users now us index) !! u = Some rid ->
  index !! u = Some rid
  /\ (u ∈ JsMap.keys us ->
      u ∈ JsMap.keys (fst (RoomManager.sweep_users now us index))).
Proof. apply (sweep_fold_index now us (us, index)). Qed.

Lemma sweep_room_index_sound now m entry :
  index_sound m -> index_sound (RoomManager.sweep_room now m entry).
Proof.
  intros Hm. unfold RoomManager.sweep_room.
  destruct (JsMap.get entry.1 (RoomManager.rooms m)) as [room|] eqn:Hroom;
    [|done].
  destruct (_ && _) eqn:Hdel; intros u rid Hindex; simpl in *;
    apply sweep_users_index in Hindex as [Hindex Hkeys];
    destruct (Hm u rid Hindex) as (r & Hr & Hin);
    (destruct (decide (entry.1 = rid)) as [<-|Hrid];
     [assert (r = room) as -> by congruence|]).
  - apply andb_true_iff in Hdel as [Hsize _].
    apply Z.eqb_eq, size_zero in Hsize.
    apply Hkeys in Hin. rewrite Hsize in Hin. by apply elem_of_nil in Hin.
  - rewrite get_delete_ne by done. eauto.
  - rewrite get_set_eq. eexists. split; [done|]. simpl. auto.
  - rewrite get_set_ne by done. eauto.
Qed.

Lemma cleanup_index_sound now m :
  index_sound m -> index_sound (RoomManager.cleanup now m).
Proof.
  unfold RoomManager.cleanup. generalize (RoomManager.rooms m) as l.
  intros l. revert m.
  induction l as [|e l IH]; intros m Hm; simpl; [done|].
  apply IH. by apply sweep_room_index_sound.
Qed.

Lemma elapse_index_sound ms s :
  index_sound (Store.mgr s) -> index_sound (Store.mgr (Store.elapse ms s)).
Proof.
  unfold Store.elapse; simpl. generalize (Store.mgr s) as m.
  generalize (List.filter (Store.due (Store.clock s + Z.max 0 ms))
                          (Store.timers s)) as fired.
  induction fired as [|tm fired IH]; intros m Hm; simpl; [done|].
  apply IH. by apply delete_if_empty_index_sound.
Qed.

(** ** Connected members stay in the channel of their room *)

Section Covers.
Variable st : Relay.t.

Lemma covers_shrink (c : Z) k r us :
  channel_covers st k r -> us `sublist_of` Room.users r ->
  channel_covers st k (Room.with_users us r).
Proof.
  intros Hr Hs u Hu. apply Hr. by eapply sublist_keys.
Qed.

Lemma covers_promote (c : Z) k r :
  channel_covers st k r ->
  channel_covers st k
    (Room.with_users (RoomManager.promote_first (Room.users r)) r).
Proof.
  intros Hr u Hu. apply Hr. simpl in Hu.
  by rewrite keys_promote_first in Hu.
Qed.

Lemma covers_url (c : Z) k r url :
  channel_covers st k r -> channel_covers st k (Room.with_currentUrl url r).
Proof. done. Qed.

Lemma covers_activity (c : Z) k r t :
  channel_covers st k r -> channel_covers st k (Room.with_lastActivity t r).
Proof. done. Qed.

Lemma covers_touch (c : Z) k r uid u t :
  channel_covers st k r -> JsMap.get uid (Room.users r) = Some u ->
  channel_covers st k
    (Room.with_users
       (JsMap.set uid (User.with_lastActivity t u) (Room.users r)) r).
Proof.
  intros Hr Hu v Hv. apply Hr. simpl in Hv.
  by rewrite (keys_set_present _ _ _ _ Hu) in Hv.
Qed.

Lemma covers_leaveRoom userId m :
  rooms_satisfy (channel_covers st) m ->
  rooms_satisfy (channel_covers st)
    (snd (fst (RoomManager.leaveRoom userId m))).
Proof.
  apply (leaveRoom_satisfy (fun _ => channel_covers st)
           covers_shrink covers_promote 0).
Qed.

Lemma covers_updateRoomUrl now roomId url m :
  rooms_satisfy (channel_covers st) m ->
  rooms_satisfy (channel_covers st)
    (snd (RoomManager.updateRoomUrl now roomId url m)).
Proof.
  apply (updateRoomUrl_satisfy (fun _ => channel_covers st)
           covers_url covers_activity 0).
Qed.

Lemma covers_updateUserActivity now userId m :
  rooms_satisfy (channel_covers st) m ->
  rooms_satisfy (channel_covers st)
    (RoomManager.updateUserActivity now userId m).
Proof.
  apply (updateUserActivity_satisfy (fun _ => channel_covers st)
           covers_shrink covers_activity covers_touch 0).
Qed.

Lemma covers_cleanup now m :
  rooms_satisfy (channel_covers st) m ->
  rooms_satisfy (channel_covers st) (RoomManager.cleanup now m).
Proof.
  apply (cleanup_satisfy (fun _ => channel_covers st) covers_shrink 0).
Qed.

Lemma covers_elapse ms s :
  rooms_satisfy (channel_covers st) (Store.mgr s) ->
  rooms_satisfy (channel_covers st) (Store.mgr (Store.elapse ms s)).
Proof.
  apply (elapse_satisfy (fun _ => channel_covers st)). auto.
Qed.
End Covers.

Lemma channel_socket_join sock name st k :
  Relay.channel k (Relay.socket_join sock name st)
  = if decide (name = k) then Relay.channel name st ∪ {[sock]}
    else Relay.channel k st.
Proof.
  unfold Relay.channel, Relay.socket_join. simpl.
  destruct (decide (name = k)) as [<-|Hne].
  - by rewrite lookup_insert_eq.
  - by rewrite lookup_insert_ne.
Qed.

Lemma channel_socket_leave sock name st k :
  Relay.channel k (Relay.socket_leave sock name st)
  = if decide (name = k) then Relay.channel name st ∖ {[sock]}
    else Relay.channel k st.
Proof.
  unfold Relay.channel, Relay.socket_leave. simpl.
  destruct (decide (name = k)) as [<-|Hne].
  - by rewrite lookup_insert_eq.
  - by rewrite lookup_insert_ne.
Qed.

Lemma getUserRoom_Some userId m room :
  RoomManager.getUserRoom userId m = Some room ->
  exists roomId,
    RoomManager.userToRoom m !! userId = Some roomId
    /\ roomId <> ""
    /\ JsMap.get roomId (RoomManager.rooms m) = Some room.
Proof.
  unfold RoomManager.getUserRoom.
  destruct (RoomManager.userToRoom m !! userId) as [roomId|]; [|done].
  destruct (String.eqb_spec roomId ""); [done|]. eauto.
Qed.

Lemma handleDisconnect_store sock st :
  Relay.handleDisconnect sock st
  = Relay.with_store (snd (Store.leaveRoom sock (Relay.store st))) st.
Proof.
  unfold Relay.handleDisconnect, Relay.getUserRoom. simpl.
  by rewrite mgr_after_leaveRoom, getUserRoom_after_leaveRoom.
Qed.

Lemma heartbeat_fold (Q : RoomManager.t -> Prop) socks s :
  (forall now userId m,
     Q m -> Q (RoomManager.updateUserActivity now userId m)) ->
  Q (Store.mgr s) ->
  Q (Store.mgr
       (fold_left (fun s sock => Store.updateUserActivity sock s) socks s)).
Proof.
  intros Hstep. revert s.
  induction socks as [|sock socks IH]; intros s Hs; simpl; [done|].
  apply IH. simpl. by apply Hstep.
Qed.

(** ** The invariant of the relay *)

Lemma step_connection sock st :
  relay_inv st -> Relay.admissible (Relay.connection sock) st ->
  rooms_satisfy (channel_covers (Relay.on_connection sock st))
                (Store.mgr (Relay.store st)).
Proof.
  intros (_ & Hcov & _) [_ Hfresh] k r Hr u Hu Hconn. simpl in Hconn.
  apply elem_of_app in Hconn as [Hconn|Hconn].
  - by apply (Hcov k r Hr u).
  - apply list_elem_of_singleton in Hconn as ->.
    destruct Hfresh. by exists k, r.
Qed.

Lemma step_create_room sock uuid name password maxUsers st :
  relay_inv st ->
  Relay.admissible (Relay.create_room sock uuid name password maxUsers) st ->
  let st' := Relay.handleCreateRoom sock uuid name password maxUsers st in
  rooms_satisfy (channel_covers st') (Store.mgr (Relay.store st'))
  /\ index_sound (Store.mgr (Relay.store st')).
Proof.
  intros (_ & Hcov & Hidx) [_ Hfresh]. split.
  - intros k r. simpl.
    destruct (decide (uuid = k)) as [<-|Hne].
    + rewrite get_set_eq. intros [= <-] u Hu. by apply elem_of_nil in Hu.
    + rewrite get_set_ne by done. intros Hr u Hu Hconn.
      unfold Relay.channel. simpl. rewrite lookup_insert_ne by done.
      by apply (Hcov k r Hr u).
  - by apply createRoom_index_sound.
Qed.

Lemma step_join_room sock roomId userName password st :
  rooms_satisfy (fun k r => Room.id r = k) (Store.mgr (Relay.store st)) ->
  relay_inv st ->
  let st' := Relay.handleJoinRoom sock roomId userName password st in
  rooms_satisfy (channel_covers st') (Store.mgr (Relay.store st'))
  /\ index_sound (Store.mgr (Relay.store st')).
Proof.
  intros Hid (_ & Hcov & Hidx).
  pose proof (joinRoom_index_sound (Store.clock (Relay.store st)) roomId sock
                userName password _ Hidx) as Hidx'.
  unfold Relay.handleJoinRoom, Store.joinRoom. cbv zeta.
  cbn [fst snd].
  revert Hidx'. unfold RoomManager.joinRoom.
  destruct (JsMap.get roomId (RoomManager.rooms (Store.mgr (Relay.store st))))
    as [room|] eqn:Hroom; [|by split].
  destruct (_ && _); [by split|].
  destruct (_ <=? _); [by split|].
  destruct (JsMap.has sock (Room.users room)) eqn:Hhas; [by split|].
  apply has_false in Hhas.
  cbn [fst snd RoomManager.success RoomManager.room].
  intros Hidx'. split; [|exact Hidx'].
  pose proof (Hid roomId room Hroom) as Hrid.
  intros k r. cbn [Relay.store Relay.with_store Relay.socket_to_emit
    Relay.socket_emit Relay.emit Relay.socket_join Store.mgr
    RoomManager.rooms Room.id Room.with_lastActivity Room.with_users].
  rewrite Hrid.
  destruct (decide (roomId = k)) as [<-|Hne].
  - rewrite get_set_eq. intros [= <-] u Hu Hconn.
    unfold Relay.channel. cbn. rewrite lookup_insert_eq. cbn.
    cbn [Room.users Room.with_lastActivity Room.with_users] in Hu.
    rewrite (set_absent _ _ _ Hhas), keys_app in Hu.
    apply elem_of_app in Hu as [Hu|Hu].
    + apply elem_of_union_l. by apply (Hcov roomId room Hroom u).
    + apply list_elem_of_singleton in Hu as ->.
      apply elem_of_union_r. by apply elem_of_singleton.
  - rewrite get_set_ne by done. intros Hr u Hu Hconn.
    unfold Relay.channel. cbn. rewrite lookup_insert_ne by done.
    by apply (Hcov k r Hr u).
Qed.

Lemma leaveRoom_removes_user userId m roomId room r :
  RoomManager.userToRoom m !! userId = Some roomId -> roomId <> "" ->
  JsMap.get roomId (RoomManager.rooms m) = Some room ->
  JsMap.get roomId
    (RoomManager.rooms (snd (fst (RoomManager.leaveRoom userId m)))) = Some r ->
  userId ∉ JsMap.keys (Room.users r).
Proof.
  intros Hindex Hne Hroom. unfold RoomManager.leaveRoom.
  apply String.eqb_neq in Hne. rewrite Hindex, Hne, Hroom.
  destruct (_ =? 0); simpl; rewrite get_set_eq; intros [= <-]; simpl;
    rewrite ?keys_update_host; intros Hin%keys_delete; by destruct Hin.
Qed.

Lemma step_leave_room sock st :
  rooms_satisfy (fun k r => Room.id r = k) (Store.mgr (Relay.store st)) ->
  relay_inv st ->
  let st' := Relay.handleLeaveRoom sock st in
  rooms_satisfy (channel_covers st') (Store.mgr (Relay.store st'))
  /\ index_sound (Store.mgr (Relay.store st')).
Proof.
  intros Hid (_ & Hcov & Hidx). unfold Relay.handleLeaveRoom.
  destruct (Relay.getUserRoom sock st) as [room|] eqn:Hroom; [|by split].
  apply getUserRoom_Some in Hroom as (roomId & Hindex & Hne & Hroom).
  rewrite (Hid roomId room Hroom).
  cbn [Relay.store Relay.with_store Relay.socket_to_emit Relay.emit
       Relay.socket_leave].
  rewrite mgr_after_leaveRoom. split; [|by apply leaveRoom_index_sound].
  intros k r Hr u Hu Hconn.
  pose proof (covers_leaveRoom st sock _ Hcov k r Hr u Hu Hconn) as Hin.
  unfold Relay.channel. cbn.
  destruct (decide (roomId = k)) as [<-|Hk].
  - rewrite lookup_insert_eq. cbn. apply elem_of_difference. split; [done|].
    intros ->%elem_of_singleton.
    by apply (leaveRoom_removes_user sock (Store.mgr (Relay.store st))
                roomId room r).
  - by rewrite lookup_insert_ne.
Qed.

Lemma step_url_change sock url st :
  relay_inv st ->
  let st' := Relay.handleUrlChange sock url st in
  rooms_satisfy (channel_covers st') (Store.mgr (Relay.store st'))
  /\ index_sound (Store.mgr (Relay.store st')).
Proof.
  intros (_ & Hcov & Hidx). unfold Relay.handleUrlChange.
  destruct (Relay.getUserRoom sock st) as [room|]; [|by split].
  split.
  - by apply (covers_updateRoomUrl st).
  - by apply updateRoomUrl_index_sound.
Qed.

Lemma channel_after_close sock st k u :
  u ∈ default ∅ (((fun members : gset string => members ∖ {[sock]})
                   <$> Relay.channels st) !! k)
  <-> u ∈ Relay.channel k st /\ u <> sock.
Proof.
  unfold Relay.channel. rewrite lookup_fmap.
  destruct (Relay.channels st !! k) as [members|]; simpl.
  - rewrite elem_of_difference, elem_of_singleton. done.
  - split; [intros H; by apply not_elem_of_empty in H|].
    intros [H _]. done.
Qed.

Lemma step_disconnect sock st :
  relay_inv st ->
  let st' := Relay.on_disconnect sock st in
  rooms_satisfy (channel_covers st') (Store.mgr (Relay.store st'))
  /\ index_sound (Store.mgr (Relay.store st')).
Proof.
  intros (_ & Hcov & Hidx). unfold Relay.on_disconnect.
  rewrite handleDisconnect_store.
  cbn [Relay.store Relay.with_store Relay.connectedSockets Relay.channels
       Relay.outbox].
  rewrite mgr_after_leaveRoom. split; [|by apply leaveRoom_index_sound].
  intros k r Hr u Hu Hconn. cbn in Hconn.
  apply list_elem_of_In, filter_In in Hconn as [Hconn Hne].
  apply list_elem_of_In in Hconn.
  apply negb_true_iff, String.eqb_neq in Hne.
  unfold Relay.channel. cbn [Relay.channels].
  apply channel_after_close. split; [|done].
  by apply (covers_leaveRoom st sock _ Hcov k r Hr u Hu).
Qed.

Lemma step_heartbeat st :
  relay_inv st ->
  let st' := Relay.heartbeat st in
  rooms_satisfy (channel_covers st') (Store.mgr (Relay.store st'))
  /\ index_sound (Store.mgr (Relay.store st')).
Proof.
  intros (_ & Hcov & Hidx). unfold Relay.heartbeat. simpl. split.
  - apply (covers_cleanup st).
    apply (heartbeat_fold (rooms_satisfy (channel_covers st))); [|done].
    intros. by apply covers_updateUserActivity.
  - apply cleanup_index_sound.
    apply (heartbeat_fold index_sound); [|done].
    intros. by apply updateUserActivity_index_sound.
Qed.

Lemma step_elapse ms st :
  relay_inv st ->
  let st' := Relay.with_store (Store.elapse ms (Relay.store st)) st in
  rooms_satisfy (channel_covers st') (Store.mgr (Relay.store st'))
  /\ index_sound (Store.mgr (Relay.store st')).
Proof.
  intros (_ & Hcov & Hidx). split.
  - by apply (covers_elapse st).
  - by apply elapse_index_sound.
Qed.

(** Every reachable state of the relay satisfies its invariant. *)
Lemma reachable_relay_inv st : Relay.reachable st -> relay_inv st.
Proof.
  induction 1 as [|st msg Hst IH Hadm].
  - split_and!; intros ? ? H; [done|done|].
    cbn in H. by rewrite lookup_empty in H.
  - assert (Hid : rooms_satisfy (fun k r => Room.id r = k)
                    (Store.mgr (Relay.store st)))
      by apply reachable_room_ids, relay_store_reachable, Hst.
    split.
    { apply reachable_room_ids, relay_store_reachable.
      by constructor. }
    destruct msg; simpl.
    + split; [by apply step_connection|apply IH].
    + by apply step_create_room.
    + by apply step_join_room.
    + by apply step_leave_room.
    + unfold Relay.handleControlMessage.
      destruct (Relay.getUserRoom sock st); split; apply IH.
    + by apply step_url_change.
    + by apply step_disconnect.
    + by apply step_heartbeat.
    + by apply step_elapse.
Qed.

(** ** Broadcast of a URL change *)

(** C7, as the relay has it.  When a connected socket whose entry in the
    reverse index resolves to a room sends ['url-change'], the room's
    [currentUrl] becomes the new URL and ['url-changed'] goes to the room's
    channel, which holds every connected user of the room, the sender
    included. *)
Theorem url_change_reaches_connected_members
    (st : Relay.t) (sock url : string) (room : Room.t) :
  Relay.reachable st ->
  sock ∈ Relay.connectedSockets st ->
  Relay.getUserRoom sock st = Some room ->
  let st' := Relay.handleUrlChange sock url st in
  (exists room',
     Store.getRoom (Room.id room) (Relay.store st') = Some room'
     /\ Room.currentUrl room' = url
     /\ Room.users room' = Room.users room)
  /\ (forall member,
        member ∈ JsMap.keys (Room.users room) ->
        member ∈ Relay.connectedSockets st ->
        Relay.receives member (Relay.url_changed url sock) st st')
  /\ sock ∈ JsMap.keys (Room.users room)
  /\ Relay.receives sock (Relay.url_changed url sock) st st'.
Proof.
  intros Hreach Hconn Hroom.
  destruct (reachable_relay_inv st Hreach) as (Hid & Hcov & Hidx).
  unfold Relay.handleUrlChange. rewrite Hroom.
  apply getUserRoom_Some in Hroom as (roomId & Hindex & Hne & Hroom).
  rewrite (Hid roomId room Hroom).
  assert (Hall : forall member,
    member ∈ JsMap.keys (Room.users room) ->
    member ∈ Relay.connectedSockets st ->
    Relay.receives member (Relay.url_changed url sock) st
      (Relay.io_to_emit roomId (Relay.url_changed url sock)
         (Relay.with_store
            (snd (Store.updateRoomUrl roomId url (Relay.store st))) st))).
  { intros member Hin Hc. eexists. split; [reflexivity|]. split; [done|].
    by apply (Hcov roomId room Hroom member). }
  assert (Hmember : sock ∈ JsMap.keys (Room.users room)).
  { destruct (Hidx sock roomId Hindex) as (r & Hr & Hin). congruence. }
  split_and!; [|done|done|by apply Hall].
  unfold Store.getRoom, RoomManager.getRoom, Store.updateRoomUrl,
    RoomManager.updateRoomUrl. cbn. rewrite Hroom. cbn.
  rewrite get_set_eq. by eexists.
Qed.

Lemma url_change_reaches_connected_members_witness :
  let st := Scenario.pair_in_room in
  let st' := Relay.handleUrlChange "b" "https://example.org" st in
  (exists room',
     Store.getRoom "R" (Relay.store st') = Some room'
     /\ Room.currentUrl room' = "https://example.org")
  /\ Relay.receives "a" (Relay.url_changed "https://example.org" "b") st st'
  /\ Relay.receives "b" (Relay.url_changed "https://example.org" "b") st st'.
Proof.
  intros st st'.
  assert (Hreach : Relay.reachable st).
  { apply (admissible_run_reachable _ Relay.init); [constructor|].
    vm_compute. reflexivity. }
  assert (Hb : "b" ∈ Relay.connectedSockets st).
  { apply (bool_decide_unpack _). vm_compute. exact I. }
  assert (Ha : "a" ∈ Relay.connectedSockets st).
  { apply (bool_decide_unpack _). vm_compute. exact I. }
  destruct (url_change_reaches_connected_members st "b" "https://example.org"
              _ Hreach Hb eq_refl) as ((room' & Hr & Hurl & _) & Hall & _ & Hs).
  split; [by exists room'|]. split; [|exact Hs].
  apply Hall; [|exact Ha].
  apply (bool_decide_unpack _). vm_compute. exact I.
Defined.

(** C7 as stated fails for a socket that joined two rooms.  Socket [h]
    joined room [A] and then room [B]; its user record in [A] is never
    refreshed, so after half an hour the sweep removes it from [A] and
    deletes the index entry of [h], which pointed to [B].  From then on [h]
    is a connected user of [B] whose ['url-change'] changes nothing and is
    sent to nobody. *)
Lemma url_change_dropped_counterexample :
  let st := Scenario.after_half_hour in
  let st' := Relay.handle (Relay.url_change "h" "https://example.org") st in
  Relay.reachable st
  /\ "h" ∈ Relay.connectedSockets st
  /\ (exists room,
        Store.getRoom "B" (Relay.store st) = Some room
        /\ JsMap.keys (Room.users room) = ["h"]
        /\ Store.getRoom "B" (Relay.store st') = Some room
        /\ Room.currentUrl room = "https://www.google.com")
  /\ Relay.outbox st' = Relay.outbox st.
Proof.
  split_and!.
  - apply (admissible_run_reachable _ Relay.init); [constructor|].
    vm_compute. reflexivity.
  - apply (bool_decide_unpack _). vm_compute. exact I.
  - eexists. split; [vm_compute; reflexivity|]. split; [reflexivity|].
    split; [vm_compute; reflexivity|reflexivity].
  - vm_compute. reflexivity.
Qed.

(** The same run is how C1 fails behind the relay, where the heartbeat
    keeps every connected user fresh in the room the index names: room [A]
    is left with the guest alone, who is not host. *)
Lemma relay_sweep_leaves_room_without_host :
  Relay.reachable Scenario.after_half_hour
  /\ exists room,
       Store.getRoom "A" (Relay.store Scenario.after_half_hour) = Some room
       /\ JsMap.keys (Room.users room) = ["g"]
       /\ host_count room = 0%nat.
Proof.
  split.
  - apply (admissible_run_reachable _ Relay.init); [constructor|].
    vm_compute. reflexivity.
  - eexists. split; [vm_compute; reflexivity|]. split; reflexivity.
Qed.

(** ** Explicit departure *)

(** The half of C2 that holds: after ['leave-room'] every other connected
    user of the room is sent ['user-left'] with the list that remains. *)
Lemma leave_room_notifies_remaining st sock room :
  Relay.reachable st ->
  Relay.getUserRoom sock st = Some room ->
  let st' := Relay.handleLeaveRoom sock st in
  forall member,
    member ∈ JsMap.keys (Room.users room) -> member <> sock ->
    member ∈ Relay.connectedSockets st ->
    Relay.receives member
      (Relay.user_left sock (Relay.getRoomUsers (Room.id room) st')) st st'.
Proof.
  intros Hreach Hroom.
  destruct (reachable_relay_inv st Hreach) as (Hid & Hcov & _).
  unfold Relay.handleLeaveRoom. rewrite Hroom.
  apply getUserRoom_Some in Hroom as (roomId & _ & _ & Hroom).
  rewrite (Hid roomId room Hroom).
  intros member Hin Hne Hconn.
  eexists. split; [reflexivity|]. split; [reflexivity|].
  cbn [Relay.recipients]. rewrite channel_socket_leave.
  rewrite decide_True by done.
  apply elem_of_difference. split.
  - apply elem_of_difference. split.
    + by apply (Hcov roomId room Hroom member).
    + by intros ->%elem_of_singleton.
  - by intros ->%elem_of_singleton.
Qed.

(** * Further properties of the store *)

(** ** Creating and joining *)

(** X1. [createRoom] never fails: the room it returns is stored under the
    fresh id, has no users, the default URL and the requested capacity
    (ten when none is given); every other room, the reverse index and the
    timers are as before. *)
Theorem createRoom_then_getRoom
    (uuid name : string) (password : option string) (maxUsers : option Z)
    (s : Store.t) :
  let r := Store.createRoom uuid name password maxUsers s in
  Store.getRoom uuid (snd r) = Some (fst r)
  /\ Room.id (fst r) = uuid
  /\ Room.users (fst r) = []
  /\ Room.currentUrl (fst r) = "https://www.google.com"
  /\ Room.maxUsers (fst r) = default 10 maxUsers
  /\ Room.createdAt (fst r) = Store.clock s
  /\ (forall k, k <> uuid -> Store.getRoom k (snd r) = Store.getRoom k s)
  /\ RoomManager.userToRoom (Store.mgr (snd r))
     = RoomManager.userToRoom (Store.mgr s)
  /\ Store.timers (snd r) = Store.timers s.
Proof.
  unfold Store.getRoom, RoomManager.getRoom. simpl.
  rewrite get_set_eq. split_and!; try done.
  intros k Hk. by rewrite get_set_ne.
Qed.

Lemma passes_all_checks room userId password :
  JoinSpec.first_failing_check (Some room) userId password = None ->
  truthy (Room.password room) && strict_neq (Room.password room) password
  = false
  /\ (Room.maxUsers room <=? JsMap.size (Room.users room)) = false
  /\ JsMap.get userId (Room.users room) = None.
Proof.
  unfold JoinSpec.first_failing_check. simpl.
  unfold JoinSpec.has_password.
  destruct (truthy (Room.password room)
            && strict_neq (Room.password room) password); [done|].
  destruct (Room.maxUsers room <=? JsMap.size (Room.users room)); [done|].
  destruct (JsMap.has userId (Room.users room)) eqn:Hhas; [done|].
  intros _. by apply has_false in Hhas.
Qed.

(** X2. A [joinRoom] that passes every check appends the user to the
    room, as host exactly when the room was empty, stamps the user and the
    room with the current time, and makes [getUserRoom] resolve the user
    to the room; the other rooms are untouched. *)
Theorem joinRoom_success
    (roomId userId userName : string) (password : option string)
    (s : Store.t) (room : Room.t) :
  Store.getRoom roomId s = Some room ->
  JoinSpec.first_failing_check (Some room) userId password = None ->
  let r := Store.joinRoom roomId userId userName password s in
  exists room' user,
    fst r = RoomManager.mkJoin true (Some room') None
    /\ Store.getRoom roomId (snd r) = Some room'
    /\ Room.users room' = (Room.users room ++ [(userId, user)])%list
    /\ user = User.mk userId userName (bool_decide (Room.users room = []))
                      (Store.clock s) (Store.clock s)
    /\ Room.lastActivity room' = Store.clock s
    /\ Room.currentUrl room' = Room.currentUrl room
    /\ (roomId <> "" ->
        RoomManager.getUserRoom userId (Store.mgr (snd r)) = Some room')
    /\ (forall k, k <> roomId ->
          Store.getRoom k (snd r) = Store.getRoom k s).
Proof.
  intros Hroom Hcheck.
  apply passes_all_checks in Hcheck as (Hpw & Hcap & Hhas).
  destruct s as [m c ts].
  unfold Store.getRoom, RoomManager.getRoom in *. simpl in Hroom.
  unfold Store.joinRoom, RoomManager.joinRoom, RoomManager.getUserRoom.
  cbn [Store.mgr Store.clock fst snd]. rewrite Hroom, Hpw, Hcap.
  assert (Hh : JsMap.has userId (Room.users room) = false)
    by by apply has_false.
  rewrite Hh. cbn [fst snd Store.mgr RoomManager.rooms RoomManager.userToRoom].
  do 2 eexists. split; [reflexivity|]. rewrite get_set_eq.
  split; [reflexivity|]. cbn [Room.users Room.with_users Room.with_lastActivity].
  split; [by rewrite (set_absent _ _ _ Hhas)|].
  split.
  { f_equal. unfold JsMap.size. destruct (Room.users room); [done|].
    rewrite bool_decide_eq_false_2 by done. by apply Z.eqb_neq. }
  split; [done|]. split; [done|]. split.
  - intros Hne. rewrite lookup_insert_eq.
    apply String.eqb_neq in Hne. rewrite Hne. by rewrite get_set_eq.
  - intros k Hk. by rewrite get_set_ne.
Qed.

Lemma joinRoom_success_witness :
  exists room' user,
    fst (Store.joinRoom "R" "dave" "Dave" None Scenario.three_users)
    = RoomManager.mkJoin true (Some room') None
    /\ Store.getRoom "R"
         (snd (Store.joinRoom "R" "dave" "Dave" None Scenario.three_users))
       = Some room'
    /\ JsMap.keys (Room.users room') = ["alice"; "bob"; "carol"; "dave"]
    /\ User.isHost user = false.
Proof.
  destruct (joinRoom_success "R" "dave" "Dave" None Scenario.three_users
              _ eq_refl eq_refl)
    as (room' & user & H1 & H2 & H3 & H4 & _).
  exists room', user. split; [exact H1|]. split; [exact H2|].
  split; [by rewrite H3|]. by rewrite H4.
Defined.

(** ** Leaving *)

Lemma delete_absent {V} k (m : JsMap.t V) :
  JsMap.get k m = None -> JsMap.delete k m = m.
Proof.
  induction m as [|[k' v'] m IH]; simpl; [done|].
  destruct (String.eqb k k'); [done|]. intros H. by rewrite IH.
Qed.

Lemma delete_app {V} k (m1 m2 : JsMap.t V) :
  JsMap.delete k (m1 ++ m2)%list
  = (JsMap.delete k m1 ++ JsMap.delete k m2)%list.
Proof.
  induction m1 as [|[k' v'] m1 IH]; simpl; [done|].
  destruct (String.eqb k k'); simpl; by rewrite IH.
Qed.

Lemma keys_delete_filter {V} k (m : JsMap.t V) :
  JsMap.keys (JsMap.delete k m)
  = List.filter (fun k' => negb (String.eqb k k')) (JsMap.keys m).
Proof.
  induction m as [|[k' v'] m IH]; simpl; [done|].
  destruct (String.eqb k k'); simpl; by rewrite IH.
Qed.

(** X3. [leaveRoom] of a user that an entry of the reverse index places in
    an existing room returns [true], takes the user out of the room (the
    others stay, in their order) and out of the index, so that
    [getUserRoom] no longer resolves it; a timer for the room is registered
    exactly when the room is left empty; the other rooms and the other
    index entries are untouched. *)
Theorem leaveRoom_removes_member
    (userId roomId : string) (room : Room.t) (s : Store.t) :
  RoomManager.userToRoom (Store.mgr s) !! userId = Some roomId ->
  roomId <> "" ->
  Store.getRoom roomId s = Some room ->
  let r := Store.leaveRoom userId s in
  fst r = true
  /\ RoomManager.getUserRoom userId (Store.mgr (snd r)) = None
  /\ (exists room',
        Store.getRoom roomId (snd r) = Some room'
        /\ JsMap.keys (Room.users room')
           = List.filter (fun k => negb (String.eqb userId k))
                         (JsMap.keys (Room.users room))
        /\ Store.timers (snd r)
           = if bool_decide (Room.users room' = [])
             then (Store.timers s
                   ++ [(Store.clock s + 300000, roomId)])%list
             else Store.timers s)
  /\ (forall k, k <> roomId -> Store.getRoom k (snd r) = Store.getRoom k s)
  /\ (forall u, u <> userId ->
        RoomManager.userToRoom (Store.mgr (snd r)) !! u
        = RoomManager.userToRoom (Store.mgr s) !! u).
Proof.
  intros Hindex Hne Hroom.
  pose proof (getUserRoom_after_leaveRoom userId (Store.mgr s)) as Hgone.
  rewrite <- mgr_after_leaveRoom in Hgone.
  destruct s as [m c ts].
  unfold Store.getRoom, RoomManager.getRoom in *. simpl in Hroom, Hindex.
  revert Hgone. unfold Store.leaveRoom, RoomManager.leaveRoom.
  cbn [Store.mgr Store.clock Store.timers].
  apply String.eqb_neq in Hne. rewrite Hindex, Hne, Hroom.
  destruct (JsMap.size (JsMap.delete userId (Room.users room)) =? 0)
    eqn:Hsize; cbn [fst snd Store.mgr Store.timers RoomManager.rooms
                    RoomManager.userToRoom]; intros Hgone.
  - apply Z.eqb_eq, size_zero in Hsize.
    split_and!; [done|done| |intros k Hk; by rewrite get_set_ne
                |intros u Hu; by rewrite lookup_delete_ne].
    eexists. rewrite get_set_eq. split; [reflexivity|].
    cbn [Room.users Room.with_users]. rewrite keys_delete_filter.
    split; [done|]. rewrite Hsize. by rewrite bool_decide_eq_true_2.
  - apply Z.eqb_neq in Hsize.
    split_and!; [done|done| |intros k Hk; by rewrite get_set_ne
                |intros u Hu; by rewrite lookup_delete_ne].
    eexists. rewrite get_set_eq. split; [reflexivity|].
    cbn [Room.users Room.with_users].
    rewrite keys_update_host, keys_delete_filter. split; [done|].
    rewrite bool_decide_eq_false_2; [done|].
    intros Hnil. apply Hsize.
    assert (Hk : JsMap.keys (RoomManager.update_host
                   (JsMap.delete userId (Room.users room))) = [])
      by by rewrite Hnil.
    rewrite keys_update_host in Hk.
    destruct (JsMap.delete userId (Room.users room)); done.
Qed.

Lemma leaveRoom_removes_member_witness :
  let r := Store.leaveRoom "bob" Scenario.three_users in
  fst r = true
  /\ RoomManager.getUserRoom "bob" (Store.mgr (snd r)) = None
  /\ exists room',
       Store.getRoom "R" (snd r) = Some room'
       /\ JsMap.keys (Room.users room') = ["alice"; "carol"].
Proof.
  destruct (leaveRoom_removes_member "bob" "R" _ Scenario.three_users
              eq_refl ltac:(discriminate) eq_refl)
    as (H1 & H2 & (room' & H3 & H4 & _) & _).
  split; [exact H1|]. split; [exact H2|]. exists room'. by split.
Defined.

(** X4. Joining and leaving again undoes the join: for a room that is
    empty or has a host, a successful [joinRoom] followed by [leaveRoom]
    of the same user leaves the room with the users it had, and the user
    without an index entry. *)
Theorem join_then_leave_restores_users
    (roomId userId userName : string) (password : option string)
    (s : Store.t) (room : Room.t) :
  Store.getRoom roomId s = Some room ->
  roomId <> "" ->
  JoinSpec.first_failing_check (Some room) userId password = None ->
  (Room.users room = []
   \/ existsb User.isHost (JsMap.values (Room.users room)) = true) ->
  let joined := snd (Store.joinRoom roomId userId userName password s) in
  let left := Store.leaveRoom userId joined in
  fst left = true
  /\ RoomManager.userToRoom (Store.mgr (snd left)) !! userId = None
  /\ exists room',
       Store.getRoom roomId (snd left) = Some room'
       /\ Room.users room' = Room.users room.
Proof.
  intros Hroom Hne Hcheck Hhost.
  apply passes_all_checks in Hcheck as (Hpw & Hcap & Hhas).
  destruct s as [m c ts].
  unfold Store.getRoom, RoomManager.getRoom in *. simpl in Hroom.
  unfold Store.joinRoom, RoomManager.joinRoom.
  cbn [Store.mgr Store.clock fst snd]. rewrite Hroom, Hpw, Hcap.
  assert (Hh : JsMap.has userId (Room.users room) = false)
    by by apply has_false.
  rewrite Hh. cbn [fst snd].
  unfold Store.leaveRoom, RoomManager.leaveRoom.
  cbn [Store.mgr Store.clock Store.timers RoomManager.rooms
       RoomManager.userToRoom].
  rewrite lookup_insert_eq. apply String.eqb_neq in Hne. rewrite Hne.
  rewrite get_set_eq. cbn [Room.users Room.with_users Room.with_lastActivity].
  rewrite (set_absent _ _ _ Hhas), delete_app, (delete_absent _ _ Hhas).
  simpl JsMap.delete. rewrite String.eqb_refl, app_nil_r.
  destruct (JsMap.size (Room.users room) =? 0) eqn:Hsize;
    cbn [fst snd Store.mgr RoomManager.rooms RoomManager.userToRoom].
  - apply Z.eqb_eq, size_zero in Hsize.
    split; [done|]. split; [by rewrite lookup_delete_eq|].
    eexists. rewrite get_set_eq. split; [reflexivity|]. by rewrite Hsize.
  - split; [done|]. split; [by rewrite lookup_delete_eq|].
    eexists. rewrite get_set_eq. split; [reflexivity|].
    cbn [Room.users Room.with_users]. unfold RoomManager.update_host.
    destruct Hhost as [Hnil|Hex].
    + rewrite Hnil in Hsize. done.
    + by rewrite Hex, andb_false_r.
Qed.

Lemma join_then_leave_restores_users_witness :
  let joined :=
    snd (Store.joinRoom "R" "dave" "Dave" None Scenario.three_users) in
  let left := Store.leaveRoom "dave" joined in
  fst left = true
  /\ exists room',
       Store.getRoom "R" (snd left) = Some room'
       /\ JsMap.keys (Room.users room') = ["alice"; "bob"; "carol"].
Proof.
  destruct (join_then_leave_restores_users "R" "dave" "Dave" None
              Scenario.three_users _ eq_refl ltac:(discriminate) eq_refl
              ltac:(right; reflexivity))
    as (H1 & _ & room' & H2 & H3).
  split; [exact H1|]. exists room'. split; [exact H2|]. by rewrite H3.
Defined.

(** ** Invariants of the store *)

Lemma host_count_touch k t u us :
  JsMap.get k us = Some u ->
  length (List.filter User.isHost
            (JsMap.values (JsMap.set k (User.with_lastActivity t u) us)))
  = length (List.filter User.isHost (JsMap.values us)).
Proof.
  induction us as [|[k' u'] us IH]; simpl; [done|].
  destruct (String.eqb k k'); simpl.
  - intros [= ->]. by destruct (User.isHost u).
  - intros H. destruct (User.isHost u'); simpl; auto.
Qed.

Lemma updateUserActivity_keeps_single_host now userId m :
  rooms_satisfy (fun _ r => single_host r) m ->
  rooms_satisfy (fun _ r => single_host r)
    (RoomManager.updateUserActivity now userId m).
Proof.
  intros Hm. destruct m as [rooms index].
  unfold RoomManager.updateUserActivity; simpl.
  destruct (index !! userId) as [roomId|]; [|done].
  destruct (String.eqb roomId ""); [done|].
  destruct (JsMap.get roomId rooms) as [room|] eqn:Hroom; [|done].
  intros k r. simpl. destruct (decide (roomId = k)) as [<-|Hne].
  - rewrite get_set_eq. intros [= <-].
    pose proof (Hm roomId room Hroom) as Hone.
    unfold single_host, host_count in *.
    cbn [Room.users Room.with_users Room.with_lastActivity].
    destruct (JsMap.get userId (Room.users room)) as [user|] eqn:Huser;
      [|done].
    rewrite (host_count_touch _ _ _ _ Huser). intros Hnil. apply Hone.
    intros E. rewrite E in Huser. done.
  - rewrite get_set_ne by done. apply Hm.
Qed.

Lemma call_keeps_single_host c s :
  c <> Store.Cleanup ->
  rooms_satisfy (fun _ r => single_host r) (Store.mgr s) ->
  rooms_satisfy (fun _ r => single_host r) (Store.mgr (Store.call c s)).
Proof.
  intros Hc Hm. destruct c; simpl.
  - apply (createRoom_satisfy (fun _ _ r => single_host r)); [|done].
    intros ? ? ? ? ? H. by destruct H.
  - by apply joinRoom_keeps_single_host.
  - rewrite mgr_after_leaveRoom. by apply leaveRoom_keeps_single_host.
  - by apply (updateRoomUrl_satisfy (fun _ _ r => single_host r)
                (fun _ _ _ _ H => H) (fun _ _ _ _ H => H) 0).
  - by apply updateUserActivity_keeps_single_host.
  - done.
  - by apply (elapse_satisfy (fun _ _ r => single_host r)
                (fun _ _ _ _ _ H => H)).
Qed.

(** X5. As long as [cleanup] is not called, every room that has users has
    exactly one host: [createRoom], [joinRoom], [leaveRoom],
    [updateRoomUrl], [updateUserActivity] and the timers all keep it. *)
Theorem single_host_without_cleanup (cs : list Store.Call) :
  Forall (fun c => c <> Store.Cleanup) cs ->
  forall roomId room,
    Store.getRoom roomId (Store.run cs Store.init) = Some room ->
    single_host room.
Proof.
  intros Hcs.
  assert (H : rooms_satisfy (fun _ r => single_host r)
                (Store.mgr (Store.run cs Store.init))).
  { assert (H0 : rooms_satisfy (fun _ r => single_host r)
                   (Store.mgr Store.init)) by (intros k r H; done).
    revert H0. generalize Store.init as s.
    induction Hcs as [|c cs Hc _ IH]; intros s Hs; simpl; [done|].
    apply IH. by apply call_keeps_single_host. }
  intros roomId room Hroom. by apply (H roomId room).
Qed.

Lemma single_host_without_cleanup_witness :
  exists room,
    Store.getRoom "R" Scenario.three_users = Some room
    /\ Room.users room <> []
    /\ host_count room = 1%nat.
Proof.
  eexists. split; [reflexivity|]. split; [discriminate|].
  apply (single_host_without_cleanup
           [Store.CreateRoom "R" "room" None None;
            Store.JoinRoom "R" "alice" "Alice" None;
            Store.Elapse 1000;
            Store.JoinRoom "R" "bob" "Bob" None;
            Store.Elapse 1000;
            Store.JoinRoom "R" "carol" "Carol" None]
           ltac:(repeat constructor; discriminate) "R");
    [reflexivity|discriminate].
Defined.

Lemma NoDup_keys_sublist (us1 us2 : JsMap.t User.t) :
  us1 `sublist_of` us2 -> NoDup (JsMap.keys us2) -> NoDup (JsMap.keys us1).
Proof.
  intros Hs Hnd. eapply sublist_NoDup; [exact Hnd|]. by apply fmap_sublist.
Qed.

Lemma users_keyed_touch k t u (us : JsMap.t User.t) :
  JsMap.get k us = Some u ->
  Forall (fun e => User.id e.2 = e.1) us ->
  Forall (fun e => User.id e.2 = e.1)
         (JsMap.set k (User.with_lastActivity t u) us).
Proof.
  induction us as [|[k' u'] us IH]; simpl; [done|].
  destruct (String.eqb_spec k k') as [->|Hk]; simpl.
  - intros [= ->] H. inversion H; subst. by constructor.
  - intros Hu H. inversion H; subst. constructor; auto.
Qed.

Lemma reachable_users_keyed s :
  Store.reachable s ->
  rooms_satisfy (fun _ r => users_keyed r) (Store.mgr s).
Proof.
  apply (reachable_satisfy (fun _ _ r => users_keyed r));
    unfold users_keyed; simpl; try done.
  - intros c k r us [Hnd Hid] Hs. split.
    + by eapply NoDup_keys_sublist.
    + by eapply Forall_sublist'.
  - intros c k r [Hnd Hid]. rewrite keys_promote_first. split; [done|].
    destruct (Room.users r) as [|[k0 u0] us]; simpl; [done|].
    inversion Hid; subst. by constructor.
  - intros c k r uid u t [Hnd Hid] Hu.
    rewrite (keys_set_present _ _ _ _ Hu). split; [done|].
    by apply users_keyed_touch.
  - intros. split; constructor.
  - intros c k r uid uname [Hnd Hid] _ Hu. rewrite keys_app. split.
    + apply NoDup_app. split_and!; [done| |apply NoDup_singleton].
      intros x Hx ->%list_elem_of_singleton.
      by apply get_None_key in Hu.
    + apply Forall_app. split; [done|]. by repeat constructor.
Qed.

(** X6. In every reachable state the users of a room are stored under
    their own ids, each id once, and listed in the order of their
    [joinedAt]. *)
Theorem users_keyed_and_ordered (s : Store.t) (roomId : string)
    (room : Room.t) :
  Store.reachable s ->
  Store.getRoom roomId s = Some room ->
  NoDup (JsMap.keys (Room.users room))
  /\ Forall (fun e => User.id (snd e) = fst e) (Room.users room)
  /\ StronglySorted Z.le (User.joinedAt <$> JsMap.values (Room.users room)).
Proof.
  intros Hreach Hroom.
  destruct (reachable_users_keyed s Hreach roomId room Hroom) as [H1 H2].
  destruct (reachable_joined_in_order s Hreach roomId room Hroom) as [H3 _].
  done.
Qed.

Lemma users_keyed_and_ordered_witness :
  exists room,
    Store.getRoom "R" Scenario.three_users = Some room
    /\ NoDup (JsMap.keys (Room.users room))
    /\ Forall (fun e => User.id (snd e) = fst e) (Room.users room)
    /\ StronglySorted Z.le (User.joinedAt <$> JsMap.values (Room.users room)).
Proof.
  eexists. split; [reflexivity|].
  apply (users_keyed_and_ordered Scenario.three_users "R");
    [by eexists|reflexivity].
Defined.

(** ** The sweep *)

Lemma delete_not_elem {V} k (v : V) (m : JsMap.t V) :
  (k, v) ∉ JsMap.delete k m.
Proof.
  intros H. assert (Hk : k ∈ JsMap.keys (JsMap.delete k m)).
  { unfold JsMap.keys. apply list_elem_of_fmap. by exists (k, v). }
  apply keys_delete in Hk. by destruct Hk.
Qed.

Lemma sweep_fold_fresh now (l : JsMap.t User.t)
    (acc : JsMap.t User.t * gmap string string) e :
  let swept :=
    fold_left
      (fun acc entry =>
         if RoomManager.stale now (User.lastActivity (snd entry))
         then (JsMap.delete (fst entry) (fst acc), delete (fst entry) (snd acc))
         else acc)
      l acc in
  e ∈ fst swept ->
  e ∈ fst acc
  /\ (e ∈ l -> RoomManager.stale now (User.lastActivity (snd e)) = false).
Proof.
  revert acc. induction l as [|x l IH]; intros acc; simpl.
  - intros H. split; [done|]. intros Hin. by apply elem_of_nil in Hin.
  - intros H. apply IH in H as [Hacc Hl].
    destruct (RoomManager.stale now (User.lastActivity x.2)) eqn:Hx.
    + simpl in Hacc. split.
      * eapply elem_of_sublist; [exact Hacc|apply delete_sublist].
      * intros [->|Hin]%elem_of_cons; [|auto].
        destruct x as [k v]. by apply delete_not_elem in Hacc.
    + split; [done|]. intros [->|Hin]%elem_of_cons; [done|auto].
Qed.

Lemma sweep_users_fresh now us index :
  Forall (fun u => RoomManager.stale now (User.lastActivity u) = false)
         (JsMap.values (fst (RoomManager.sweep_users now us index))).
Proof.
  apply Forall_forall. intros u Hu.
  apply list_elem_of_fmap in Hu as (e & -> & He).
  apply (sweep_fold_fresh now us (us, index)) in He as [Hin Hfresh]. auto.
Qed.

Lemma sweep_room_other now m entry k :
  k <> fst entry ->
  JsMap.get k (RoomManager.rooms (RoomManager.sweep_room now m entry))
  = JsMap.get k (RoomManager.rooms m).
Proof.
  intros Hk. unfold RoomManager.sweep_room.
  destruct (JsMap.get entry.1 (RoomManager.rooms m)); [|done].
  destruct (_ && _); simpl.
  - by rewrite get_delete_ne.
  - by rewrite get_set_ne.
Qed.

Lemma sweep_room_swept now m entry r :
  JsMap.get (fst entry)
    (RoomManager.rooms (RoomManager.sweep_room now m entry)) = Some r ->
  swept now r.
Proof.
  unfold RoomManager.sweep_room.
  destruct (JsMap.get entry.1 (RoomManager.rooms m)) as [room|] eqn:Hroom;
    [|by rewrite Hroom].
  destruct (_ && _) eqn:Hdel; simpl.
  - by rewrite get_delete_eq.
  - rewrite get_set_eq. intros [= <-]. split.
    + apply sweep_users_fresh.
    + cbn [Room.users Room.with_users Room.lastActivity] in *.
      intros [Hnil Hstale]. rewrite Hnil, Hstale in Hdel. done.
Qed.

Lemma cleanup_fold_swept now l m :
  let m' := fold_left (RoomManager.sweep_room now) l m in
  forall k r,
    JsMap.get k (RoomManager.rooms m') = Some r ->
    (k ∈ JsMap.keys l \/ exists r0, JsMap.get k (RoomManager.rooms m) = Some r0
                                     /\ swept now r0) ->
    swept now r.
Proof.
  revert m. induction l as [|e l IH]; intros m; simpl.
  - intros k r Hr [Hin|(r0 & Hr0 & Hs)]; [by apply elem_of_nil in Hin|].
    congruence.
  - intros k r Hr Hk. apply (IH _ k r Hr).
    destruct (decide (k = e.1)) as [->|Hne].
    + right. destruct (JsMap.get e.1
                (RoomManager.rooms (RoomManager.sweep_room now m e)))
        as [r1|] eqn:Hr1.
      * exists r1. split; [done|]. by eapply sweep_room_swept.
      * exfalso. clear IH Hk. revert Hr1 Hr.
        generalize (RoomManager.sweep_room now m e) as m1.
        induction l as [|e' l IHl]; intros m1 Hnone; simpl; [congruence|].
        apply IHl. unfold RoomManager.sweep_room.
        destruct (JsMap.get e'.1 (RoomManager.rooms m1)) as [room|] eqn:Hroom;
          [|done].
        destruct (decide (e'.1 = e.1)) as [Heq|Hne]; [congruence|].
        destruct (_ && _); simpl.
        -- by rewrite get_delete_ne.
        -- by rewrite get_set_ne.
    + destruct Hk as [Hin|(r0 & Hr0 & Hs)].
      * left. by apply elem_of_cons in Hin as [?|?].
      * right. exists r0. by rewrite sweep_room_other.
Qed.

Lemma cleanup_only_shrinks now m k r :
  JsMap.get k (RoomManager.rooms (RoomManager.cleanup now m)) = Some r ->
  exists r0, JsMap.get k (RoomManager.rooms m) = Some r0.
Proof.
  unfold RoomManager.cleanup. generalize (RoomManager.rooms m) at 1 as l.
  intros l. revert m. induction l as [|e l IH]; intros m; simpl; [eauto|].
  intros H. apply IH in H as [r0 Hr0].
  destruct (decide (k = e.1)) as [->|Hne].
  - revert Hr0. unfold RoomManager.sweep_room.
    destruct (JsMap.get e.1 (RoomManager.rooms m)) eqn:E; [eauto|].
    intros H. congruence.
  - rewrite sweep_room_other in Hr0 by done. eauto.
Qed.

(** X7. What [cleanup] leaves behind: no room holds a user whose last
    activity is more than thirty minutes old, and no room is both empty
    and inactive for more than thirty minutes. *)
Theorem cleanup_leaves_rooms_swept (s : Store.t) (roomId : string)
    (room : Room.t) :
  Store.getRoom roomId (Store.cleanup s) = Some room ->
  Forall (fun u => Store.clock s - User.lastActivity u <= 30 * 60 * 1000)
         (JsMap.values (Room.users room))
  /\ (Room.users room = [] ->
      Store.clock s - Room.lastActivity room <= 30 * 60 * 1000).
Proof.
  unfold Store.getRoom, RoomManager.getRoom, Store.cleanup.
  cbn [Store.mgr]. intros Hroom.
  assert (Hs : swept (Store.clock s) room).
  { apply (cleanup_fold_swept (Store.clock s)
             (RoomManager.rooms (Store.mgr s)) (Store.mgr s) roomId room
             Hroom).
    left. apply cleanup_only_shrinks in Hroom as [r0 Hr0].
    by eapply get_Some_key. }
  destruct Hs as [Husers Hroom']. split.
  - eapply Forall_impl; [exact Husers|]. simpl. intros u Hu.
    unfold RoomManager.stale, RoomManager.INACTIVITY_TIMEOUT in Hu.
    apply Z.ltb_ge in Hu. lia.
  - intros Hnil.
    destruct (RoomManager.stale (Store.clock s) (Room.lastActivity room))
      eqn:Hst.
    + destruct Hroom'. done.
    + unfold RoomManager.stale, RoomManager.INACTIVITY_TIMEOUT in Hst.
      apply Z.ltb_ge in Hst. lia.
Qed.

Lemma cleanup_leaves_rooms_swept_witness :
  exists room,
    Store.getRoom "R"
      (Store.cleanup (Store.run (take 5 Scenario.idle_host) Store.init))
    = Some room
    /\ Forall (fun u => 1860000 - User.lastActivity u <= 30 * 60 * 1000)
              (JsMap.values (Room.users room)).
Proof.
  eexists. split; [reflexivity|].
  apply (cleanup_leaves_rooms_swept
           (Store.run (take 5 Scenario.idle_host) Store.init) "R").
  reflexivity.
Defined.

Lemma NoDup_keys_unique {V} k (v v' : V) (m : JsMap.t V) :
  NoDup (JsMap.keys m) -> JsMap.get k m = Some v -> (k, v') ∈ m -> v' = v.
Proof.
  induction m as [|[k0 v0] m IH]; simpl; [done|].
  intros Hnd. apply NoDup_cons in Hnd as [Hk0 Hnd].
  destruct (String.eqb_spec k k0) as [->|Hne].
  - intros [= ->] [Heq|Hin]%elem_of_cons; [congruence|].
    destruct Hk0. unfold JsMap.keys. apply list_elem_of_fmap.
    by exists (k0, v').
  - intros Hget [Heq|Hin]%elem_of_cons; [congruence|auto].
Qed.

Lemma sweep_fold_keeps now (l : JsMap.t User.t)
    (acc : JsMap.t User.t * gmap string string) k v :
  JsMap.get k (fst acc) = Some v ->
  (forall e, e ∈ l -> fst e = k ->
             RoomManager.stale now (User.lastActivity (snd e)) = false) ->
  JsMap.get k
    (fst (fold_left
            (fun acc entry =>
               if RoomManager.stale now (User.lastActivity (snd entry))
               then (JsMap.delete (fst entry) (fst acc),
                     delete (fst entry) (snd acc))
               else acc)
            l acc))
  = Some v.
Proof.
  revert acc. induction l as [|x l IH]; intros acc Hget Hfresh; simpl;
    [done|].
  apply IH.
  - destruct (RoomManager.stale now (User.lastActivity x.2)) eqn:Hx; [|done].
    simpl. rewrite get_delete_ne; [done|]. intros Heq.
    rewrite (Hfresh x) in Hx; [done|left|done].
  - intros e He. apply Hfresh. by right.
Qed.

Lemma sweep_users_keeps now us index k v :
  NoDup (JsMap.keys us) -> JsMap.get k us = Some v ->
  RoomManager.stale now (User.lastActivity v) = false ->
  JsMap.get k (fst (RoomManager.sweep_users now us index)) = Some v.
Proof.
  intros Hnd Hget Hfresh. apply (sweep_fold_keeps now us (us, index));
    [done|].
  intros [k' v'] He Hk. simpl in *. subst k'.
  by rewrite (NoDup_keys_unique k v v' us Hnd Hget He).
Qed.

Lemma sweep_room_keeps now m entry roomId room userId user :
  JsMap.get roomId (RoomManager.rooms m) = Some room ->
  NoDup (JsMap.keys (Room.users room)) ->
  JsMap.get userId (Room.users room) = Some user ->
  RoomManager.stale now (User.lastActivity user) = false ->
  exists room',
    JsMap.get roomId (RoomManager.rooms (RoomManager.sweep_room now m entry))
    = Some room'
    /\ NoDup (JsMap.keys (Room.users room'))
    /\ JsMap.get userId (Room.users room') = Some user.
Proof.
  intros Hroom Hnd Huser Hfresh.
  destruct (decide (roomId = entry.1)) as [->|Hne];
    [|rewrite sweep_room_other by done; eauto].
  unfold RoomManager.sweep_room. rewrite Hroom.
  pose proof (sweep_users_keeps now (Room.users room)
                (RoomManager.userToRoom m) userId user Hnd Huser Hfresh)
    as Hkept.
  destruct (_ && _) eqn:Hdel; cbn [Room.users Room.with_users] in *.
  - apply andb_true_iff in Hdel as [Hsize _].
    apply Z.eqb_eq, size_zero in Hsize. rewrite Hsize in Hkept. done.
  - simpl. rewrite get_set_eq. eexists. split; [reflexivity|]. simpl.
    split; [|done].
    eapply NoDup_keys_sublist; [apply sweep_users_sublist|done].
Qed.

Lemma cleanup_fold_keeps now l m roomId room userId user :
  RoomManager.stale now (User.lastActivity user) = false ->
  JsMap.get roomId (RoomManager.rooms m) = Some room ->
  NoDup (JsMap.keys (Room.users room)) ->
  JsMap.get userId (Room.users room) = Some user ->
  exists room',
    JsMap.get roomId
      (RoomManager.rooms (fold_left (RoomManager.sweep_room now) l m))
    = Some room'
    /\ JsMap.get userId (Room.users room') = Some user.
Proof.
  intros Hfresh. revert m room.
  induction l as [|e l IH]; intros m room Hroom Hnd Huser; simpl; [eauto|].
  destruct (sweep_room_keeps now m e roomId room userId user
              Hroom Hnd Huser Hfresh) as (room1 & H1 & H2 & H3).
  by apply (IH _ room1).
Qed.

(** X8. [cleanup] keeps the active: in a reachable state, a user whose
    last activity is at most thirty minutes old is still in the room after
    the sweep, with the same record, and the room still exists. *)
Theorem cleanup_keeps_active_user (s : Store.t) (roomId userId : string)
    (room : Room.t) (user : User.t) :
  Store.reachable s ->
  Store.getRoom roomId s = Some room ->
  JsMap.get userId (Room.users room) = Some user ->
  Store.clock s - User.lastActivity user <= 30 * 60 * 1000 ->
  exists room',
    Store.getRoom roomId (Store.cleanup s) = Some room'
    /\ JsMap.get userId (Room.users room') = Some user.
Proof.
  intros Hreach Hroom Huser Hage.
  destruct (reachable_users_keyed s Hreach roomId room Hroom) as [Hnd _].
  assert (Hfresh : RoomManager.stale (Store.clock s) (User.lastActivity user)
                   = false).
  { unfold RoomManager.stale, RoomManager.INACTIVITY_TIMEOUT.
    apply Z.ltb_ge. lia. }
  unfold Store.getRoom, RoomManager.getRoom, Store.cleanup,
    RoomManager.cleanup in *. cbn [Store.mgr].
  by apply (cleanup_fold_keeps (Store.clock s) _ _ roomId room).
Qed.

Lemma cleanup_keeps_active_user_witness :
  exists room',
    Store.getRoom "R"
      (Store.cleanup (Store.run (take 5 Scenario.idle_host) Store.init))
    = Some room'
    /\ JsMap.get "bob" (Room.users room')
       = Some (User.mk "bob" "Bob" false 1740000 1740000).
Proof.
  apply (cleanup_keeps_active_user
           (Store.run (take 5 Scenario.idle_host) Store.init) "R" "bob"
           (Room.mk "R" "room" None
              [("alice", User.mk "alice" "Alice" true 0 0);
               ("bob", User.mk "bob" "Bob" false 1740000 1740000)]
              "https://www.google.com" 0 1740000 10)).
  - by eexists.
  - reflexivity.
  - reflexivity.
  - vm_compute. discriminate.
Defined.

(** ** Timers *)

Lemma delete_if_empty_other roomId k m :
  k <> roomId ->
  JsMap.get k (RoomManager.rooms (RoomManager.delete_if_empty roomId m))
  = JsMap.get k (RoomManager.rooms m).
Proof.
  intros Hk. unfold RoomManager.delete_if_empty.
  destruct (JsMap.get roomId (RoomManager.rooms m)); [|done].
  destruct (_ =? 0); [|done]. simpl. by rewrite get_delete_ne.
Qed.

Lemma fired_keep_occupied (fired : list Store.Timer) m roomId room :
  JsMap.get roomId (RoomManager.rooms m) = Some room ->
  Room.users room <> [] ->
  JsMap.get roomId
    (RoomManager.rooms
       (fold_left (fun m tm => RoomManager.delete_if_empty (snd tm) m)
                  fired m))
  = Some room.
Proof.
  revert m. induction fired as [|tm fired IH]; intros m Hroom Hne; simpl;
    [done|].
  apply IH; [|done].
  destruct (decide (roomId = tm.2)) as [<-|Hk].
  - by rewrite (timer_spares_occupied_room roomId m room).
  - by rewrite delete_if_empty_other.
Qed.

Lemma fired_keep_index (fired : list Store.Timer) m :
  RoomManager.userToRoom
    (fold_left (fun m tm => RoomManager.delete_if_empty (snd tm) m) fired m)
  = RoomManager.userToRoom m.
Proof.
  revert m. induction fired as [|tm fired IH]; intros m; simpl; [done|].
  rewrite IH. unfold RoomManager.delete_if_empty.
  destruct (JsMap.get tm.2 (RoomManager.rooms m)); [|done].
  by destruct (_ =? 0).
Qed.

Lemma elapse_spares_occupied_rooms_aux ms s roomId room :
  Store.getRoom roomId s = Some room ->
  Room.users room <> [] ->
  Store.getRoom roomId (Store.elapse ms s) = Some room.
Proof.
  intros Hroom Hne. unfold Store.getRoom, RoomManager.getRoom, Store.elapse.
  cbn [Store.mgr]. by apply fired_keep_occupied.
Qed.

(** X9. The passing of time never touches a room that has users, nor the
    reverse index: whatever timers run, such a room is afterwards exactly
    as it was, and the clock has not gone back. *)
Theorem elapse_spares_occupied_rooms (ms : Z) (s : Store.t)
    (roomId : string) (room : Room.t) :
  Store.getRoom roomId s = Some room ->
  Room.users room <> [] ->
  Store.getRoom roomId (Store.elapse ms s) = Some room
  /\ RoomManager.userToRoom (Store.mgr (Store.elapse ms s))
     = RoomManager.userToRoom (Store.mgr s)
  /\ Store.clock s <= Store.clock (Store.elapse ms s).
Proof.
  intros Hroom Hne. unfold Store.getRoom, RoomManager.getRoom, Store.elapse.
  cbn [Store.mgr Store.clock]. split_and!.
  - by apply fired_keep_occupied.
  - apply fired_keep_index.
  - lia.
Qed.

Lemma elapse_spares_occupied_rooms_witness :
  exists room,
    Store.getRoom "R" Scenario.three_users = Some room
    /\ Store.getRoom "R" (Store.elapse 86400000 Scenario.three_users)
       = Some room.
Proof.
  eexists. split; [reflexivity|].
  apply (elapse_spares_occupied_rooms 86400000 Scenario.three_users "R");
    [reflexivity|discriminate].
Defined.

Lemma fired_keep_empty_or_gone (fired : list Store.Timer) m roomId :
  (JsMap.get roomId (RoomManager.rooms m) = None
   \/ exists room, JsMap.get roomId (RoomManager.rooms m) = Some room
                   /\ Room.users room = []) ->
  let m' :=
    fold_left (fun m tm => RoomManager.delete_if_empty (snd tm) m) fired m in
  JsMap.get roomId (RoomManager.rooms m') = None
  \/ exists room, JsMap.get roomId (RoomManager.rooms m') = Some room
                  /\ Room.users room = [].
Proof.
  revert m. induction fired as [|tm fired IH]; intros m H; simpl; [done|].
  apply IH. destruct (decide (roomId = tm.2)) as [<-|Hk].
  - unfold RoomManager.delete_if_empty.
    destruct H as [Hnone|(room & Hroom & Hnil)].
    + rewrite Hnone. by left.
    + rewrite Hroom, Hnil. simpl. left. apply get_delete_eq.
  - by rewrite delete_if_empty_other.
Qed.

Lemma delete_if_empty_gone roomId m :
  (JsMap.get roomId (RoomManager.rooms m) = None
   \/ exists room, JsMap.get roomId (RoomManager.rooms m) = Some room
                   /\ Room.users room = []) ->
  JsMap.get roomId (RoomManager.rooms (RoomManager.delete_if_empty roomId m))
  = None.
Proof.
  unfold RoomManager.delete_if_empty.
  intros [Hnone|(room & Hroom & Hnil)].
  - by rewrite Hnone.
  - rewrite Hroom, Hnil. simpl. apply get_delete_eq.
Qed.

Lemma leaveRoom_last_user userId roomId room s :
  RoomManager.userToRoom (Store.mgr s) !! userId = Some roomId ->
  roomId <> "" ->
  Store.getRoom roomId s = Some room ->
  JsMap.delete userId (Room.users room) = [] ->
  Store.leaveRoom userId s
  = (true,
     Store.mk
       (RoomManager.mk
          (JsMap.set roomId (Room.with_users [] room)
             (RoomManager.rooms (Store.mgr s)))
          (delete userId (RoomManager.userToRoom (Store.mgr s))))
       (Store.clock s)
       (Store.timers s
        ++ [(Store.clock s + RoomManager.GRACE_PERIOD, roomId)])%list).
Proof.
  intros Hindex Hne Hroom Hlast.
  unfold Store.getRoom, RoomManager.getRoom in Hroom.
  unfold Store.leaveRoom, RoomManager.leaveRoom.
  apply String.eqb_neq in Hne. by rewrite Hindex, Hne, Hroom, Hlast.
Qed.

(** X10. A room whose last user leaves is gone once the grace period has
    passed, when nothing else happens in between: after [leaveRoom] has
    emptied the room, letting five minutes or more elapse makes the room
    id unresolvable. *)
Theorem emptied_room_expires (ms : Z) (s : Store.t)
    (userId roomId : string) (room : Room.t) :
  RoomManager.userToRoom (Store.mgr s) !! userId = Some roomId ->
  roomId <> "" ->
  Store.getRoom roomId s = Some room ->
  JsMap.delete userId (Room.users room) = [] ->
  300000 <= ms ->
  Store.getRoom roomId (Store.elapse ms (snd (Store.leaveRoom userId s)))
  = None.
Proof.
  intros Hindex Hne Hroom Hlast Hms.
  rewrite (leaveRoom_last_user userId roomId room s Hindex Hne Hroom Hlast).
  destruct s as [m c ts].
  unfold Store.getRoom, RoomManager.getRoom, Store.elapse.
  cbn [Store.mgr Store.clock Store.timers fst snd].
  rewrite List.filter_app, fold_left_app.
  assert (Hdue : Store.due (c + Z.max 0 ms)
                   (c + RoomManager.GRACE_PERIOD, roomId) = true).
  { unfold Store.due, RoomManager.GRACE_PERIOD. simpl. apply Z.leb_le. lia. }
  cbn [List.filter]. rewrite Hdue. cbn [fold_left snd].
  apply delete_if_empty_gone, fired_keep_empty_or_gone.
  right. eexists. cbn [RoomManager.rooms]. rewrite get_set_eq.
  split; [reflexivity|done].
Qed.

Lemma emptied_room_expires_witness :
  Store.getRoom "R"
    (Store.elapse 300000
       (snd (Store.leaveRoom "alice"
               (Store.run (take 2 Scenario.quick_return) Store.init))))
  = None.
Proof.
  apply (emptied_room_expires 300000
           (Store.run (take 2 Scenario.quick_return) Store.init) "alice" "R"
           (Room.mk "R" "room" None
              [("alice", User.mk "alice" "Alice" true 0 0)]
              "https://www.google.com" 0 0 10)).
  - reflexivity.
  - discriminate.
  - reflexivity.
  - reflexivity.
  - lia.
Defined.

(** ** URL and activity *)

(** X11. [updateRoomUrl] on an existing room returns [true] and changes
    that room's URL and activity stamp and nothing else: its users, every
    other room and the reverse index are as before.  On an unknown room it
    returns [false] and changes nothing. *)
Theorem updateRoomUrl_effect (roomId url : string) (s : Store.t) :
  let r := Store.updateRoomUrl roomId url s in
  match Store.getRoom roomId s with
  | Some room =>
      fst r = true
      /\ Store.getRoom roomId (snd r)
         = Some (Room.mk (Room.id room) (Room.name room) (Room.password room)
                         (Room.users room) url (Room.createdAt room)
                         (Store.clock s) (Room.maxUsers room))
      /\ (forall k, k <> roomId ->
            Store.getRoom k (snd r) = Store.getRoom k s)
      /\ RoomManager.userToRoom (Store.mgr (snd r))
         = RoomManager.userToRoom (Store.mgr s)
      /\ Store.timers (snd r) = Store.timers s
  | None => r = (false, s)
  end.
Proof.
  destruct s as [m c ts].
  unfold Store.getRoom, RoomManager.getRoom, Store.updateRoomUrl,
    RoomManager.updateRoomUrl. cbn [Store.mgr Store.clock Store.timers].
  destruct (JsMap.get roomId (RoomManager.rooms m)) as [room|] eqn:Hroom;
    [|by destruct m].
  cbn [fst snd Store.mgr RoomManager.rooms RoomManager.userToRoom
       Store.timers].
  rewrite get_set_eq. split_and!; try done.
  intros k Hk. by rewrite get_set_ne.
Qed.

Lemma updateUserActivity_known now userId roomId room user m :
  RoomManager.userToRoom m !! userId = Some roomId ->
  roomId <> "" ->
  JsMap.get roomId (RoomManager.rooms m) = Some room ->
  JsMap.get userId (Room.users room) = Some user ->
  RoomManager.updateUserActivity now userId m
  = RoomManager.mk
      (JsMap.set roomId
         (Room.with_lastActivity now
            (Room.with_users
               (JsMap.set userId (User.with_lastActivity now user)
                  (Room.users room))
               room))
         (RoomManager.rooms m))
      (RoomManager.userToRoom m).
Proof.
  intros Hindex Hne Hroom Huser. unfold RoomManager.updateUserActivity.
  apply String.eqb_neq in Hne. by rewrite Hindex, Hne, Hroom, Huser.
Qed.

(** X12. Activity keeps a user in the room: after
    [updateUserActivity(userId)] for a user whom the reverse index places
    in a room that lists it, a [cleanup] that runs at most thirty minutes
    later finds the room and the user still there. *)
Theorem refreshed_user_survives_cleanup (ms : Z) (s : Store.t)
    (userId roomId : string) (room : Room.t) (user : User.t) :
  Store.reachable s ->
  RoomManager.userToRoom (Store.mgr s) !! userId = Some roomId ->
  roomId <> "" ->
  Store.getRoom roomId s = Some room ->
  JsMap.get userId (Room.users room) = Some user ->
  ms <= 30 * 60 * 1000 ->
  let later := Store.elapse ms (Store.updateUserActivity userId s) in
  exists room',
    Store.getRoom roomId (Store.cleanup later) = Some room'
    /\ JsMap.get userId (Room.users room')
       = Some (User.with_lastActivity (Store.clock s) user).
Proof.
  intros Hreach Hindex Hne Hroom Huser Hms later.
  assert (Hlater : Store.reachable later).
  { apply (store_reachable_step
             [Store.UpdateUserActivity userId; Store.Elapse ms] s Hreach). }
  set (user' := User.with_lastActivity (Store.clock s) user).
  set (room1 :=
         Room.with_lastActivity (Store.clock s)
           (Room.with_users (JsMap.set userId user' (Room.users room)) room)).
  assert (Hroom1 : Store.getRoom roomId later = Some room1).
  { apply elapse_spares_occupied_rooms_aux.
    - unfold Store.getRoom, RoomManager.getRoom, Store.updateUserActivity.
      cbn [Store.mgr].
      rewrite (updateUserActivity_known _ _ _ _ _ _ Hindex Hne Hroom Huser).
      cbn [RoomManager.rooms]. by rewrite get_set_eq.
    - unfold room1. cbn [Room.users Room.with_users Room.with_lastActivity].
      intros Hnil.
      assert (Hg : JsMap.get userId
                     (JsMap.set userId user' (Room.users room)) = Some user')
        by apply get_set_eq.
      by rewrite Hnil in Hg. }
  assert (Hclock : Store.clock later = Store.clock s + Z.max 0 ms) by done.
  destruct (reachable_users_keyed later Hlater roomId room1 Hroom1)
    as [Hnd _].
  unfold Store.getRoom, RoomManager.getRoom, Store.cleanup,
    RoomManager.cleanup in *. cbn [Store.mgr].
  apply (cleanup_fold_keeps (Store.clock later) _ _ roomId room1);
    [|done|done|].
  - rewrite Hclock. unfold RoomManager.stale, RoomManager.INACTIVITY_TIMEOUT.
    apply Z.ltb_ge. simpl. lia.
  - unfold room1. cbn [Room.users Room.with_users Room.with_lastActivity].
    apply get_set_eq.
Qed.

Lemma refreshed_user_survives_cleanup_witness :
  let later :=
    Store.elapse 1800000
      (Store.updateUserActivity "alice" Scenario.three_users) in
  exists room',
    Store.getRoom "R" (Store.cleanup later) = Some room'
    /\ JsMap.get "alice" (Room.users room')
       = Some (User.mk "alice" "Alice" true 0 2000).
Proof.
  apply (refreshed_user_survives_cleanup 1800000 Scenario.three_users
           "alice" "R"
           (Room.mk "R" "room" None
              [("alice", User.mk "alice" "Alice" true 0 0);
               ("bob", User.mk "bob" "Bob" false 1000 1000);
               ("carol", User.mk "carol" "Carol" false 2000 2000)]
              "https://www.google.com" 0 2000 10)
           (User.mk "alice" "Alice" true 0 0)).
  - by eexists.
  - reflexivity.
  - discriminate.
  - reflexivity.
  - reflexivity.
  - vm_compute. discriminate.
Defined.

(** * Further properties of the relay *)

(** X13. In every reachable state of the relay an entry of the reverse
    index names an existing room, stored under its own id, that lists the
    user. *)
Theorem relay_index_names_member (st : Relay.t) (sock roomId : string) :
  Relay.reachable st ->
  RoomManager.userToRoom (Store.mgr (Relay.store st)) !! sock = Some roomId ->
  exists room,
    Store.getRoom roomId (Relay.store st) = Some room
    /\ Room.id room = roomId
    /\ sock ∈ JsMap.keys (Room.users room).
Proof.
  intros Hreach Hindex.
  destruct (reachable_relay_inv st Hreach) as (Hid & _ & Hidx).
  destruct (Hidx sock roomId Hindex) as (room & Hroom & Hin).
  exists room. split; [done|]. split; [by apply (Hid roomId)|done].
Qed.

Lemma relay_index_names_member_witness :
  exists room,
    Store.getRoom "R" (Relay.store Scenario.pair_in_room) = Some room
    /\ Room.id room = "R"
    /\ "b" ∈ JsMap.keys (Room.users room).
Proof.
  apply (relay_index_names_member Scenario.pair_in_room "b" "R").
  - apply (admissible_run_reachable _ Relay.init); [constructor|].
    vm_compute. reflexivity.
  - vm_compute. reflexivity.
Defined.

(** X14. A ['control'] message from a socket that the index places in a
    room goes to every other connected user of that room and never back
    to the sender; the store is not touched. *)
Theorem control_reaches_the_others
    (st : Relay.t) (sock message : string) (room : Room.t) :
  Relay.reachable st ->
  Relay.getUserRoom sock st = Some room ->
  let st' := Relay.handleControlMessage sock message st in
  Relay.store st' = Relay.store st
  /\ (forall member,
        member ∈ JsMap.keys (Room.users room) -> member <> sock ->
        member ∈ Relay.connectedSockets st ->
        Relay.receives member (Relay.control message) st st')
  /\ ~ Relay.receives sock (Relay.control message) st st'.
Proof.
  intros Hreach Hroom.
  destruct (reachable_relay_inv st Hreach) as (Hid & Hcov & _).
  unfold Relay.handleControlMessage. rewrite Hroom.
  apply getUserRoom_Some in Hroom as (roomId & _ & _ & Hroom).
  rewrite (Hid roomId room Hroom). split; [done|]. split.
  - intros member Hin Hne Hconn.
    eexists. split; [reflexivity|]. split; [reflexivity|].
    cbn [Relay.recipients]. apply elem_of_difference. split.
    + by apply (Hcov roomId room Hroom member).
    + by intros ->%elem_of_singleton.
  - intros (e & Hout & _ & Hin). simpl in Hout.
    apply app_inv_head in Hout. injection Hout as <-.
    cbn [Relay.recipients] in Hin.
    apply elem_of_difference in Hin as [_ Hin]. apply Hin.
    by apply elem_of_singleton.
Qed.

Lemma control_reaches_the_others_witness :
  let st := Scenario.pair_in_room in
  let st' := Relay.handleControlMessage "b" "click" st in
  Relay.receives "a" (Relay.control "click") st st'
  /\ ~ Relay.receives "b" (Relay.control "click") st st'.
Proof.
  intros st st'.
  assert (Hreach : Relay.reachable st).
  { apply (admissible_run_reachable _ Relay.init); [constructor|].
    vm_compute. reflexivity. }
  destruct (control_reaches_the_others st "b" "click" _ Hreach eq_refl)
    as (_ & Hall & Hnot).
  split; [|exact Hnot].
  apply Hall.
  - apply (bool_decide_unpack _). vm_compute. exact I.
  - discriminate.
  - apply (bool_decide_unpack _). vm_compute. exact I.
Defined.

Lemma joinRoom_accepts roomId userId userName password s room :
  Store.getRoom roomId s = Some room ->
  JoinSpec.first_failing_check (Some room) userId password = None ->
  Store.joinRoom roomId userId userName password s
  = let user :=
      User.mk userId userName (JsMap.size (Room.users room) =? 0)
              (Store.clock s) (Store.clock s) in
    let room' :=
      Room.with_lastActivity (Store.clock s)
        (Room.with_users (Room.users room ++ [(userId, user)])%list room) in
    (RoomManager.mkJoin true (Some room') None,
     Store.mk
       (RoomManager.mk
          (JsMap.set roomId room' (RoomManager.rooms (Store.mgr s)))
          (<[userId := roomId]> (RoomManager.userToRoom (Store.mgr s))))
       (Store.clock s) (Store.timers s)).
Proof.
  intros Hroom Hcheck.
  apply passes_all_checks in Hcheck as (Hpw & Hcap & Hhas).
  unfold Store.getRoom, RoomManager.getRoom in Hroom.
  unfold Store.joinRoom, RoomManager.joinRoom.
  rewrite Hroom, Hpw, Hcap.
  assert (Hh : JsMap.has userId (Room.users room) = false)
    by by apply has_false.
  rewrite Hh. cbv zeta. by rewrite (set_absent _ _ _ Hhas).
Qed.

Lemma joinRoom_rejects roomId userId userName password s e :
  JoinSpec.first_failing_check (Store.getRoom roomId s) userId password
  = Some e ->
  Store.joinRoom roomId userId userName password s
  = (RoomManager.join_error (JoinSpec.error_text e), s).
Proof.
  destruct s as [m c ts].
  unfold JoinSpec.first_failing_check, Store.getRoom, RoomManager.getRoom,
    Store.joinRoom, RoomManager.joinRoom; simpl.
  destruct (JsMap.get roomId (RoomManager.rooms m)) as [room|]; simpl;
    [|by intros [= <-]].
  unfold JoinSpec.has_password.
  destruct (truthy (Room.password room)
            && strict_neq (Room.password room) password); simpl;
    [by intros [= <-]|].
  destruct (Room.maxUsers room <=? JsMap.size (Room.users room)); simpl;
    [by intros [= <-]|].
  destruct (JsMap.has userId (Room.users room)); simpl; [by intros [= <-]|].
  done.
Qed.

(** X15. A successful ['join-room'] tells the joiner and the others: the
    joiner is sent ['room-joined'] with the room's state and the user list
    that now ends with itself, and ['user-joined'] with the same list goes
    to the room's channel without the joiner, which holds every connected
    user the room already had. *)
Theorem join_room_notifies
    (st : Relay.t) (sock roomId userName : string)
    (password : option string) (room : Room.t) :
  Relay.reachable st ->
  Store.getRoom roomId (Relay.store st) = Some room ->
  JoinSpec.first_failing_check (Some room) sock password = None ->
  let st' := Relay.handleJoinRoom sock roomId userName password st in
  exists user others,
    let users := (JsMap.values (Room.users room) ++ [user])%list in
    User.id user = sock
    /\ Relay.getRoomUsers roomId st' = users
    /\ Relay.outbox st'
       = (Relay.outbox st
          ++ [Relay.mkEmit {[sock]}
                (Relay.room_joined roomId (Room.name room)
                   (Room.currentUrl room) users (Room.maxUsers room)
                   (Some user));
              Relay.mkEmit others (Relay.user_joined sock (Some user) users)]
         )%list
    /\ (sock ∉ others)
    /\ (forall member,
          member ∈ JsMap.keys (Room.users room) ->
          member ∈ Relay.connectedSockets st -> member ∈ others).
Proof.
  intros Hreach Hroom Hcheck.
  destruct (reachable_relay_inv st Hreach) as (Hid & Hcov & _).
  pose proof (Hid roomId room Hroom) as Hrid.
  pose proof (passes_all_checks _ _ _ Hcheck) as (_ & _ & Habsent).
  unfold Relay.handleJoinRoom.
  rewrite (joinRoom_accepts roomId sock userName password _ room Hroom Hcheck).
  cbv zeta.
  cbn [fst snd RoomManager.success RoomManager.room Room.id Room.name
       Room.currentUrl Room.maxUsers Room.users Room.with_users
       Room.with_lastActivity].
  simpl in Hrid. rewrite Hrid.
  exists (User.mk sock userName (JsMap.size (Room.users room) =? 0)
                  (Store.clock (Relay.store st)) (Store.clock (Relay.store st))).
  eexists (Relay.channel roomId _ ∖ {[sock]}).
  split; [reflexivity|].
  assert (Hget : forall X : User.t,
    JsMap.get sock (Room.users room ++ [(sock, X)])%list = Some X).
  { intros X. rewrite <- (set_absent _ _ _ Habsent). apply get_set_eq. }
  split.
  { unfold Relay.getRoomUsers, RoomManager.getRoomUsers. cbn.
    rewrite get_set_eq. cbn. unfold JsMap.values. by rewrite fmap_app. }
  split.
  { cbn. unfold Relay.getRoomUsers, RoomManager.getRoomUsers. cbn.
    rewrite get_set_eq, Hget. cbn. unfold JsMap.values.
    rewrite fmap_app. cbn. by rewrite <- app_assoc. }
  split.
  { intros Hin%elem_of_difference. destruct Hin as [_ Hin]. apply Hin.
    by apply elem_of_singleton. }
  intros member Hin Hconn. apply elem_of_difference. split.
  - unfold Relay.channel. cbn. rewrite lookup_insert_eq. cbn.
    apply elem_of_union_l. by apply (Hcov roomId room Hroom member).
  - intros ->%elem_of_singleton. by apply get_None_key in Habsent.
Qed.

Lemma join_room_notifies_witness :
  let st := Scenario.pair_in_room in
  let st' := Relay.handleJoinRoom "c" "R" "Carol" None
               (Relay.on_connection "c" st) in
  exists (user : User.t) (others : gset string),
    User.id user = "c"
    /\ length (Relay.getRoomUsers "R" st') = 3%nat
    /\ "a" ∈ others /\ "b" ∈ others /\ ("c" ∉ others).
Proof.
  intros st st'.
  assert (Hreach : Relay.reachable (Relay.on_connection "c" st)).
  { apply (Relay.reachable_step st (Relay.connection "c")).
    - apply (admissible_run_reachable _ Relay.init); [constructor|].
      vm_compute. reflexivity.
    - apply admissibleb_sound. vm_compute. reflexivity. }
  destruct (join_room_notifies (Relay.on_connection "c" st) "c" "R" "Carol"
              None _ Hreach eq_refl eq_refl)
    as (user & others & H1 & H2 & _ & H4 & H5).
  exists user, others. split; [exact H1|]. split.
  { unfold st'. rewrite H2, length_app. reflexivity. }
  split; [|split; [|exact H4]]; apply H5;
    apply (bool_decide_unpack _); vm_compute; exact I.
Defined.

(** X16. A rejected ['join-room'] changes nothing and is reported to the
    sender alone: the store and the channels are as before, and the only
    emit is ['join-error'] with the message of the first failing check. *)
Theorem join_room_rejected
    (st : Relay.t) (sock roomId userName : string)
    (password : option string) (e : JoinSpec.JoinError) :
  JoinSpec.first_failing_check (Store.getRoom roomId (Relay.store st)) sock
    password = Some e ->
  let st' := Relay.handleJoinRoom sock roomId userName password st in
  Relay.store st' = Relay.store st
  /\ Relay.channels st' = Relay.channels st
  /\ Relay.outbox st'
     = (Relay.outbox st
        ++ [Relay.mkEmit {[sock]}
              (Relay.join_error (Some (JoinSpec.error_text e)))])%list.
Proof.
  intros Hcheck. unfold Relay.handleJoinRoom.
  rewrite (joinRoom_rejects roomId sock userName password _ e Hcheck).
  cbn. by destruct st as [[]].
Qed.

Lemma join_room_rejected_witness :
  let st := Scenario.pair_in_room in
  let st' := Relay.handleJoinRoom "b" "R" "Bob" None st in
  Relay.store st' = Relay.store st
  /\ Relay.outbox st'
     = (Relay.outbox st
        ++ [Relay.mkEmit {[ "b" ]}
              (Relay.join_error (Some "User already in room"))])%list.
Proof.
  intros st st'.
  destruct (join_room_rejected st "b" "R" "Bob" None JoinSpec.AlreadyJoined
              eq_refl) as (H1 & _ & H3).
  by split.
Defined.

(** X17. ['create-room'] answers the creator alone and does not make it a
    user: the new room is empty (the reply says so), the reverse index is
    unchanged, and the creator's socket is put in the room's channel. *)
Theorem create_room_does_not_join
    (st : Relay.t) (sock uuid name : string) (password : option string)
    (maxUsers : option Z) :
  let st' := Relay.handleCreateRoom sock uuid name password maxUsers st in
  (exists room,
     Store.getRoom uuid (Relay.store st') = Some room
     /\ Room.users room = [])
  /\ RoomManager.userToRoom (Store.mgr (Relay.store st'))
     = RoomManager.userToRoom (Store.mgr (Relay.store st))
  /\ Relay.outbox st'
     = (Relay.outbox st
        ++ [Relay.mkEmit {[sock]}
              (Relay.room_created uuid name "https://www.google.com" 0
                 (default 10 maxUsers))])%list
  /\ sock ∈ Relay.channel uuid st'.
Proof.
  cbn. split_and!.
  - unfold Store.getRoom, RoomManager.getRoom. cbn. rewrite get_set_eq.
    by eexists.
  - done.
  - done.
  - unfold Relay.channel. cbn. rewrite lookup_insert_eq. cbn.
    apply elem_of_union_r. by apply elem_of_singleton.
Qed.

(** ** WebRTC negotiation *)

(** X18. A negotiation message reaches its addressee while the addressee
    is connected and nobody otherwise: right after the addressee's
    connection it is emitted to that socket alone, unchanged; after the
    addressee's disconnection it is dropped.  Offers, answers and ICE
    candidates are treated alike. *)
Theorem signal_follows_connection
    (k : Signaling.Kind) (sock addressee : string)
    (m : Signaling.SignalingMessage) (st : Relay.t) :
  Signaling.to m = Some addressee ->
  Signaling.on_signal k sock m (Relay.on_connection addressee st)
  = [Signaling.mkDelivery addressee k m]
  /\ Signaling.on_signal k sock m (Relay.on_disconnect addressee st) = [].
Proof.
  intros Hto.
  assert (Hgen : forall st',
    Signaling.on_signal k sock m st' = Signaling.to_target k m st')
    by by destruct k.
  rewrite !Hgen. unfold Signaling.to_target. rewrite Hto. split.
  - rewrite bool_decide_eq_true_2; [done|]. simpl.
    apply elem_of_app. right. by apply list_elem_of_singleton.
  - rewrite bool_decide_eq_false_2; [done|].
    unfold Relay.on_disconnect. rewrite handleDisconnect_store. simpl.
    intros Hin%list_elem_of_In%filter_In. destruct Hin as [_ Hne].
    by rewrite String.eqb_refl in Hne.
Qed.

Lemma signal_follows_connection_witness :
  let m := Signaling.mkSignal "offer" "a" (Some "b") "sdp" 0 in
  Signaling.on_signal Signaling.webrtc_offer "a" m
    (Relay.on_connection "b" Relay.init)
  = [Signaling.mkDelivery "b" Signaling.webrtc_offer m]
  /\ Signaling.on_signal Signaling.webrtc_offer "a" m
       (Relay.on_disconnect "b" Scenario.pair_in_room) = [].
Proof.
  intros m.
  split.
  - apply (signal_follows_connection Signaling.webrtc_offer "a" "b" m
             Relay.init eq_refl).
  - apply (signal_follows_connection Signaling.webrtc_offer "a" "b" m
             Scenario.pair_in_room eq_refl).
Defined.

(** ** The link to the engine *)

(** X19. While the link to the engine is down, nothing a viewer sends is
    forwarded or kept for later: an offer and a navigation are answered
    with the error "Browser service not available", every other request
    is dropped without an answer. *)
Theorem link_down_forwards_nothing
    (viewer : string) (r : Viewer.Request) (st : Viewer.t) :
  Viewer.connected st = false ->
  let st' := Viewer.on_request viewer r st in
  Viewer.to_engine st' = Viewer.to_engine st
  /\ Viewer.waiting st' = Viewer.waiting st
  /\ Viewer.to_viewer st'
     = (Viewer.to_viewer st
        ++ if Viewer.reports_unavailable r
           then [(viewer,
                  Viewer.viewer_error "Browser service not available")]
           else [])%list.
Proof.
  intros Hdown. destruct st as [c w e v]. simpl in Hdown. subst c.
  destruct r; simpl; by rewrite ?app_nil_r.
Qed.

Lemma link_down_forwards_nothing_witness :
  let st := Viewer.mk false [] [] [] in
  Viewer.to_engine (Viewer.on_request "v" (Viewer.navigate "https://a.b") st)
  = []
  /\ Viewer.to_viewer
       (Viewer.on_request "v" (Viewer.navigate "https://a.b") st)
     = [("v", Viewer.viewer_error "Browser service not available")].
Proof.
  intros st.
  destruct (link_down_forwards_nothing "v" (Viewer.navigate "https://a.b")
              st eq_refl) as (H1 & _ & H3).
  by split.
Defined.

Lemma offers_effect os st :
  Viewer.connected st = true ->
  Viewer.offers os st
  = Viewer.mk true
      (Viewer.waiting st ++ map fst os)%list
      (Viewer.to_engine st
       ++ map (fun o => Viewer.engine_offer (snd o) (fst o)) os)%list
      (Viewer.to_viewer st).
Proof.
  revert st. induction os as [|[v o] os IH]; intros st Hup.
  - destruct st as [c w e tv]. simpl in *. subst. by rewrite !app_nil_r.
  - unfold Viewer.offers in *. simpl. rewrite IH.
    + unfold Viewer.on_webrtc_offer. rewrite Hup. simpl.
      by rewrite <- !app_assoc.
    + unfold Viewer.on_webrtc_offer. by rewrite Hup.
Qed.

(** X20. Answers are not matched to offers.  With the link up, every
    offer is forwarded to the engine tagged with its viewer's connection
    id; the next answer from the engine is then relayed to every viewer
    whose offer was outstanding, in the order of the offers, and an answer
    after that reaches nobody. *)
Theorem answer_goes_to_every_waiting_viewer
    (os : list (string * string)) (first second : string) (st : Viewer.t) :
  Viewer.connected st = true ->
  Viewer.waiting st = [] ->
  let offered := Viewer.offers os st in
  let answered := Viewer.on_engine_answer first offered in
  Viewer.to_engine offered
  = (Viewer.to_engine st
     ++ map (fun o => Viewer.engine_offer (snd o) (fst o)) os)%list
  /\ Viewer.to_viewer answered
     = (Viewer.to_viewer st
        ++ map (fun o => (fst o, Viewer.viewer_answer first)) os)%list
  /\ Viewer.to_viewer (Viewer.on_engine_answer second answered)
     = Viewer.to_viewer answered.
Proof.
  intros Hup Hnone. cbv zeta. rewrite (offers_effect os st Hup), Hnone.
  unfold Viewer.on_engine_answer. simpl. split; [done|]. split.
  - by rewrite map_map.
  - by rewrite app_nil_r.
Qed.

Lemma answer_goes_to_every_waiting_viewer_witness :
  let st := Viewer.mk true [] [] [] in
  let answered :=
    Viewer.on_engine_answer "answer-1"
      (Viewer.offers [("v1", "offer-1"); ("v2", "offer-2")] st) in
  Viewer.to_viewer answered
  = [("v1", Viewer.viewer_answer "answer-1");
     ("v2", Viewer.viewer_answer "answer-1")]
  /\ Viewer.to_viewer (Viewer.on_engine_answer "answer-2" answered)
     = Viewer.to_viewer answered.
Proof.
  intros st answered.
  destruct (answer_goes_to_every_waiting_viewer
              [("v1", "offer-1"); ("v2", "offer-2")] "answer-1" "answer-2"
              st eq_refl eq_refl) as (_ & H2 & H3).
  by split.
Defined.

(** ** The heartbeat *)

Lemma touch_other now sock' sock roomId u m :
  sock' <> sock ->
  (exists room, JsMap.get roomId (RoomManager.rooms m) = Some room
                /\ JsMap.get sock (Room.users room) = Some u) ->
  exists room,
    JsMap.get roomId
      (RoomManager.rooms (RoomManager.updateUserActivity now sock' m))
    = Some room
    /\ JsMap.get sock (Room.users room) = Some u.
Proof.
  intros Hne (room & Hroom & Hu). unfold RoomManager.updateUserActivity.
  destruct (RoomManager.userToRoom m !! sock') as [r'|]; [|eauto].
  destruct (String.eqb r' ""); [eauto|].
  destruct (JsMap.get r' (RoomManager.rooms m)) as [room'|] eqn:Hroom';
    [|eauto].
  cbn [RoomManager.rooms].
  destruct (decide (r' = roomId)) as [->|Hr].
  - rewrite get_set_eq. eexists. split; [done|].
    assert (room' = room) as -> by congruence.
    cbn [Room.users Room.with_users Room.with_lastActivity].
    destruct (JsMap.get sock' (Room.users room)); [|done].
    by rewrite get_set_ne.
  - rewrite get_set_ne by done. eauto.
Qed.

Lemma touch_fold_keeps socks : forall s sock roomId u,
  RoomManager.userToRoom (Store.mgr s) !! sock = Some roomId ->
  roomId <> "" ->
  (exists room, Store.getRoom roomId s = Some room
                /\ JsMap.get sock (Room.users room) = Some u) ->
  let s' := fold_left (fun s sock => Store.updateUserActivity sock s) socks s in
  exists room,
    Store.getRoom roomId s' = Some room
    /\ JsMap.get sock (Room.users room)
       = Some (if bool_decide (sock ∈ socks)
               then User.with_lastActivity (Store.clock s) u else u).
Proof.
  induction socks as [|sock' socks IH]; intros s sock roomId u Hidx Hne Hq.
  - cbv zeta. by rewrite bool_decide_eq_false_2 by apply not_elem_of_nil.
  - cbn [fold_left]. cbv zeta.
    assert (Hidx' : RoomManager.userToRoom
                      (Store.mgr (Store.updateUserActivity sock' s)) !! sock
                    = Some roomId).
    { unfold Store.updateUserActivity, RoomManager.updateUserActivity.
      cbn [Store.mgr]. by repeat case_match. }
    destruct (decide (sock' = sock)) as [->|Hother].
    + destruct Hq as (room & Hroom & Hu).
      assert (Hq' : exists room',
                 Store.getRoom roomId (Store.updateUserActivity sock s)
                 = Some room'
                 /\ JsMap.get sock (Room.users room')
                    = Some (User.with_lastActivity (Store.clock s) u)).
      { unfold Store.getRoom, RoomManager.getRoom, Store.updateUserActivity
          in *. cbn [Store.mgr] in *.
        rewrite (updateUserActivity_known _ _ _ _ _ _ Hidx Hne Hroom Hu).
        cbn [RoomManager.rooms]. rewrite get_set_eq. eexists. split; [done|].
        cbn [Room.users Room.with_users Room.with_lastActivity].
        apply get_set_eq. }
      destruct (IH _ sock roomId _ Hidx' Hne Hq') as (room' & H1 & H2).
      exists room'. split; [done|]. rewrite H2.
      rewrite (bool_decide_eq_true_2 (sock ∈ sock :: socks))
        by apply list_elem_of_here.
      cbn [Store.clock Store.updateUserActivity]. by case_bool_decide.
    + assert (Hq' : exists room',
                 Store.getRoom roomId (Store.updateUserActivity sock' s)
                 = Some room'
                 /\ JsMap.get sock (Room.users room') = Some u)
        by by apply touch_other.
      destruct (IH _ sock roomId _ Hidx' Hne Hq') as (room' & H1 & H2).
      exists room'. split; [done|]. rewrite H2.
      cbn [Store.clock Store.updateUserActivity].
      apply f_equal.
      rewrite (bool_decide_ext (sock ∈ sock' :: socks) (sock ∈ socks));
        [done|].
      rewrite elem_of_cons. intuition congruence.
Qed.

Lemma touch_fold_clock socks : forall s,
  Store.clock (fold_left (fun s sock => Store.updateUserActivity sock s)
                         socks s)
  = Store.clock s.
Proof.
  induction socks as [|sock socks IH]; intros s; simpl; [done|].
  by rewrite IH.
Qed.

Lemma touch_fold_reachable socks : forall s,
  Store.reachable s ->
  Store.reachable (fold_left (fun s sock => Store.updateUserActivity sock s)
                             socks s).
Proof.
  induction socks as [|sock socks IH]; intros s Hs; simpl; [done|].
  apply IH. by apply (store_reachable_step [Store.UpdateUserActivity sock]).
Qed.

(** X21. The heartbeat keeps a connected user in the room the reverse
    index names for it: in a reachable state of the relay, after one
    heartbeat that room still exists and still lists the user, with the
    same record but for [lastActivity], which is the time of the
    heartbeat. *)
Theorem heartbeat_keeps_connected_user
    (st : Relay.t) (sock roomId : string) (room : Room.t) (user : User.t) :
  Relay.reachable st ->
  sock ∈ Relay.connectedSockets st ->
  RoomManager.userToRoom (Store.mgr (Relay.store st)) !! sock = Some roomId ->
  roomId <> "" ->
  Store.getRoom roomId (Relay.store st) = Some room ->
  JsMap.get sock (Room.users room) = Some user ->
  exists room',
    Store.getRoom roomId (Relay.store (Relay.heartbeat st)) = Some room'
    /\ JsMap.get sock (Room.users room')
       = Some (User.with_lastActivity (Store.clock (Relay.store st)) user).
Proof.
  intros Hreach Hconn Hidx Hne Hroom Huser.
  unfold Relay.heartbeat. cbn [Relay.store Relay.with_store].
  set (s1 := fold_left (fun s sock => Store.updateUserActivity sock s)
                       (Relay.connectedSockets st) (Relay.store st)).
  destruct (touch_fold_keeps (Relay.connectedSockets st) (Relay.store st)
              sock roomId user Hidx Hne) as (room1 & Hroom1 & Huser1);
    [eauto|].
  fold s1 in Hroom1. rewrite bool_decide_eq_true_2 in Huser1 by done.
  assert (Hs1 : Store.reachable s1)
    by apply touch_fold_reachable, relay_store_reachable, Hreach.
  destruct (reachable_users_keyed s1 Hs1 roomId room1 Hroom1) as [Hnd _].
  assert (Hclock : Store.clock s1 = Store.clock (Relay.store st))
    by apply touch_fold_clock.
  unfold Store.getRoom, RoomManager.getRoom, Store.cleanup,
    RoomManager.cleanup in *. cbn [Store.mgr].
  apply (cleanup_fold_keeps (Store.clock s1) _ _ roomId room1);
    [|done|done|done].
  rewrite Hclock. unfold RoomManager.stale, RoomManager.INACTIVITY_TIMEOUT.
  apply Z.ltb_ge. simpl. lia.
Qed.

Lemma heartbeat_keeps_connected_user_witness :
  exists room',
    Store.getRoom "R" (Relay.store (Relay.heartbeat Scenario.pair_in_room))
    = Some room'
    /\ JsMap.get "b" (Room.users room')
       = Some (User.mk "b" "Bob" false 0 0).
Proof.
  apply (heartbeat_keeps_connected_user Scenario.pair_in_room "b" "R"
           (Room.mk "R" "room" None
              [("a", User.mk "a" "Alice" true 0 0);
               ("b", User.mk "b" "Bob" false 0 0)]
              "https://www.google.com" 0 0 10)
           (User.mk "b" "Bob" false 0 0)).
  - apply (admissible_run_reachable _ Relay.init); [constructor|].
    vm_compute. reflexivity.
  - apply (bool_decide_unpack _). vm_compute. exact I.
  - vm_compute. reflexivity.
  - discriminate.
  - vm_compute. reflexivity.
  - vm_compute. reflexivity.
Defined.

(** * Further properties of the engine *)

(** ** The title of a fetched document *)

Lemma strip_prefix_ci_split p : forall s r,
  Title.strip_prefix_ci p s = Some r ->
  exists q, s = q ++ r /\ Title.ci_equal p q.
Proof.
  unfold Title.ci_equal.
  induction p as [|a p IH]; intros s r H; simpl in H.
  - exists "". by injection H as ->.
  - destruct s as [|b s]; [done|].
    destruct (Title.ci_eqb a b) eqn:Hab; [|done].
    destruct (IH s r H) as (q & -> & Hq).
    exists (String b q). split; [done|]. simpl. by rewrite Hab.
Qed.

Lemma strip_prefix_ci_app p : forall q r,
  Title.ci_equal p q -> Title.strip_prefix_ci p (q ++ r) = Some r.
Proof.
  unfold Title.ci_equal.
  induction p as [|a p IH]; intros q r H; simpl in H.
  - by injection H as ->.
  - destruct q as [|b q]; [done|]. simpl.
    destruct (Title.ci_eqb a b); [|done]. by apply IH.
Qed.

Lemma span_split stop : forall s,
  s = fst (Title.span stop s) ++ snd (Title.span stop s)
  /\ ~ Title.occurs stop (fst (Title.span stop s))
  /\ (snd (Title.span stop s) = ""
      \/ exists r, snd (Title.span stop s) = String stop r).
Proof.
  unfold Title.occurs.
  induction s as [|c s (IH1 & IH2 & IH3)]; simpl.
  - split; [done|]. split; [by intros []|by left].
  - destruct (Ascii.eqb_spec c stop) as [->|Hne]; simpl.
    + split; [done|]. split; [by intros []|]. right. by exists s.
    + split; [by rewrite IH1 at 1|]. split; [|done].
      intros [|]; [done|]. by apply IH2.
Qed.

Lemma span_app stop : forall s r,
  ~ Title.occurs stop s ->
  Title.span stop (s ++ String stop r) = (s, String stop r).
Proof.
  unfold Title.occurs.
  induction s as [|c s IH]; intros r Hno; simpl.
  - by rewrite Ascii.eqb_refl.
  - destruct (Ascii.eqb_spec c stop) as [->|Hne].
    + exfalso. apply Hno. by left.
    + rewrite IH; [done|]. intros Hin. apply Hno. by right.
Qed.

Lemma match_here_sound s text :
  Title.match_here s = Some text ->
  exists tag attrs closing after,
    s = tag ++ attrs ++ ">" ++ text ++ closing ++ after
    /\ Title.ci_equal "<title" tag
    /\ Title.ci_equal "</title>" closing
    /\ text <> ""
    /\ ~ Title.occurs "<" text
    /\ ~ Title.occurs ">" attrs.
Proof.
  unfold Title.match_here. intros H.
  destruct (Title.strip_prefix_ci "<title" s) as [rest1|] eqn:Htag; [|done].
  destruct (strip_prefix_ci_split _ _ _ Htag) as (tag & -> & Hci).
  destruct (span_split ">" rest1) as (Hs1 & Hno1 & Hstop1).
  destruct (Title.span ">" rest1) as [attrs rest2]. cbn [fst snd] in *.
  destruct Hstop1 as [->|[rest3 ->]]; [done|].
  destruct (span_split "<" rest3) as (Hs2 & Hno2 & _).
  destruct (Title.span "<" rest3) as [text' rest4]. cbn [fst snd] in *.
  destruct text' as [|c text']; [done|].
  destruct (Title.strip_prefix_ci "</title>" rest4) as [after|] eqn:Hclose;
    [|done].
  injection H as <-.
  destruct (strip_prefix_ci_split _ _ _ Hclose) as (closing & -> & Hci').
  exists tag, attrs, closing, after. subst rest1 rest3.
  split; [done|]. by split_and!.
Qed.

(** X22. What [match] captures as the title: the document reads
    [<title], attributes without [>], [>], the captured text, [</title>],
    the tags in any case; the captured text is not empty and holds no
    [<]. *)
Theorem title_match_sound (html text : string) :
  Title.title_match html = Some text ->
  exists before tag attrs closing after,
    html = before ++ tag ++ attrs ++ ">" ++ text ++ closing ++ after
    /\ Title.ci_equal "<title" tag
    /\ Title.ci_equal "</title>" closing
    /\ text <> ""
    /\ ~ Title.occurs "<" text
    /\ ~ Title.occurs ">" attrs.
Proof.
  induction html as [|c html IH]; intros H.
  - done.
  - change (Title.title_match (String c html))
      with (match Title.match_here (String c html) with
            | Some t => Some t
            | None => Title.title_match html
            end) in H.
    destruct (Title.match_here (String c html)) as [t|] eqn:Hhere.
    + injection H as ->.
      apply match_here_sound in Hhere as (tag & attrs & closing & after & H).
      by exists "", tag, attrs, closing, after.
    + destruct (IH H) as (before & tag & attrs & closing & after & -> & Hr).
      by exists (String c before), tag, attrs, closing, after.
Qed.

Lemma title_match_sound_witness :
  exists before tag attrs closing after,
    "<head><TITLE id='t'>Home</title></head>"
    = before ++ tag ++ attrs ++ ">" ++ "Home" ++ closing ++ after
    /\ Title.ci_equal "<title" tag
    /\ Title.ci_equal "</title>" closing
    /\ "Home" <> ""
    /\ ~ Title.occurs "<" "Home"
    /\ ~ Title.occurs ">" attrs.
Proof.
  apply (title_match_sound "<head><TITLE id='t'>Home</title></head>" "Home").
  vm_compute. reflexivity.
Defined.

Lemma append_cons c a b : String c a ++ b = String c (a ++ b).
Proof. reflexivity. Qed.

Lemma ci_eqb_lt c : Title.ci_eqb "<" c = true -> c = "<"%char.
Proof.
  destruct c as [[] [] [] [] [] [] [] []]; vm_compute; congruence.
Qed.

Lemma ci_equal_starts p c q :
  Title.ci_equal (String "<" p) (String c q) -> c = "<"%char.
Proof.
  unfold Title.ci_equal.
  change (Title.strip_prefix_ci (String "<" p) (String c q))
    with (if Title.ci_eqb "<" c then Title.strip_prefix_ci p q else None).
  destruct (Title.ci_eqb "<" c) eqn:E; [|done]. intros _. by apply ci_eqb_lt.
Qed.

(** A match of [p] cannot begin in [s] and end beyond a following [<]
    when no character of [p] is a [<]. *)
Lemma strip_prefix_ci_across p : forall s r,
  Forall (fun a => Title.ci_eqb a "<" = false)
         (String.list_ascii_of_string p) ->
  Title.strip_prefix_ci p s = None ->
  Title.strip_prefix_ci p (s ++ String "<" r) = None.
Proof.
  induction p as [|a p IH]; intros s r Hp H; [done|].
  inversion Hp as [|? ? Ha Hp']; subst.
  destruct s as [|b s].
  - change (Title.strip_prefix_ci (String a p) ("" ++ String "<" r))
      with (if Title.ci_eqb a "<" then Title.strip_prefix_ci p r else None).
    by rewrite Ha.
  - rewrite append_cons.
    change (Title.strip_prefix_ci (String a p) (String b (s ++ String "<" r)))
      with (if Title.ci_eqb a b
            then Title.strip_prefix_ci p (s ++ String "<" r) else None).
    change (Title.strip_prefix_ci (String a p) (String b s))
      with (if Title.ci_eqb a b then Title.strip_prefix_ci p s else None)
      in H.
    destruct (Title.ci_eqb a b); [|done]. by apply IH.
Qed.

Lemma title_match_skips before : forall r,
  Title.contains_ci before "<title" = false ->
  Title.title_match (before ++ String "<" r)
  = Title.title_match (String "<" r).
Proof.
  induction before as [|c before IH]; intros r H; [done|].
  change (Title.contains_ci (String c before) "<title")
    with (match Title.strip_prefix_ci "<title" (String c before) with
          | Some _ => true
          | None => Title.contains_ci before "<title"
          end) in H.
  destruct (Title.strip_prefix_ci "<title" (String c before)) eqn:Hhere;
    [done|].
  rewrite append_cons.
  change (Title.title_match (String c (before ++ String "<" r)))
    with (match Title.match_here (String c (before ++ String "<" r)) with
          | Some t => Some t
          | None => Title.title_match (before ++ String "<" r)
          end).
  assert (Hno : Title.match_here (String c (before ++ String "<" r)) = None).
  { unfold Title.match_here. rewrite <- append_cons.
    destruct (decide (c = "<"%char)) as [->|Hc].
    - change (Title.strip_prefix_ci "<title"
                (String "<" before ++ String "<" r))
        with (Title.strip_prefix_ci "title" (before ++ String "<" r)).
      change (Title.strip_prefix_ci "<title" (String "<" before))
        with (Title.strip_prefix_ci "title" before) in Hhere.
      rewrite strip_prefix_ci_across; [done| |done].
      repeat constructor.
    - change (Title.strip_prefix_ci "<title"
                (String c before ++ String "<" r))
        with (if Title.ci_eqb "<" c
              then Title.strip_prefix_ci "title" (before ++ String "<" r)
              else None).
      destruct (Title.ci_eqb "<" c) eqn:E; [|done].
      by apply ci_eqb_lt in E. }
  rewrite Hno. by apply IH.
Qed.

Lemma match_here_complete tag attrs text closing after :
  Title.ci_equal "<title" tag ->
  ~ Title.occurs ">" attrs ->
  text <> "" ->
  ~ Title.occurs "<" text ->
  Title.ci_equal "</title>" closing ->
  Title.match_here (tag ++ attrs ++ ">" ++ text ++ closing ++ after)
  = Some text.
Proof.
  intros Htag Hattrs Hne Htext Hclose. unfold Title.match_here.
  rewrite strip_prefix_ci_app by done.
  change (">" ++ text ++ closing ++ after)
    with (String ">" (text ++ closing ++ after)).
  rewrite span_app by done. cbn [fst snd].
  destruct closing as [|c closing]; [done|].
  assert (c = "<"%char) as -> by by eapply ci_equal_starts.
  rewrite append_cons, span_app by done. cbn [fst snd].
  destruct text as [|t text]; [done|].
  rewrite <- append_cons.
  by rewrite strip_prefix_ci_app.
Qed.

Lemma title_match_complete before tag attrs text closing after :
  Title.contains_ci before "<title" = false ->
  Title.ci_equal "<title" tag ->
  ~ Title.occurs ">" attrs ->
  text <> "" ->
  ~ Title.occurs "<" text ->
  Title.ci_equal "</title>" closing ->
  Title.title_match
    (before ++ tag ++ attrs ++ ">" ++ text ++ closing ++ after)
  = Some text.
Proof.
  intros Hbefore Htag Hattrs Hne Htext Hclose.
  destruct tag as [|c tag]; [done|].
  assert (c = "<"%char) as -> by by eapply ci_equal_starts.
  rewrite append_cons, title_match_skips by done.
  rewrite <- append_cons.
  pose proof (match_here_complete (String "<" tag) attrs text closing after
                Htag Hattrs Hne Htext Hclose) as Hhere.
  rewrite append_cons in Hhere |- *.
  change (Title.title_match
            (String "<" (tag ++ attrs ++ ">" ++ text ++ closing ++ after)))
    with (match Title.match_here
                  (String "<"
                     (tag ++ attrs ++ ">" ++ text ++ closing ++ after)) with
          | Some t => Some t
          | None =>
              Title.title_match
                (tag ++ attrs ++ ">" ++ text ++ closing ++ after)
          end).
  by rewrite Hhere.
Qed.

Lemma title_match_none html :
  Title.contains_ci html "<title" = false -> Title.title_match html = None.
Proof.
  induction html as [|c html IH]; intros H; [done|].
  change (Title.contains_ci (String c html) "<title")
    with (match Title.strip_prefix_ci "<title" (String c html) with
          | Some _ => true
          | None => Title.contains_ci html "<title"
          end) in H.
  change (Title.title_match (String c html))
    with (match Title.match_here (String c html) with
          | Some t => Some t
          | None => Title.title_match html
          end).
  unfold Title.match_here.
  destruct (Title.strip_prefix_ci "<title" (String c html)); [done|].
  by apply IH.
Qed.

(** X23. The title is read from the first title tag: when the document
    holds no [<title] before a well-formed title element (tags in any
    case, attributes allowed, a text that is not empty and holds no [<]),
    the title is that text, trimmed. *)
Theorem extract_title_first_tag
    (before tag attrs text closing after : string) :
  Title.contains_ci before "<title" = false ->
  Title.ci_equal "<title" tag ->
  ~ Title.occurs ">" attrs ->
  text <> "" ->
  ~ Title.occurs "<" text ->
  Title.ci_equal "</title>" closing ->
  Title.extract_title
    (before ++ tag ++ attrs ++ ">" ++ text ++ closing ++ after)
  = Title.trim text.
Proof.
  intros. unfold Title.extract_title.
  by rewrite title_match_complete.
Qed.

Lemma extract_title_first_tag_witness :
  Title.extract_title
    ("<html><head>" ++ "<TITLE" ++ " lang='en'" ++ ">" ++ " Home page "
     ++ "</Title>" ++ "<title>second</title></head>")
  = "Home page".
Proof.
  transitivity (Title.trim " Home page "); [|vm_compute; reflexivity].
  apply (extract_title_first_tag "<html><head>" "<TITLE" " lang='en'"
           " Home page " "</Title>" "<title>second</title></head>").
  - vm_compute. reflexivity.
  - vm_compute. reflexivity.
  - vm_compute. intuition discriminate.
  - discriminate.
  - vm_compute. intuition discriminate.
  - vm_compute. reflexivity.
Defined.

(** ** [POST /navigate] *)

Lemma answer_cases elapsed r :
  Navigate.answer elapsed r = r
  \/ Navigate.answer elapsed r = Navigate.failure 504 "Navigation timeout".
Proof.
  unfold Navigate.answer.
  destruct (Navigate.WATCHDOG <=? elapsed); [right|left]; done.
Qed.

Lemma send_or_fallback_cases url elapsed r st :
  Navigate.send_or_fallback url elapsed r st = (r, st)
  \/ Navigate.send_or_fallback url elapsed r st
     = (Navigate.failure 504 "Navigation timeout", Navigate.with_url url st).
Proof.
  unfold Navigate.send_or_fallback, Navigate.fallback, Navigate.answer.
  destruct (Z.ltb_spec elapsed Navigate.WATCHDOG); [by left|right].
  by rewrite (proj2 (Z.leb_le _ _)).
Qed.

Lemma fallback_cases url elapsed st :
  Navigate.fallback url elapsed st
  = (Navigate.success url (Title.mock_title url), Navigate.with_url url st)
  \/ Navigate.fallback url elapsed st
     = (Navigate.failure 504 "Navigation timeout", Navigate.with_url url st).
Proof.
  unfold Navigate.fallback.
  destruct (answer_cases elapsed
              (Navigate.success url (Title.mock_title url))) as [-> | ->];
    [by left|by right].
Qed.

(** Without a usable page the route answers with a success whose address
    is the new current URL, or not before its watchdog. *)
Lemma after_reinit_outcome url mods run st :
  match Navigate.after_reinit url mods run st with
  | (Navigate.success u _, st') => Engine.currentUrl st' = u
  | (Navigate.failure status error, _) =>
      status = 504 /\ error = "Navigation timeout"
  end.
Proof.
  unfold Navigate.after_reinit. cbv zeta.
  destruct (Navigate.usable _).
  - destruct (fst (Navigate.race _ _ _));
      [|by destruct (fallback_cases url
                       (snd (Engine.initializeBrowser mods
                               (Navigate.reinit run) st)
                        + snd (Navigate.race 20000 (Navigate.goto_ok run)
                                 (Navigate.goto_ms run)))
                       (fst (Engine.initializeBrowser mods
                               (Navigate.reinit run) st)))
            as [-> | ->]].
    destruct (Navigate.page_url run) as [u|].
    + destruct (Navigate.page_title run) as [title|].
      * match goal with
        | |- context [Navigate.send_or_fallback ?a ?b ?c ?d] =>
            by destruct (send_or_fallback_cases a b c d) as [-> | ->]
        end.
      * match goal with
        | |- context [Navigate.fallback ?a ?b ?c] =>
            by destruct (fallback_cases a b c) as [-> | ->]
        end.
    + match goal with
      | |- context [Navigate.fallback ?a ?b ?c] =>
          by destruct (fallback_cases a b c) as [-> | ->]
      end.
  - destruct (_ && _).
    + destruct (fst (Navigate.fetched run)).
      * match goal with
        | |- context [Navigate.fallback ?a ?b ?c] =>
            by destruct (fallback_cases a b c) as [-> | ->]
        end.
      * match goal with
        | |- context [Navigate.send_or_fallback ?a ?b ?c ?d] =>
            by destruct (send_or_fallback_cases a b c d) as [-> | ->]
        end.
      * match goal with
        | |- context [Navigate.fallback ?a ?b ?c] =>
            by destruct (fallback_cases a b c) as [-> | ->]
        end.
    + match goal with
      | |- context [Navigate.fallback ?a ?b ?c] =>
          by destruct (fallback_cases a b c) as [-> | ->]
      end.
Qed.

Lemma via_http_outcome url run st :
  exists title,
    Navigate.via_http url run st
    = (Navigate.success url title, Navigate.with_url url st).
Proof.
  unfold Navigate.via_http. destruct (fst (Navigate.fetched run)); eauto.
Qed.

Lemma with_page_outcome url mods run st :
  match Navigate.with_page url mods run st with
  | (Navigate.success _ _, _) => True
  | (Navigate.failure status error, st') =>
      (status = 504 /\ error = "Navigation timeout")
      \/ (status = 500
          /\ fst (Navigate.race 30000 (Navigate.goto_ok run)
                    (Navigate.goto_ms run)) = false
          /\ Navigate.usable st' = false
          /\ Engine.currentUrl st' = Engine.currentUrl st)
  end.
Proof.
  unfold Navigate.with_page. cbv zeta.
  destruct (fst (Navigate.race _ _ _)) eqn:Hgoto.
  - unfold Navigate.page_info. cbv zeta.
    destruct (Navigate.page_url run) as [u|];
      [destruct (Navigate.page_title run) as [title|]|];
      match goal with
      | |- context [Navigate.answer ?a ?b] =>
          destruct (answer_cases a b) as [-> | ->]; by auto
      end.
  - unfold Navigate.recover. cbv zeta.
    destruct (Navigate.usable _) eqn:Husable; [done|].
    right. split_and!; [done..|]. by rewrite initializeBrowser_keeps_url.
Qed.

(** X24. The errors of [POST /navigate].  400 answers exactly a request
    without a URL and touches nothing; 500 is only sent when the request
    found a usable page, the navigation on it failed or ran into its
    thirty seconds, and the browser did not come back, and then the
    current URL is the one before the request; every other error is the
    504 of the route's watchdog. *)
Theorem navigate_errors
    (url : option string) (mods : Engine.Modules) (run : Navigate.Run)
    (st : Engine.t) (status : Z) (error : string) :
  fst (Navigate.navigate_route url mods run st)
  = Navigate.failure status error ->
  (status = 400 /\ error = "URL is required"
   /\ (url = None \/ url = Some "")
   /\ snd (Navigate.navigate_route url mods run st) = st)
  \/ (status = 504 /\ error = "Navigation timeout")
  \/ (status = 500
      /\ Navigate.usable st = true
      /\ fst (Navigate.race 30000 (Navigate.goto_ok run)
                (Navigate.goto_ms run)) = false
      /\ Navigate.usable (snd (Navigate.navigate_route url mods run st))
         = false
      /\ Engine.currentUrl (snd (Navigate.navigate_route url mods run st))
         = Engine.currentUrl st).
Proof.
  unfold Navigate.navigate_route.
  destruct url as [url|]; [|intros [= <- <-]; left; auto].
  destruct (String.eqb_spec url "") as [->|Hurl];
    [intros [= <- <-]; left; auto|].
  destruct (Navigate.usable st) eqn:Husable.
  - pose proof (with_page_outcome url mods run st) as H.
    destruct (Navigate.with_page url mods run st) as [[u t|s e] st'].
    + done.
    + intros [= -> ->]. right. destruct H as [H|H]; [by left|right].
      cbn [snd]. by destruct H as (-> & ? & ? & ?).
  - destruct (_ && _).
    + by destruct (via_http_outcome url run st) as [title ->].
    + pose proof (after_reinit_outcome url mods run st) as H.
      destruct (Navigate.after_reinit url mods run st) as [[u t|s e] st'].
      * done.
      * intros [= -> ->]. right. by left.
Qed.

Lemma navigate_errors_witness :
  let run :=
    Navigate.mkRun false 1200 None None 0 Navigate.fetch_fails 0
      (Engine.mkInitRun 50 Engine.launch_throws 900 Engine.launch_throws 0)
  in
  let st :=
    Engine.with_driver true true Engine.playwright true Engine.init in
  let after :=
    Navigate.navigate_route (Some "https://a.example")
      (Engine.load_modules true false false) run st in
  Navigate.usable st = true
  /\ Navigate.usable (snd after) = false
  /\ Engine.currentUrl (snd after) = "https://www.google.com".
Proof.
  intros run st after.
  destruct (navigate_errors (Some "https://a.example")
              (Engine.load_modules true false false) run st
              500 "Browser unavailable" eq_refl)
    as [(H & _) | [(H & _) | (_ & H1 & _ & H2 & H3)]];
    [discriminate H | discriminate H | by split_and!].
Defined.

(** X25. Without a usable page a navigation never fails: the route
    answers with a success whose address is the current URL from then on,
    unless its watchdog answered first. *)
Theorem navigate_without_page
    (url : string) (mods : Engine.Modules) (run : Navigate.Run)
    (st : Engine.t) :
  url <> "" ->
  Navigate.usable st = false ->
  match Navigate.navigate_route (Some url) mods run st with
  | (Navigate.success u _, st') => Engine.currentUrl st' = u
  | (Navigate.failure status error, _) =>
      status = 504 /\ error = "Navigation timeout"
  end.
Proof.
  intros Hurl Husable. unfold Navigate.navigate_route.
  apply String.eqb_neq in Hurl. rewrite Hurl, Husable.
  destruct (_ && _).
  - by destruct (via_http_outcome url run st) as [title ->].
  - apply after_reinit_outcome.
Qed.

Lemma navigate_without_page_witness :
  match
    Navigate.navigate_route (Some "https://youtube.com/watch")
      (Engine.load_modules false false false)
      (Navigate.mkRun false 0 None None 0 Navigate.fetch_fails 0
         (Engine.mkInitRun 0 Engine.launch_throws 0 Engine.launch_throws 0))
      Engine.init
  with
  | (Navigate.success u _, st') => Engine.currentUrl st' = u
  | (Navigate.failure status error, _) =>
      status = 504 /\ error = "Navigation timeout"
  end.
Proof.
  apply (navigate_without_page "https://youtube.com/watch"
           (Engine.load_modules false false false)
           (Navigate.mkRun false 0 None None 0 Navigate.fetch_fails 0
              (Engine.mkInitRun 0 Engine.launch_throws 0
                 Engine.launch_throws 0))
           Engine.init).
  - discriminate.
  - reflexivity.
Defined.

(** X26. In the HTTP tier a navigation reads the title off the fetched
    document: with [axios] loaded, the tier set to ['http'] and no usable
    page, a request whose fetch resolves in time with a document whose
    first title tag is well formed is answered with the requested address
    and the trimmed text of that tag, and the address becomes the current
    URL; nothing else changes. *)
Theorem navigate_http_reads_title
    (url : string) (mods : Engine.Modules) (run : Navigate.Run)
    (st : Engine.t) (before tag attrs text closing after : string) :
  url <> "" ->
  Navigate.usable st = false ->
  Engine.browserType st = Engine.http ->
  Engine.has_axios mods = true ->
  Navigate.fetch run
  = Navigate.fetch_text
      (before ++ tag ++ attrs ++ ">" ++ text ++ closing ++ after) ->
  Navigate.fetch_ms run < 15000 ->
  Title.contains_ci before "<title" = false ->
  Title.ci_equal "<title" tag ->
  ~ Title.occurs ">" attrs ->
  text <> "" ->
  ~ Title.occurs "<" text ->
  Title.ci_equal "</title>" closing ->
  Navigate.navigate_route (Some url) mods run st
  = (Navigate.success url (Title.trim text), Navigate.with_url url st).
Proof.
  intros Hurl Husable Hty Haxios Hfetch Hms Hbefore Htag Hattrs Hne Htext
    Hclose.
  unfold Navigate.navigate_route.
  apply String.eqb_neq in Hurl. rewrite Hurl, Husable, Hty, Haxios.
  cbn [Navigate.is_http andb].
  unfold Navigate.via_http, Navigate.fetched.
  rewrite (proj2 (Z.ltb_lt _ _) Hms). cbn [fst]. rewrite Hfetch.
  unfold Title.extract_title. by rewrite title_match_complete.
Qed.

Lemma navigate_http_reads_title_witness :
  let st :=
    Engine.with_driver false false Engine.http true Engine.init in
  Navigate.navigate_route (Some "https://a.example")
    (Engine.load_modules false false true)
    (Navigate.mkRun false 0 None None 0
       (Navigate.fetch_text
          ("<html>" ++ "<title" ++ "" ++ ">" ++ " A " ++ "</title>"
           ++ "</html>"))
       120
       (Engine.mkInitRun 0 Engine.launch_throws 0 Engine.launch_throws 0))
    st
  = (Navigate.success "https://a.example" "A",
     Navigate.with_url "https://a.example" st).
Proof.
  intros st.
  apply (navigate_http_reads_title "https://a.example"
           (Engine.load_modules false false true)
           (Navigate.mkRun false 0 None None 0
              (Navigate.fetch_text
                 ("<html>" ++ "<title" ++ "" ++ ">" ++ " A " ++ "</title>"
                  ++ "</html>"))
              120
              (Engine.mkInitRun 0 Engine.launch_throws 0
                 Engine.launch_throws 0))
           st "<html>" "<title" "" " A " "</title>" "</html>").
  - discriminate.
  - reflexivity.
  - reflexivity.
  - reflexivity.
  - reflexivity.
  - reflexivity.
  - vm_compute. reflexivity.
  - vm_compute. reflexivity.
  - vm_compute. intuition.
  - discriminate.
  - vm_compute. intuition discriminate.
  - vm_compute. reflexivity.
Defined.

(** ** The tier of the engine *)

(** X27. Which tier [initializeBrowser] ends in, given what is installed:
    the libraries are required in a chain that stops at the first one
    found, so the HTTP tier is reached exactly when neither browser
    library is installed and [axios] is, and a browser library that is
    installed but fails to launch leaves the mock tier, whatever else is
    installed.  The engine counts as initialized in every tier but the
    mock one. *)
Theorem tier_after_initializeBrowser
    (playwright_installed puppeteer_installed axios_installed : bool)
    (run : Engine.InitRun) (st : Engine.t) :
  Engine.isInitialized st && Engine.browser st && Engine.page st = false ->
  let st' :=
    fst (Engine.initializeBrowser
           (Engine.load_modules playwright_installed puppeteer_installed
              axios_installed) run st) in
  (Engine.browserType st' = Engine.playwright
   <-> playwright_installed = true
       /\ Engine.playwright_run run = Engine.launch_ok)
  /\ (Engine.browserType st' = Engine.puppeteer
      <-> playwright_installed = false /\ puppeteer_installed = true
          /\ Engine.puppeteer_run run = Engine.launch_ok)
  /\ (Engine.browserType st' = Engine.http
      <-> playwright_installed = false /\ puppeteer_installed = false
          /\ axios_installed = true)
  /\ Engine.isInitialized st' = negb (Engine.is_mock (Engine.browserType st')).
Proof.
  intros Hearly. unfold Engine.initializeBrowser. rewrite Hearly.
  destruct playwright_installed, puppeteer_installed, axios_installed,
    (Engine.browser st), (Engine.playwright_run run),
    (Engine.puppeteer_run run);
    cbn; intuition congruence.
Qed.

Lemma tier_after_initializeBrowser_witness :
  let st' :=
    fst (Engine.initializeBrowser (Engine.load_modules true true true)
           (Engine.mkInitRun 0 Engine.launch_throws 700 Engine.launch_ok 0)
           Engine.init) in
  Engine.browserType st' = Engine.mock /\ Engine.isInitialized st' = false.
Proof.
  intros st'.
  destruct (tier_after_initializeBrowser true true true
              (Engine.mkInitRun 0 Engine.launch_throws 700 Engine.launch_ok 0)
              Engine.init eq_refl) as (_ & _ & _ & H).
  fold st' in H. split; [reflexivity|exact H].
Defined.

(** ** Navigation over the socket *)

(** X28. A ['navigate'] from a viewer while the engine has no usable page
    is lost without a word: the relay, its link up, forwards the request
    and tells the viewer nothing, and the engine's listener leaves the
    engine as it is. *)
Theorem navigate_over_socket_without_page
    (viewer url : string) (run : Navigate.Run) (relay : Viewer.t)
    (engine : Engine.t) :
  Viewer.connected relay = true ->
  Navigate.usable engine = false ->
  let relay' := Viewer.on_request viewer (Viewer.navigate url) relay in
  Viewer.to_engine relay'
  = (Viewer.to_engine relay ++ [Viewer.engine_navigate url])%list
  /\ Viewer.to_viewer relay' = Viewer.to_viewer relay
  /\ Navigate.on_navigate url run engine = engine.
Proof.
  intros Hup Hpage. cbn. unfold Viewer.on_navigate, Navigate.on_navigate.
  by rewrite Hup, Hpage.
Qed.

Lemma navigate_over_socket_without_page_witness :
  let run :=
    Navigate.mkRun true 300 (Some "https://a.example") (Some "A") 10
      Navigate.fetch_fails 0
      (Engine.mkInitRun 0 Engine.launch_throws 0 Engine.launch_throws 0) in
  Viewer.to_viewer
    (Viewer.on_request "v" (Viewer.navigate "https://a.example")
       (Viewer.mk true [] [] []))
  = []
  /\ Navigate.on_navigate "https://a.example" run Engine.init = Engine.init.
Proof.
  intros run.
  destruct (navigate_over_socket_without_page "v" "https://a.example" run
              (Viewer.mk true [] [] []) Engine.init eq_refl eq_refl)
    as (_ & H2 & H3).
  by split.
Defined.

(** ** [GET /screenshot] *)

Lemma respond_cases elapsed r :
  Engine.respond elapsed r = r
  \/ Engine.respond elapsed r = Engine.json_error 504 "Screenshot timeout".
Proof.
  unfold Engine.respond.
  destruct (Engine.WATCHDOG <=? elapsed); [right|left]; done.
Qed.

Lemma race_result limit c image :
  fst (Engine.race limit c) = Some image ->
  Engine.capture_result c = Some image.
Proof.
  unfold Engine.race. by destruct (Engine.capture_ms c <? limit).
Qed.

(** X29. What [GET /screenshot] can answer.  An image is always the one
    the page captured for this request; the generated SVG is only sent
    when the request found no usable driver, and it is the placeholder of
    the current URL; 500 is only sent when the request found a usable
    driver; the only other answer is the 504 of the watchdog.  The route
    never changes the current URL. *)
Theorem screenshot_answers
    (mods : Engine.Modules) (run : Engine.InitRun) (c : Engine.Capture)
    (st : Engine.t) :
  match fst (Engine.screenshot_route mods run c st) with
  | Engine.png image => Engine.capture_result c = Some image
  | Engine.svg content =>
      Engine.ready st = false
      /\ content = Engine.placeholder (Engine.currentUrl st)
  | Engine.json_error status error =>
      (status = 504 /\ error = "Screenshot timeout")
      \/ (status = 500 /\ error = "Failed to create screenshot"
          /\ Engine.ready st = true)
  end
  /\ Engine.currentUrl (snd (Engine.screenshot_route mods run c st))
     = Engine.currentUrl st.
Proof.
  unfold Engine.screenshot_route. cbv zeta.
  destruct (Engine.ready st) eqn:Hready.
  - destruct (Engine.race Engine.FIRST_CAPTURE_LIMIT c) as [[image|] elapsed]
      eqn:Hrace; cbn [fst snd]; (split; [|done]).
    + destruct (respond_cases elapsed (Engine.png image)) as [-> | ->];
        [|by left].
      apply (race_result Engine.FIRST_CAPTURE_LIMIT). by rewrite Hrace.
    + match goal with
      | |- context [Engine.respond ?a ?b] =>
          destruct (respond_cases a b) as [-> | ->]; by auto
      end.
  - destruct (Engine.ready (fst _));
      [destruct (Engine.race Engine.RETRY_CAPTURE_LIMIT c)
         as [[image|] elapsed] eqn:Hrace|];
      cbn [fst snd]; rewrite ?initializeBrowser_keeps_url;
      (split; [|done]);
      match goal with
      | |- context [Engine.respond ?a ?b] =>
          destruct (respond_cases a b) as [-> | ->]; try by auto
      end.
    apply (race_result Engine.RETRY_CAPTURE_LIMIT). by rewrite Hrace.
Qed.

(** ** Streaming after [stop] *)

Lemma step_keeps_stopped e st :
  Engine.isInitialized st = false ->
  Engine.isInitialized (Engine.step e st) = false
  /\ Engine.frames (Engine.step e st) = Engine.frames st.
Proof.
  intros Hoff. destruct e as [sock|clientId n|handle shot now|clientId|sock|];
    cbn [Engine.step].
  - done.
  - unfold Engine.on_webrtc_offer, Engine.startStreaming.
    destruct n; cbn; rewrite ?Hoff, ?orb_true_r; done.
  - destruct (Engine.loop_client handle st) as [clientId|]; [|done].
    unfold Engine.capture_and_send. by rewrite Hoff, orb_true_r.
  - unfold Engine.on_client_disconnected. by case_bool_decide.
  - done.
  - done.
Qed.

(** X30. After [stop()] no frame is sent any more: whatever sockets
    connect, whatever offers are negotiated and whichever of the
    streaming loops that [stop] did not clear fire, the frames sent stay
    those sent before. *)
Theorem no_frame_after_stop (es : list Engine.Step) (st : Engine.t) :
  Engine.frames (Engine.run es (Engine.stop st)) = Engine.frames st.
Proof.
  assert (H : forall es s,
             Engine.isInitialized s = false ->
             Engine.frames (Engine.run es s) = Engine.frames s).
  { clear. induction es as [|e es IH]; intros s Hoff; [done|].
    destruct (step_keeps_stopped e s Hoff) as [Hoff' Hframes].
    cbn [Engine.run fold_left]. fold (Engine.run es (Engine.step e s)).
    by rewrite IH. }
  by rewrite H.
Qed.
